(** * rainfall/color.py: colour literals, formatting and gradients

    A shallow embedding of the colour module of the rainfed-agriculture
    repository (Python 2: [name] formats floats with [%02x], which Python 3
    rejects, and the two scripts use the [print] statement).

    - Python [float] is IEEE-754 binary64.  It is embedded as the Standard
      Library's [spec_float] at precision 53 and maximal exponent 1024, and
      every arithmetic operator is the corresponding [SpecFloat] operation
      (round to nearest, ties to even).
    - Python [str] (a byte string in Python 2) is [string].
    - Exceptions are the [Raise] results of the [res] monad.
    - The dictionaries [_colornames] and [_MSO._lookup] are [gmap]s. *)

From Stdlib Require Import ZArith QArith Qabs Bool List Ascii String Lia SpecFloat.
From Stdlib Require Import DecimalString HexadecimalString Lqa PrimFloat FloatOps.
From stdpp Require Import base option list gmap strings sorting.
Import ListNotations.
Local Open Scope string_scope.
Local Open Scope Z_scope.

(** ** Exceptions *)

(** The [ValueError]s that can leave the module, told apart by the statement
    that raises them.  [InvalidColor] is the one [rgba] raises itself:
    [raise ValueError('%s: invalid color' % color)]. *)
Inductive value_error :=
| InvalidColor      (* rgba: the component count is not 4 *)
| BadIntLiteral     (* int(s, 16) on a string that is no hexadecimal literal *)
| BadFloatLiteral   (* float(s) on a string that is no decimal literal *)
| NanToInt          (* int(nan) *)
| ZeroSliceStep.    (* a slice whose step is 0 *)

Inductive exn :=
| ValueError (why : value_error)
| IndexError
| OverflowError
| ZeroDivisionError
| TypeError.

Inductive res (A : Type) :=
| Ok (a : A)
| Raise (e : exn).
Arguments Ok {A} a.
Arguments Raise {A} e.

#[global] Instance res_ret : MRet res := fun A a => Ok a.
#[global] Instance res_bind : MBind res := fun A B f m =>
  match m with
  | Ok a => f a
  | Raise e => Raise e
  end.
#[global] Instance res_fmap : FMap res := fun A B f m =>
  match m with
  | Ok a => Ok (f a)
  | Raise e => Raise e
  end.

(** ** Python floats *)

Abbreviation float := spec_float (only parsing).

Definition prec : Z := 53.
Definition emax : Z := 1024.

Definition fadd : float -> float -> float := SFadd prec emax.
Definition fsub : float -> float -> float := SFsub prec emax.
Definition fmul : float -> float -> float := SFmul prec emax.
Definition fdiv : float -> float -> float := SFdiv prec emax.
Definition fltb : float -> float -> bool := SFltb.
Definition fleb : float -> float -> bool := SFleb.
Definition feqb : float -> float -> bool := SFeqb.

(** [float(z)] for a Python integer: the nearest double. *)
Definition of_Z (z : Z) : float := binary_normalize prec emax z 0 false.

(** The double nearest to the fraction [n / d]; this is what [float(s)] returns
    for a decimal literal [s] whose value is [n / d]. *)
Definition of_ratio (n : Z) (d : positive) : float :=
  match n with
  | Z0 => S754_zero false
  | Zpos m =>
      let '(mz, ez, lz) := SFdiv_core_binary prec emax (Zpos m) 0 (Zpos d) 0 in
      binary_round_aux prec emax false mz ez lz
  | Zneg m =>
      let '(mz, ez, lz) := SFdiv_core_binary prec emax (Zpos m) 0 (Zpos d) 0 in
      binary_round_aux prec emax true mz ez lz
  end.

Definition f0 : float := S754_zero false.
Definition f1 : float := Eval cbv in of_Z 1.
Definition f6 : float := Eval cbv in of_Z 6.
Definition f15 : float := Eval cbv in of_Z 15.
Definition f100 : float := Eval cbv in of_Z 100.
Definition f255 : float := Eval cbv in of_Z 255.
Definition f360 : float := Eval cbv in of_Z 360.

Definition is_nan (f : float) : bool :=
  match f with
  | S754_nan => true
  | _ => false
  end.

Definition is_zero (f : float) : bool :=
  match f with
  | S754_zero _ => true
  | _ => false
  end.

(** A double that a Python float can hold: the mantissa is normalised. *)
Definition valid (f : float) : bool := valid_binary prec emax f.

(** The exact value of a finite double (0 for the others). *)
Definition toQ (f : float) : Q :=
  match f with
  | S754_finite s m e =>
      let n := if s then Zneg m else Zpos m in
      match e with
      | Z0 => inject_Z n
      | Zpos p => inject_Z (n * Z.pow_pos 2 p)
      | Zneg p => n # (Pos.pow 2 p)
      end
  | _ => 0%Q
  end.

(** [a / b] on floats: Python raises on a zero divisor. *)
Definition pydiv (a b : float) : res float :=
  if is_zero b then Raise ZeroDivisionError else Ok (fdiv a b).

(** [a % 1] on floats ([float_rem] of CPython 2.7): C's [fmod], then the sign
    of the result is made that of the divisor. *)
Definition pymod1 (a : float) : float :=
  match a with
  | S754_nan => S754_nan
  | S754_infinity _ => S754_nan
  | S754_zero _ => f0
  | S754_finite s m e =>
      match e with
      | Zneg p =>
          let frac := Zpos m mod Z.pow_pos 2 p in
          if frac =? 0 then f0
          else if s then fadd (binary_normalize prec emax (- frac) e false) f1
          else binary_normalize prec emax frac e false
      | _ => f0
      end
  end.

(** [int(f)]: truncation towards zero. *)
Definition pyint (f : float) : res Z :=
  match f with
  | S754_nan => Raise (ValueError NanToInt)
  | S754_infinity _ => Raise OverflowError
  | S754_zero _ => Ok 0
  | S754_finite s m e =>
      let mag :=
        match e with
        | Z0 => Zpos m
        | Zpos p => Zpos m * Z.pow_pos 2 p
        | Zneg p => Zpos m / Z.pow_pos 2 p
        end in
      Ok (if s then - mag else mag)
  end.

(** ** Python sequences *)

(** [l[i]] with Python's negative indices. *)
Definition pyindex {A} (l : list A) (i : Z) : res A :=
  let n := Z.of_nat (length l) in
  let j := if i <? 0 then i + n else i in
  if (j <? 0) || (n <=? j) then Raise IndexError
  else match l !! Z.to_nat j with
       | Some a => Ok a
       | None => Raise IndexError
       end.

(** One bound of a slice, clipped as [PySlice_GetIndicesEx] does. *)
Definition slice_bound (n step : Z) (dflt : Z) (b : option Z) : Z :=
  match b with
  | None => dflt
  | Some v =>
      let v := if v <? 0 then v + n else v in
      if v <? 0 then (if step <? 0 then -1 else 0)
      else if n <=? v then (if step <? 0 then n - 1 else n)
      else v
  end.

(** [l[start:stop:step]]. *)
Definition pyslice {A} (l : list A) (start stop step : option Z) : res (list A) :=
  let n := Z.of_nat (length l) in
  let st := default 1 step in
  if st =? 0 then Raise (ValueError ZeroSliceStep)
  else
    let lo := slice_bound n st (if st <? 0 then n - 1 else 0) start in
    let hi := slice_bound n st (if st <? 0 then -1 else n) stop in
    let len :=
      if ((st <? 0) && (lo <=? hi)) || ((0 <? st) && (hi <=? lo)) then 0
      else if st <? 0 then Z.quot (hi - lo + 1) st + 1
      else Z.quot (hi - lo - 1) st + 1 in
    Ok (omap (fun i : nat => l !! Z.to_nat (lo + Z.of_nat i * st))
             (seq 0 (Z.to_nat len))).

(** [range(0, n)]. *)
Definition range0 (n : Z) : list Z := map Z.of_nat (seq 0 (Z.to_nat n)).

(** ** Python strings *)

Definition startswith (p s : string) : bool := String.prefix p s.

Fixpoint split_on (sep : ascii) (s : string) : list string :=
  match s with
  | EmptyString => [EmptyString]
  | String c t =>
      if Ascii.eqb c sep then EmptyString :: split_on sep t
      else match split_on sep t with
           | h :: r => String c h :: r
           | [] => [String c EmptyString]
           end
  end.

(** [v.endswith('%')], giving [v[:-1]] when it does. *)
Fixpoint strip_percent (v : string) : option string :=
  match v with
  | EmptyString => None
  | String c EmptyString => if Ascii.eqb c "%" then Some EmptyString else None
  | String c t => String c <$> strip_percent t
  end.

Definition digit_val (c : ascii) : option Z :=
  let n := Z.of_N (N_of_ascii c) in
  if (48 <=? n) && (n <=? 57) then Some (n - 48) else None.

Definition hex_val (c : ascii) : option Z :=
  let n := Z.of_N (N_of_ascii c) in
  if (48 <=? n) && (n <=? 57) then Some (n - 48)
  else if (97 <=? n) && (n <=? 102) then Some (n - 87)
  else if (65 <=? n) && (n <=? 70) then Some (n - 55)
  else None.

(** C's [isspace] in the "C" locale. *)
Definition is_space (c : ascii) : bool :=
  let n := Z.of_N (N_of_ascii c) in
  (n =? 32) || ((9 <=? n) && (n <=? 13)).

(** [\w] of [re] on a byte string: letters, digits and the underscore. *)
Definition is_word (c : ascii) : bool :=
  let n := Z.of_N (N_of_ascii c) in
  ((48 <=? n) && (n <=? 57)) || ((97 <=? n) && (n <=? 122))
  || ((65 <=? n) && (n <=? 90)) || (n =? 95).

Fixpoint lstrip (s : string) : string :=
  match s with
  | String c t => if is_space c then lstrip t else s
  | EmptyString => EmptyString
  end.

Fixpoint hex_digits (acc : Z) (s : string) : Z * string :=
  match s with
  | String c t =>
      match hex_val c with
      | Some d => hex_digits (16 * acc + d) t
      | None => (acc, s)
      end
  | EmptyString => (acc, EmptyString)
  end.

(** [int(s, 16)] of CPython 2.7 ([PyInt_FromString] over [PyOS_strtol]):
    blanks, a sign, blanks, an optional [0x] that a digit follows, digits,
    blanks. *)
Definition int16 (s : string) : res Z :=
  let s1 := lstrip s in
  let '(neg, s2) :=
    match s1 with
    | String "-" t => (true, t)
    | String "+" t => (false, t)
    | _ => (false, s1)
    end in
  let s3 := lstrip s2 in
  let s4 :=
    match s3 with
    | String "0" (String x (String d t)) =>
        if (Ascii.eqb x "x" || Ascii.eqb x "X") && bool_decide (is_Some (hex_val d))
        then String d t else s3
    | _ => s3
    end in
  match s4 with
  | String c _ =>
      match hex_val c with
      | Some _ =>
          let '(v, rest) := hex_digits 0 s4 in
          match lstrip rest with
          | EmptyString => Ok (if neg then - v else v)
          | _ => Raise (ValueError BadIntLiteral)
          end
      | None => Raise (ValueError BadIntLiteral)
      end
  | EmptyString => Raise (ValueError BadIntLiteral)
  end.

(** The digits of a decimal literal without sign and exponent: the integer
    they spell once the point is removed, and the number of digits after the
    point.  [None] when the string is no such literal. *)
Fixpoint scan_decimal (s : string) (dot : bool) (any : bool) (acc : Z) (nfrac : nat)
  : option (Z * nat) :=
  match s with
  | EmptyString => if any then Some (acc, nfrac) else None
  | String c t =>
      match digit_val c with
      | Some d => scan_decimal t dot true (10 * acc + d) (if dot then S nfrac else nfrac)
      | None =>
          if Ascii.eqb c "." && negb dot then scan_decimal t true any acc nfrac
          else None
      end
  end.

(** [float(s)] on the strings the token scan below can produce (they hold
    digits, points and percent signs only): the correctly rounded value of a
    literal such as [12], [.5] or [3.]; [ValueError] otherwise. *)
Definition pyfloat (s : string) : res float :=
  match scan_decimal s false false 0 0 with
  | Some (n, k) => Ok (of_ratio n (Z.to_pos (10 ^ Z.of_nat k)))
  | None => Raise (ValueError BadFloatLiteral)
  end.

(** [re.findall(r'[0-9\.%]+', s)]: the maximal runs of digits, points and
    percent signs, from left to right. *)
Definition is_token_char (c : ascii) : bool :=
  bool_decide (is_Some (digit_val c)) || Ascii.eqb c "." || Ascii.eqb c "%".

Fixpoint findall_tokens (s : string) : list string :=
  match s with
  | EmptyString => []
  | String c t =>
      if is_token_char c then
        match t with
        | String c' _ =>
            if is_token_char c' then
              match findall_tokens t with
              | tok :: toks => String c tok :: toks
              | [] => [String c EmptyString]
              end
            else String c EmptyString :: findall_tokens t
        | EmptyString => [String c EmptyString]
        end
      else findall_tokens t
  end.

(** ** Formatting *)

(** The integer that [%x] and [%d] print for a float argument.  CPython 2.7
    ([PyString_Format]) tries [int(v)], then [long(v)]; when both fail (a NaN
    or an infinity) it raises [TypeError: a number is required]. *)
Definition fmt_arg (v : float) : res Z :=
  match pyint v with
  | Ok z => Ok z
  | Raise _ => Raise TypeError
  end.

(** ['%x' % v] and ['%d' % v] on an integer. *)
Definition fmt_x (v : Z) : string :=
  let digits := HexadecimalString.NilZero.string_of_uint (N.to_hex_uint (Z.to_N (Z.abs v))) in
  if v <? 0 then String "-" digits else digits.

Definition fmt_d (v : Z) : string :=
  DecimalString.NilZero.string_of_int (Z.to_int v).

(** ['%02x' % v]: at least two characters, padded with zeros on the left. *)
Definition fmt_02x (v : Z) : string :=
  let s := fmt_x v in
  if (String.length s <? 2)%nat then String "0" s else s.

(** ['%0.2f' % a] for a double [a]: two decimals, the exact value rounded
    half to even. *)
Definition fmt_0_2f (a : float) : string :=
  match a with
  | S754_nan => "nan"
  | S754_infinity s => if s then "-inf" else "inf"
  | S754_zero s => if s then "-0.00" else "0.00"
  | S754_finite s m e =>
      let '(num, den) :=
        match e with
        | Z0 => (100 * Zpos m, 1)
        | Zpos p => (100 * Zpos m * Z.pow_pos 2 p, 1)
        | Zneg p => (100 * Zpos m, Z.pow_pos 2 p)
        end in
      let q := num / den in
      let r := num mod den in
      let n := if (den <? 2 * r) || ((2 * r =? den) && Z.odd q) then q + 1 else q in
      let frac := fmt_d (n mod 100) in
      (if s then "-" else "") +:+ fmt_d (n / 100) +:+ "."
        +:+ (if (String.length frac <? 2)%nat then String "0" frac else frac)
  end.

(** [re.sub(r'#(\w)\1(\w)\2(\w)\3', r'#\1\2\3', s)]: every occurrence, from
    left to right, of a [#] followed by three doubled word characters loses
    the second character of each pair. *)
Fixpoint re_sub_short (s : string) : string :=
  match s with
  | EmptyString => EmptyString
  | String c0 t =>
      match t with
      | String a (String a' (String b (String b' (String c (String c' rest))))) =>
          if Ascii.eqb c0 "#"
             && is_word a && Ascii.eqb a a'
             && is_word b && Ascii.eqb b b'
             && is_word c && Ascii.eqb c c'
          then String "#" (String a (String b (String c (re_sub_short rest))))
          else String c0 (re_sub_short t)
      | _ => String c0 (re_sub_short t)
      end
  end.

(** ** colorsys.hsv_to_rgb (Python standard library) *)

Definition hsv_to_rgb (h s v : float) : res (float * float * float) :=
  if feqb s f0 then Ok (v, v, v)
  else
    i ← pyint (fmul h f6);
    let f := fsub (fmul h f6) (of_Z i) in
    let p := fmul v (fsub f1 s) in
    let q := fmul v (fsub f1 (fmul s f)) in
    let t := fmul v (fsub f1 (fmul s (fsub f1 f))) in
    let i := i mod 6 in
    Ok (if i =? 0 then (v, t, p)
        else if i =? 1 then (q, v, p)
        else if i =? 2 then (p, v, t)
        else if i =? 3 then (p, q, v)
        else if i =? 4 then (t, p, v)
        else (v, p, q)).

(** ** The module's tables *)

(** [_colornames]; the integers of the source are held as the doubles they
    convert to, which compare and clamp alike. *)
Definition _colornames : gmap string (list float) :=
  list_to_map
    (map (fun '(k, (r, g, b)) => (k, [of_Z r; of_Z g; of_Z b]))
      [ ("black",   (0, 0, 0));       ("silver",  (192, 192, 192));
        ("gray",    (128, 128, 128)); ("white",   (255, 255, 255));
        ("maroon",  (128, 0, 0));     ("red",     (255, 0, 0));
        ("purple",  (128, 0, 128));   ("fuchsia", (255, 0, 255));
        ("green",   (0, 128, 0));     ("lime",    (0, 255, 0));
        ("olive",   (128, 128, 0));   ("yellow",  (255, 255, 0));
        ("navy",    (0, 0, 128));     ("blue",    (0, 0, 255));
        ("teal",    (0, 128, 128));   ("aqua",    (0, 255, 255)) ]).

Definition _distincts : list string :=
  [ "#1f77b4"; "#aec7e8"; "#ff7f0e"; "#ffbb78"; "#2ca02c"; "#98df8a";
    "#d62728"; "#ff9896"; "#9467bd"; "#c5b0d5"; "#8c564b"; "#c49c94";
    "#e377c2"; "#f7b6d2"; "#7f7f7f"; "#c7c7c7"; "#bcbd22"; "#dbdb8d";
    "#17becf"; "#9edae5" ].

Definition Greens : list (float * string) :=
  [ (f0, "#F7FCF5"); (of_ratio 5 10, "#74C476"); (f1, "#00441B") ].

Definition RWG_1 : list (float * string) :=
  [ (of_Z (-1), "#ff0000"); (f0, "#ffffff"); (f1, "#00ff00") ].

(** ** rgba *)

(** One token of [rgb(...)] at position [i]. *)
Definition rgb_component (i : nat) (v : string) : res float :=
  match strip_percent v with
  | Some body => x ← pyfloat body; Ok (fdiv x f100)
  | None =>
      if (i <? 3)%nat then x ← pyfloat v; Ok (fdiv x f255)
      else pyfloat v
  end.

(** One token of [hsl(...)] at position [i]. *)
Definition hsl_component (i : nat) (v : string) : res float :=
  match strip_percent v with
  | Some body => x ← pyfloat body; Ok (fdiv x f100)
  | None =>
      if (i =? 0)%nat then x ← pyfloat v; Ok (pymod1 (fdiv x f360))
      else pyfloat v
  end.

(** [for i, v in enumerate(tokens): result.append(conv(i, v))]. *)
Fixpoint convert_tokens (conv : nat -> string -> res float) (i : nat) (toks : list string)
  : res (list float) :=
  match toks with
  | [] => Ok []
  | v :: rest =>
      x ← conv i v;
      xs ← convert_tokens conv (S i) rest;
      Ok (x :: xs)
  end.

Definition clamp01 (v : float) : float :=
  if fltb v f0 then f0 else if fltb f1 v then f1 else v.

Definition rgba (color : string) : res (float * float * float * float) :=
  result ←
    (if startswith "#" color then
       if (String.length color =? 7)%nat then
         r ← int16 (substring 1 2 color);
         g ← int16 (substring 3 2 color);
         b ← int16 (substring 5 2 color);
         Ok [fdiv (of_Z r) f255; fdiv (of_Z g) f255; fdiv (of_Z b) f255]
       else if (String.length color =? 4)%nat then
         r ← int16 (substring 1 1 color);
         g ← int16 (substring 2 1 color);
         b ← int16 (substring 3 1 color);
         Ok [fdiv (of_Z r) f15; fdiv (of_Z g) f15; fdiv (of_Z b) f15]
       else Ok []
     else if startswith "rgb(" color || startswith "rgba(" color then
       args ← pyindex (split_on "(" color) 1;
       convert_tokens rgb_component 0 (findall_tokens args)
     else if startswith "hsl(" color || startswith "hsla(" color then
       args ← pyindex (split_on "(" color) 1;
       result ← convert_tokens hsl_component 0 (findall_tokens args);
       h ← pyindex result 0;
       s ← pyindex result 1;
       v ← pyindex result 2;
       '(r, g, b) ← hsv_to_rgb h s v;
       Ok (r :: g :: b :: drop 3 result)
     else
       match _colornames !! color with
       | Some rgb => Ok rgb
       | None => Ok []
       end);
  let result := if (length result =? 3)%nat then (result ++ [f1])%list else result in
  match result with
  | [r; g; b; a] => Ok (clamp01 r, clamp01 g, clamp01 b, clamp01 a)
  | _ => Raise (ValueError InvalidColor)
  end.

(** ** name *)

Definition name (r g b a : float) : res string :=
  let r := clamp01 r in
  let g := clamp01 g in
  let b := clamp01 b in
  let a := clamp01 a in
  if fleb f1 a then
    R ← fmt_arg (fmul f255 r);
    G ← fmt_arg (fmul f255 g);
    B ← fmt_arg (fmul f255 b);
    Ok (re_sub_short ("#" +:+ fmt_02x R +:+ fmt_02x G +:+ fmt_02x B))
  else
    R ← fmt_arg (fmul f255 r);
    G ← fmt_arg (fmul f255 g);
    B ← fmt_arg (fmul f255 b);
    Ok ("rgba(" +:+ fmt_d R +:+ "," +:+ fmt_d G +:+ "," +:+ fmt_d B +:+ ","
          +:+ fmt_0_2f a +:+ ")").

(** ** gradient *)

(** [sorted(ranges, key=operator.itemgetter(0))] is [list.sort] on a copy of
    [ranges], the stops compared by [<] on their positions and on nothing
    else.  On fewer than 64 items CPython's sort makes one run of the whole
    list: [count_run] measures the run the list starts with, [reverse_slice]
    turns a descending run around, and [binarysort] inserts the items after
    the run one by one.  No comparison other than [<] is made, so a NaN
    position, which is below nothing and has nothing below it, is moved past
    nothing and lets nothing past. *)

(** The items of [l] that continue the run ending in [prev]: a descending run
    goes on while the next item is below its predecessor, an ascending one
    while it is not. *)
Fixpoint run_tail (descending : bool) (prev : float * string)
    (l : list (float * string)) : nat :=
  match l with
  | [] => 0%nat
  | e :: t =>
      if Bool.eqb (fltb e.1 prev.1) descending then S (run_tail descending e t)
      else 0%nat
  end.

(** [count_run]: the length of the run at the head of [l], and whether it
    descends. *)
Definition count_run (l : list (float * string)) : nat * bool :=
  match l with
  | [] => (0%nat, false)
  | [_] => (1%nat, false)
  | e0 :: e1 :: t =>
      let descending := fltb e1.1 e0.1 in
      (S (S (run_tail descending e1 t)), descending)
  end.

(** The inner loop of [binarysort],
    [do { p = l + ((r - l) >> 1); if pivot < a[p]: r = p else: l = p + 1 }
     while (l < r)],
    entered with [l < r]; it ends within [r - l] rounds. *)
Fixpoint bisect (fuel : nat) (pivot : float) (a : list (float * string))
    (l r : nat) : nat :=
  match fuel with
  | O => l
  | S fuel =>
      let p := (l + (r - l) / 2)%nat in
      match a !! p with
      | Some e =>
          let '(l, r) := if fltb pivot e.1 then (l, p) else (S p, r) in
          if (l <? r)%nat then bisect fuel pivot a l r else l
      | None => l
      end
  end.

(** One round of [binarysort]: [pivot] is put where [bisect] ends, the items
    from there on move up by one. *)
Definition binary_insert (a : list (float * string)) (pivot : float * string)
  : list (float * string) :=
  let l := bisect (length a) pivot.1 a 0 (length a) in
  take l a ++ pivot :: drop l a.

(** Lists of 64 items and more are sorted as runs of this kind that are then
    merged.  When no position is a NaN the outcome is the same list, the
    ascending order in which stops of equal position keep their places; with
    a NaN among that many stops this definition is not the list CPython
    returns, and nothing is stated about that case beyond what holds of every
    rearrangement of the stops. *)
Definition sorted (ranges : list (float * string)) : list (float * string) :=
  let '(n, descending) := count_run ranges in
  let run := take n ranges in
  foldl binary_insert (if descending then reverse run else run) (drop n ranges).

(** The value of [i] after
    [for i, (start, color) in enumerate(ranges): if x <= start: break],
    counted from [i]: the first index whose position is at least [x], the
    last index when there is none. *)
Fixpoint scan_stops (x : float) (i : Z) (l : list (float * string)) : Z :=
  match l with
  | [] => i - 1
  | e :: t => if fleb x e.1 then i else scan_stops x (i + 1) t
  end.

(** The interpolation of [gradient] between the stops [i - 1] and [i]. *)
Definition blend (x : float) (ranges : list (float * string)) (i : Z) : res string :=
  prev ← pyindex ranges (i - 1);
  cur ← pyindex ranges i;
  p ← pydiv (fsub x prev.1) (fsub cur.1 prev.1);
  let q := fsub f1 p in
  '(a0, a1, a2, _) ← rgba prev.2;
  '(b0, b1, b2, _) ← rgba cur.2;
  name (fadd (fmul a0 q) (fmul b0 p))
       (fadd (fmul a1 q) (fmul b1 p))
       (fadd (fmul a2 q) (fmul b2 p))
       f1.

(** [gradient] on a scalar [x].  The positions are doubles, as in every table
    of the module, and [x] is one after [float(x)]; the integer 0 that stands
    in for a NaN compares and subtracts as the double 0.0. *)
Definition gradient_scalar (x : float) (ranges : list (float * string)) : res string :=
  let x := if is_nan x then f0 else x in
  let ranges := sorted ranges in
  first ← pyindex ranges 0;
  if fleb x first.1 then Ok first.2
  else
    last ← pyindex ranges (-1);
    if fleb last.1 x then Ok last.2
    else blend x ranges (scan_stops x 0 ranges).

(** The argument [x] of [gradient] (a number, or a sequence when
    [numpy.ndim(x) > 0]) and its result. *)
#[warnings="-register-all"]
Inductive xval :=
| XNum (x : float)
| XSeq (xs : list xval).

#[warnings="-register-all"]
Inductive gval :=
| GStr (s : string)
| GSeq (gs : list gval).

Fixpoint gradient (x : xval) (ranges : list (float * string)) : res gval :=
  match x with
  | XNum v => GStr <$> gradient_scalar v ranges
  | XSeq xs =>
      GSeq <$> (fix each (l : list xval) : res (list gval) :=
                  match l with
                  | [] => Ok []
                  | v :: t =>
                      g ← gradient v ranges;
                      gs ← each t;
                      Ok (g :: gs)
                  end) xs
  end.

(** ** distinct *)

(** [[_distincts[2*i] for i in range(0, n)]]. *)
Fixpoint every_second (idx : list Z) : res (list string) :=
  match idx with
  | [] => Ok []
  | i :: rest =>
      c ← pyindex _distincts (2 * i);
      cs ← every_second rest;
      Ok (c :: cs)
  end.

Definition distinct (n : Z) : res (list string) :=
  if n <=? 10 then every_second (range0 n)
  else if n <=? 20 then pyslice _distincts None (Some n) None
  else pyslice _distincts None None None.

(** ** _MSO *)

Definition _lookup : gmap string Z :=
  list_to_map
    [ ("accent_1", 0); ("accent_2", 1); ("accent_3", 2); ("accent_4", 3);
      ("accent_5", 4); ("accent_6", 5); ("light_2", 6); ("dark_2", 7);
      ("light_1", 8); ("dark_1", 9) ].

(** The keys [__getitem__] tells apart, and what it returns.  Python 2 has
    two types of integers: an [int] is a machine word, between
    [-sys.maxint - 1] and [sys.maxint], and an integer beyond that range, or
    one written with the suffix [L], is a [long].  [type(key) is int] holds of
    the first only. *)
Inductive key :=
| KInt (i : Z)
| KLong (i : Z)
| KSlice (start stop step : option Z)
| KStr (s : string).

(** The key that the integer [z] is when it is written without a suffix, on
    an interpreter whose [sys.maxint] is [maxint]. *)
Definition integer_key (maxint z : Z) : key :=
  if (- maxint - 1 <=? z) && (z <=? maxint) then KInt z else KLong z.

Inductive item :=
| Color (c : string)
| Colors (cs : list string)
| PyNone.

Record _MSO := { values : list string }.

(** [__getitem__]: a slice or an [int] goes to the tuple.  Any other key is
    looked for in [_lookup], whose keys are strings, so that a [long] is not
    found there; a key that is not found falls off the end of the method,
    which answers [None]. *)
Definition __getitem__ (self : _MSO) (k : key) : res item :=
  match k with
  | KSlice start stop step => Colors <$> pyslice (values self) start stop step
  | KInt i => Color <$> pyindex (values self) i
  | KLong _ => Ok PyNone
  | KStr s =>
      match _lookup !! s with
      | Some i => Color <$> pyindex (values self) i
      | None => Ok PyNone
      end
  end.

Definition Office : _MSO :=
  {| values := [ "#4f81bd"; "#c0504d"; "#9bbb59"; "#8064a2"; "#4bacc6";
                 "#f79646"; "#eeece1"; "#1f497d"; "#ffffff"; "#000000" ] |}.

Definition Adjacency : _MSO :=
  {| values := [ "#A9A57C"; "#9CBEBD"; "#D2CB6C"; "#95A39D"; "#C89F5D";
                 "#B1A089"; "#DFDCB7"; "#675E47"; "#FFFFFF"; "#2F2B20";
                 "#D25814"; "#849A0A" ] |}.


(** ** Vocabulary of the statements *)

(** Every character of [s] satisfies [p]. *)
Fixpoint all_chars (p : ascii -> bool) (s : string) : bool :=
  match s with
  | EmptyString => true
  | String c t => p c && all_chars p t
  end.

(** The ten slot names of a theme, in the order of their indices. *)
Definition slot_names : list string :=
  [ "accent_1"; "accent_2"; "accent_3"; "accent_4"; "accent_5"; "accent_6";
    "light_2"; "dark_2"; "light_1"; "dark_1" ].

(** Two neighbours [a], [b] of a run as [count_run] tests them: [b] is below
    [a] in a descending run, and is not in an ascending one. *)
Definition run_step (descending : bool) : relation (float * string) :=
  fun a b => Bool.eqb (fltb b.1 a.1) descending = true.

(** No position of [ranges] is a NaN. *)
Definition positions_are_numbers (ranges : list (float * string)) : Prop :=
  Forall (fun e => is_nan e.1 = false) ranges.

(** [l] is in ascending order of position. *)
Definition ascending (l : list (float * string)) : Prop :=
  StronglySorted (fun a b => fleb a.1 b.1 = true) l.

(** The stops of [l] whose position equals [p] are those of [ranges], in the
    order they have in [ranges]: what was sorted is stable. *)
Definition keeps_ties (ranges l : list (float * string)) : Prop :=
  forall p : float,
    filter (fun e => feqb e.1 p = true) l = filter (fun e => feqb e.1 p = true) ranges.

(** The interpolation between two stops in the words of the specification:
    the fraction [p = (x - prev.position) / (cur.position - prev.position)],
    each of R, G, B blended as [prev * (1 - p) + cur * p], alpha left out, the
    result formatted with the default opaque alpha. *)
Definition interpolate_between (x : float) (prev cur : float * string) : res string :=
  p ← pydiv (fsub x prev.1) (fsub cur.1 prev.1);
  '(pr, pg, pb, _) ← rgba prev.2;
  '(cr, cg, cb, _) ← rgba cur.2;
  name (fadd (fmul pr (fsub f1 p)) (fmul cr p))
       (fadd (fmul pg (fsub f1 p)) (fmul cg p))
       (fadd (fmul pb (fsub f1 p)) (fmul cb p))
       f1.

(** A saturation, value or alpha token of [hsl(...)]: a percentage divided
    by 100, otherwise the literal float. *)
Definition percent_or_float (v : string) : res float :=
  match strip_percent v with
  | Some body => x ← pyfloat body; Ok (fdiv x f100)
  | None => pyfloat v
  end.

(** The hue token as the source reads it: a percentage divided by 100 like
    the other tokens, otherwise degrees taken [(value / 360) mod 1]. *)
Definition hue_of_token (v : string) : res float :=
  match strip_percent v with
  | Some body => x ← pyfloat body; Ok (fdiv x f100)
  | None => x ← pyfloat v; Ok (pymod1 (fdiv x f360))
  end.

(** The hue token in the words of the specification: always degrees,
    [(value / 360) mod 1], the value being the number the token spells. *)
Definition hue_of_token_claimed (v : string) : res float :=
  x ← pyfloat (default v (strip_percent v));
  Ok (pymod1 (fdiv x f360)).

(** [rgba] of an [hsl(...)] literal whose scan gives the tokens [h], [s], [v]
    and at most one alpha token, for a given reading of the hue token. *)
Definition hsl_to_rgba (hue : string -> res float) (h s v : string) (alpha : list string)
  : res (float * float * float * float) :=
  hh ← hue h;
  ss ← percent_or_float s;
  vv ← percent_or_float v;
  aa ← match alpha with
       | [] => Ok f1
       | a :: _ => percent_or_float a
       end;
  '(r, g, b) ← hsv_to_rgb hh ss vv;
  Ok (clamp01 r, clamp01 g, clamp01 b, clamp01 aa).

(** The interval of the reals in which a double [r] of [0, 1] lies when
    [int(255 * r)] is [k]: the product is rounded to nearest before it is
    truncated, so the interval is a little off [k / 255, (k + 1) / 255). *)
Definition byte_log2 (k : Z) : Z := if k =? 0 then -1 else Z.log2 k.

Definition byte_lo (k : Z) : Q := (k * 2 ^ 45 - 1) # Z.to_pos (255 * 2 ^ 45).

Definition byte_hi (k : Z) : Q :=
  ((k + 1) * 2 ^ (53 - byte_log2 k) - 1) # Z.to_pos (255 * 2 ^ (53 - byte_log2 k)).

(** The channel [rgba] returns for the byte [k] written as two hexadecimal
    digits. *)
Definition byte_channel (k : Z) : float := fdiv (of_Z k) f255.

(** [r] is a double of the interval [0, 1]. *)
Definition unit_interval (r : float) : Prop :=
  valid r = true /\ fleb f0 r = true /\ fleb r f1 = true.

(** The lower-case hexadecimal digit of [d], and the two digits of a byte. *)
Definition hex_char (d : Z) : ascii :=
  ascii_of_N (Z.to_N (if d <? 10 then 48 + d else 87 + d)).

Definition hex2 (k : Z) : string :=
  String (hex_char (k / 16)) (String (hex_char (k mod 16)) EmptyString).

(** The two digits of the byte [k] are the same. *)
Definition repeated_digit (k : Z) : bool := k / 16 =? k mod 16.

(** The opaque form of [name] for the bytes [R], [G], [B]: three digits when
    each byte is a repeated digit, six digits otherwise. *)
Definition hex_color (R G B : Z) : string :=
  if repeated_digit R && repeated_digit G && repeated_digit B
  then String "#" (String (hex_char (R / 16)) (String (hex_char (G / 16))
         (String (hex_char (B / 16)) EmptyString)))
  else "#" +:+ hex2 R +:+ hex2 G +:+ hex2 B.

#[global] Instance exn_eq_dec : EqDecision exn.
Proof. intros x y. unfold Decision. repeat decide equality. Defined.

#[global] Instance res_eq_dec {A : Type} `{EqDecision A} : EqDecision (res A).
Proof.
  intros x y. unfold Decision.
  decide equality; [apply (decide (a = a0))|apply (decide (e = e0))].
Defined.

#[global] Instance float_eq_dec : EqDecision float.
Proof.
  intros x y. unfold Decision.
  decide equality; try apply Bool.bool_dec; try apply Pos.eq_dec; apply Z.eq_dec.
Defined.

(** ** The table of names as a shared object

    [rgba] does not copy the list it takes out of [_colornames]:
    [result.append(1.)] extends the entry of the table itself, and the next
    call on that name finds four components.  [rgba_named] is the path of
    [rgba] on a name of the table, with the table as state. *)
Definition rgba_named (table : gmap string (list float)) (color : string)
  : res (float * float * float * float) * gmap string (list float) :=
  match table !! color with
  | Some rgb =>
      let result := if (length rgb =? 3)%nat then (rgb ++ [f1])%list else rgb in
      (match result with
       | [r; g; b; a] => Ok (clamp01 r, clamp01 g, clamp01 b, clamp01 a)
       | _ => Raise (ValueError InvalidColor)
       end,
       <[color := result]> table)
  | None => (Raise (ValueError InvalidColor), table)
  end.

(** The tables that calls of [rgba] can leave: an entry is as the module
    defines it, or has the alpha 1 appended. *)
Definition table_reachable (table : gmap string (list float)) : Prop :=
  forall k : string,
    match _colornames !! k with
    | Some rgb => table !! k = Some rgb \/ table !! k = Some (rgb ++ [f1])%list
    | None => table !! k = None
    end.

(** * The rest of the module *)

(** ** _rgb *)

(** [s[start:stop]] on a string. *)
Definition str_slice (s : string) (start stop : option Z) : res string :=
  string_of_list_ascii <$> pyslice (list_ascii_of_string s) start stop None.

(** [_rgb(color)]; the [FutureWarning] it emits first is not part of the
    value and is left out. *)
Definition _rgb (color : string) : res (Z * Z * Z) :=
  rr ← str_slice color (Some (-6)) (Some (-4));
  r ← int16 rr;
  gg ← str_slice color (Some (-4)) (Some (-2));
  g ← int16 gg;
  bb ← str_slice color (Some (-2)) None;
  b ← int16 bb;
  Ok (r, g, b).

(** ** colorsys.rgb_to_hsv (Python standard library) *)

(** [max] and [min] of the builtins keep their first argument unless a later
    one compares strictly greater, or less. *)
Definition pymax (a b : float) : float := if fltb a b then b else a.
Definition pymin (a b : float) : float := if fltb b a then b else a.

Definition f2 : float := Eval cbv in of_Z 2.
Definition f4 : float := Eval cbv in of_Z 4.

(** The channels [rgba] hands over are doubles, or the integers 0 and 1 of
    its clamp; a quotient of two integers then has the divisor 1, and the
    integer division of Python 2 gives what the division of doubles gives. *)
Definition rgb_to_hsv (r g b : float) : res (float * float * float) :=
  let maxc := pymax (pymax r g) b in
  let minc := pymin (pymin r g) b in
  let v := maxc in
  if feqb minc maxc then Ok (f0, f0, v)
  else
    s ← pydiv (fsub maxc minc) maxc;
    rc ← pydiv (fsub maxc r) (fsub maxc minc);
    gc ← pydiv (fsub maxc g) (fsub maxc minc);
    bc ← pydiv (fsub maxc b) (fsub maxc minc);
    let h :=
      if feqb r maxc then fsub bc gc
      else if feqb g maxc then fsub (fadd f2 rc) bc
      else fsub (fadd f4 gc) rc in
    Ok (pymod1 (fdiv h f6), s, v).

(** ** hsla, contrast, brighten *)

Definition hsla (color : string) : res (float * float * float * float) :=
  '(r, g, b, a) ← rgba color;
  '(h, s, v) ← rgb_to_hsv r g b;
  Ok (h, s, v, a).

Definition contrast (color : string) : res string :=
  '(R, G, B, _) ← rgba color;
  let luminosity :=
    fadd (fadd (fmul (of_ratio 21 100) R) (fmul (of_ratio 71 100) G))
         (fmul (of_ratio 7 100) B) in
  Ok (if fltb (of_ratio 5 10) luminosity then "#000" else "#fff").

Definition brighten (color : string) (by_ : float) : res string :=
  '(R, G, B, _) ← rgba color;
  '(h, s, v) ← rgb_to_hsv R G B;
  let v := pymax f0 (pymin f1 (fmul v (fadd f1 by_))) in
  '(r, g, b) ← hsv_to_rgb h s v;
  name r g b f1.

(** ** The other methods of _MSO *)

(** [__getattr__], which Python calls for the attributes an instance does
    not have. *)
Definition __getattr__ (self : _MSO) (key : string) : res item :=
  match _lookup !! key with
  | Some i => Color <$> pyindex (values self) i
  | None => Ok PyNone
  end.

Definition __len__ (self : _MSO) : Z := Z.of_nat (length (values self)).

(** [sep.join(l)]. *)
Fixpoint str_join (sep : string) (l : list string) : string :=
  match l with
  | [] => EmptyString
  | [s] => s
  | s :: rest => s +:+ sep +:+ str_join sep rest
  end.

Definition __str__ (self : _MSO) : string := str_join " " (values self).

(** ** The pixel of the rainfall scripts

    Both scripts colour a cell the same way:
    [(0, 0, 0, 0)] when [cell < 0], otherwise
    [tuple(int(255 * v) for v in rgba(gradient(cell / HI, Greens)))]. *)

Definition HI : float := Eval cbv in of_ratio 57 10.

(** [tuple(int(255 * v) for v in rgba(color))]. *)
Definition color_bytes (color : string) : res (Z * Z * Z * Z) :=
  '(r, g, b, a) ← rgba color;
  R ← pyint (fmul f255 r);
  G ← pyint (fmul f255 g);
  B ← pyint (fmul f255 b);
  A ← pyint (fmul f255 a);
  Ok (R, G, B, A).

Definition pixel (cell : float) : res (Z * Z * Z * Z) :=
  if fltb cell f0 then Ok (0, 0, 0, 0)
  else
    color ← gradient_scalar (fdiv cell HI) Greens;
    color_bytes color.

(** ** Vocabulary of the further statements *)

(** The position of [a] is below that of [b]; one of the two positions is
    below the other. *)
Definition stop_before (a b : float * string) : Prop := fltb a.1 b.1 = true.
Definition stops_apart (a b : float * string) : Prop :=
  fltb a.1 b.1 || fltb b.1 a.1 = true.

(** No two stops of [ranges] have positions that compare equal or not at
    all: the positions are numbers, all different. *)
Definition distinct_positions (ranges : list (float * string)) : Prop :=
  ForallOrdPairs stops_apart ranges.

(** The other of the two colours [contrast] returns. *)
Definition opposite (s : string) : string :=
  if String.eqb s "#000" then "#fff" else "#000".

(** The grey whose three bytes are [k]. *)
Definition grey (k : Z) : string := "#" +:+ hex2 k +:+ hex2 k +:+ hex2 k.

(** [s.lower()] on a byte string: the letters [A] to [Z] are moved to [a] to
    [z]. *)
Definition to_lower (c : ascii) : ascii :=
  let n := Z.of_N (N_of_ascii c) in
  if (65 <=? n) && (n <=? 90) then ascii_of_N (Z.to_N (n + 32)) else c.

Fixpoint str_lower (s : string) : string :=
  match s with
  | EmptyString => EmptyString
  | String c t => String (to_lower c) (str_lower t)
  end.

(** [m] raises no other exception than those of [errors]. *)
Definition raises_only {A} (m : res A) (errors : list exn) : Prop :=
  forall e, m = Raise e -> In e errors.

(** The exceptions that leave [rgba]. *)
Definition rgba_errors : list exn :=
  [ ValueError InvalidColor; ValueError BadIntLiteral; ValueError BadFloatLiteral;
    ValueError NanToInt; IndexError; OverflowError ].

(** [sep not in s]. *)
Definition free_of (sep : ascii) (s : string) : bool :=
  all_chars (fun c => negb (Ascii.eqb c sep)) s.

(** [x] and [g] are nested alike: a string where [x] has a number, a list
    of as many items where [x] has a sequence. *)
Fixpoint same_shape (x : xval) (g : gval) : bool :=
  match x, g with
  | XNum _, GStr _ => true
  | XSeq xs, GSeq gs =>
      (fix each (xs : list xval) (gs : list gval) : bool :=
         match xs, gs with
         | [], [] => true
         | x :: xs', g :: gs' => same_shape x g && each xs' gs'
         | _, _ => false
         end) xs gs
  | _, _ => false
  end.

(** The exceptions that leave [gradient] when the stops have doubles for
    positions. *)
Definition gradient_errors : list exn := TypeError :: rgba_errors.

(** [f] is a zero, or finite and less than [2 ^ k] in absolute value. *)
Definition below_pow2 (k : Z) (f : float) : bool :=
  match f with
  | S754_zero _ => true
  | S754_finite _ m e => Zpos (digits2_pos m) + e <=? k
  | _ => false
  end.

(** The hundredths [n] written with two decimals, as ['%0.2f'] writes them. *)
Definition two_decimals (n : Z) : string :=
  let frac := fmt_d (n mod 100) in
  fmt_d (n / 100) +:+ "." +:+ (if (String.length frac <? 2)%nat then String "0" frac else frac).

(** [f] is finite and at least [2 ^ (k - 1)] in absolute value. *)
Definition above_pow2 (k : Z) (f : float) : bool :=
  match f with
  | S754_finite _ m e => k <=? Zpos (digits2_pos m) + e
  | _ => false
  end.

(** The value of a finite double in units of [2 ^ -1074], the smallest
    positive double: an integer. *)
Definition sval (f : float) : Z :=
  match f with
  | S754_finite s m e => cond_Zopp s (Zpos m * 2 ^ (e + 1074))
  | _ => 0
  end.

(** A stop that [gradient] can blend: the position is a finite double
    below [2 ^ 1022] in absolute value, and [rgba] reads the colour, with
    numbers for the three colour channels. *)
Definition blendable (stop : float * string) : Prop :=
  valid stop.1 = true /\ below_pow2 1022 stop.1 = true
  /\ exists r g b a, rgba stop.2 = Ok (r, g, b, a) /\ is_nan r || is_nan g || is_nan b = false.
(** * Properties *)

(** ** The module's own checks

    The assertions at the end of color.py, and the examples of its
    docstrings, evaluated on the embedding. *)

Example assert_rgba_fff : rgba "#fff" = Ok (f1, f1, f1, f1).
Proof. reflexivity. Qed.

Example assert_rgba_000000 : rgba "#000000" = Ok (f0, f0, f0, f1).
Proof. reflexivity. Qed.

Example assert_rgba_rgb : rgba "rgb(255, 0% , 100% )" = Ok (f1, f0, f1, f1).
Proof. reflexivity. Qed.

Example assert_rgba_rgba :
  rgba "rgba( 255  , 0% , 100%,.4)" = Ok (f1, f0, f1, of_ratio 4 10).
Proof. reflexivity. Qed.

Example assert_rgba_hsl : rgba "hsl(0, 100%, 50%)" = Ok (of_ratio 5 10, f0, f0, f1).
Proof. reflexivity. Qed.

Example assert_rgba_hsla_alpha :
  rgba "hsla(0, 100%, 100%, .9)" = Ok (f1, f0, f0, of_ratio 9 10).
Proof. reflexivity. Qed.

Example assert_rgba_hsla_clamped : rgba "hsla(360, 100%, 100%, 1.9)" = Ok (f1, f0, f0, f1).
Proof. reflexivity. Qed.

Example assert_rgba_hsla_gray :
  rgba "hsla(360, 0%, 50%, .5)"
  = Ok (of_ratio 5 10, of_ratio 5 10, of_ratio 5 10, of_ratio 5 10).
Proof. reflexivity. Qed.

Example assert_rgba_red : rgba "red" = Ok (f1, f0, f0, f1).
Proof. vm_compute. reflexivity. Qed.

Example assert_rgba_white : rgba "white" = Ok (f1, f1, f1, f1).
Proof. vm_compute. reflexivity. Qed.

Example assert_name_yellow : name f1 f1 f0 f1 = Ok "#ff0".
Proof. reflexivity. Qed.

Example assert_name_negative : name (of_Z (-1)) f1 f0 f1 = Ok "#0f0".
Proof. reflexivity. Qed.

Example name_translucent : name f1 f0 f0 (of_ratio 1 3) = Ok "rgba(255,0,0,0.33)".
Proof. vm_compute. reflexivity. Qed.

Example docstring_gradient :
  gradient (XNum (of_ratio 4 10)) RWG_1 = Ok (GStr "#9f9").
Proof. vm_compute. reflexivity. Qed.

Example gradient_elementwise :
  gradient (XSeq [XNum (of_Z (-2)); XSeq [XNum f0; XNum S754_nan]]) RWG_1
  = Ok (GSeq [GStr "#ff0000"; GSeq [GStr "#fff"; GStr "#fff"]]).
Proof. vm_compute. reflexivity. Qed.

(** ** Comparisons of doubles *)

Section Compare.

Lemma SFcompare_antisym (a b : float) :
  SFcompare b a = CompOpp <$> SFcompare a b.
Proof.
  destruct a as [sa|sa| |sa ma ea], b as [sb|sb| |sb mb eb]; simpl;
    try reflexivity; try (destruct sa; reflexivity); try (destruct sb; reflexivity);
    try (destruct sa, sb; reflexivity).
  destruct sa, sb; simpl; try reflexivity;
    rewrite (Z.compare_antisym ea eb);
    destruct (ea ?= eb) eqn:He; simpl; try reflexivity;
    rewrite (Pos.compare_cont_antisym ma mb Eq); reflexivity.
Qed.

Lemma fltb_fleb_flip (a b : float) : fltb a b = true -> fleb b a = false.
Proof.
  unfold fltb, fleb, SFltb, SFleb. rewrite (SFcompare_antisym a b).
  destruct (SFcompare a b) as [[]|]; simpl; congruence.
Qed.

Lemma fleb_fltb_flip (a b : float) : fleb a b = true -> fltb b a = false.
Proof.
  unfold fltb, fleb, SFltb, SFleb. rewrite (SFcompare_antisym a b).
  destruct (SFcompare a b) as [[]|]; simpl; congruence.
Qed.

Lemma fltb_fleb (a b : float) : fltb a b = true -> fleb a b = true.
Proof.
  unfold fltb, fleb, SFltb, SFleb. destruct (SFcompare a b) as [[]|]; congruence.
Qed.

Lemma fleb_total (a b : float) :
  is_nan a = false -> is_nan b = false -> fleb a b = false -> fleb b a = true.
Proof.
  unfold fleb, SFleb. rewrite (SFcompare_antisym a b).
  destruct a as [sa|sa| |sa ma ea], b as [sb|sb| |sb mb eb]; simpl; try congruence;
    try (destruct sa; simpl; congruence); try (destruct sb; simpl; congruence);
    try (destruct sa, sb; simpl; congruence).
  intros _ _.
  destruct sa, sb; simpl; try congruence;
    destruct (ea ?= eb); simpl; try congruence;
    destruct (Pos.compare_cont Eq ma mb); simpl; congruence.
Qed.

Lemma fleb_not_nan (a b : float) :
  fleb a b = true -> is_nan a = false /\ is_nan b = false.
Proof.
  unfold fleb, SFleb.
  destruct a, b; simpl; try congruence; auto.
Qed.

End Compare.

(** ** The order of the doubles *)

Section Order.

Lemma SFcompare_none (a b : float) :
  SFcompare a b = None <-> is_nan a = true \/ is_nan b = true.
Proof.
  destruct a as [sa|sa| |sa ma ea], b as [sb|sb| |sb mb eb]; simpl;
    split; intros H; try reflexivity; try discriminate H;
    try (destruct H as [H|H]; discriminate H); auto.
Qed.

Lemma fltb_false_fleb (a b : float) :
  is_nan a = false -> is_nan b = false -> fltb a b = false -> fleb b a = true.
Proof.
  intros Ha Hb. unfold fltb, fleb, SFltb, SFleb. rewrite (SFcompare_antisym a b).
  destruct (SFcompare a b) as [[]|] eqn:E; simpl; try congruence.
  apply SFcompare_none in E. destruct E; congruence.
Qed.

Lemma fltb_not_nan (a b : float) :
  fltb a b = true -> is_nan a = false /\ is_nan b = false.
Proof. intros H. apply fleb_not_nan, fltb_fleb, H. Qed.

Lemma fltb_irrefl (a : float) : fltb a a = false.
Proof.
  destruct (fltb a a) eqn:E; [|reflexivity].
  pose proof (fltb_fleb_flip _ _ E) as H1. pose proof (fltb_fleb _ _ E) as H2. congruence.
Qed.

Ltac compare_cases ma mb mc ea eb ec :=
  change (Pos.compare_cont Eq ma mb) with (ma ?= mb)%positive;
  change (Pos.compare_cont Eq mb mc) with (mb ?= mc)%positive;
  change (Pos.compare_cont Eq ma mc) with (ma ?= mc)%positive;
  destruct (Z.compare_spec ea eb); simpl; try discriminate;
  destruct (Z.compare_spec eb ec); simpl; try discriminate;
  destruct (Z.compare_spec ea ec); simpl; try reflexivity; try lia;
  destruct (Pos.compare_spec ma mb); simpl; try discriminate;
  destruct (Pos.compare_spec mb mc); simpl; try discriminate;
  destruct (Pos.compare_spec ma mc); simpl; try reflexivity; lia.

(** [<] on the doubles is transitive, also through a [<=]. *)
Lemma fltb_trans (a b c : float) :
  fltb a b = true -> fltb b c = true -> fltb a c = true.
Proof.
  unfold fltb, SFltb.
  destruct a as [sa|sa| |sa ma ea], b as [sb|sb| |sb mb eb], c as [sc|sc| |sc mc ec];
    simpl; try discriminate;
    repeat match goal with s : bool |- _ => destruct s end; simpl;
    try discriminate; try reflexivity.
  all: compare_cases ma mb mc ea eb ec.
Qed.

Lemma fltb_fleb_trans (a b c : float) :
  fltb a b = true -> fleb b c = true -> fltb a c = true.
Proof.
  unfold fltb, fleb, SFltb, SFleb.
  destruct a as [sa|sa| |sa ma ea], b as [sb|sb| |sb mb eb], c as [sc|sc| |sc mc ec];
    simpl; try discriminate;
    repeat match goal with s : bool |- _ => destruct s end; simpl;
    try discriminate; try reflexivity.
  all: compare_cases ma mb mc ea eb ec.
Qed.

Ltac compare_all ma mb mc ea eb ec :=
  change (Pos.compare_cont Eq ma mb) with (ma ?= mb)%positive;
  change (Pos.compare_cont Eq mb mc) with (mb ?= mc)%positive;
  change (Pos.compare_cont Eq ma mc) with (ma ?= mc)%positive;
  destruct (Z.compare_spec ea eb); try lia;
  destruct (Z.compare_spec eb ec); try lia;
  destruct (Z.compare_spec ea ec); try lia;
  simpl; try congruence;
  destruct (Pos.compare_spec ma mb); try lia;
  destruct (Pos.compare_spec mb mc); try lia;
  destruct (Pos.compare_spec ma mc); try lia;
  simpl; congruence.

(** Doubles that compare equal compare alike with a third. *)
Lemma feqb_fleb (x a b : float) : feqb a b = true -> fleb x a = fleb x b.
Proof.
  unfold feqb, fleb, SFeqb, SFleb.
  destruct x as [sx|sx| |sx mx ex], a as [sa|sa| |sa ma ea], b as [sb|sb| |sb mb eb];
    simpl; try discriminate; try reflexivity;
    repeat match goal with s : bool |- _ => destruct s end; simpl;
    try discriminate; try reflexivity.
  all: compare_all mx ma mb ex ea eb.
Qed.

Lemma fleb_trans (a b c : float) :
  fleb a b = true -> fleb b c = true -> fleb a c = true.
Proof.
  unfold fleb, SFleb.
  destruct a as [sa|sa| |sa ma ea], b as [sb|sb| |sb mb eb], c as [sc|sc| |sc mc ec];
    simpl; try discriminate;
    repeat match goal with s : bool |- _ => destruct s end; simpl;
    try discriminate; try reflexivity.
  all: compare_cases ma mb mc ea eb ec.
Qed.

(** Two doubles equal to a third are not one below the other. *)
Lemma feqb_not_fltb (a b p : float) :
  feqb a p = true -> feqb b p = true -> fltb a b = false.
Proof.
  unfold feqb, fltb, SFeqb, SFltb.
  destruct a as [sa|sa| |sa ma ea], b as [sb|sb| |sb mb eb], p as [sc|sc| |sc mc ec];
    simpl; try discriminate; try reflexivity;
    repeat match goal with s : bool |- _ => destruct s end; simpl;
    try discriminate; try reflexivity.
  all: change (Pos.compare_cont Eq ma mb) with (ma ?= mb)%positive;
    change (Pos.compare_cont Eq mb mc) with (mb ?= mc)%positive;
    change (Pos.compare_cont Eq ma mc) with (ma ?= mc)%positive;
    destruct (Z.compare_spec ea ec); simpl; try discriminate;
    destruct (Z.compare_spec eb ec); simpl; try discriminate;
    destruct (Z.compare_spec ea eb); simpl; try reflexivity; try lia;
    destruct (Pos.compare_spec ma mc); simpl; try discriminate;
    destruct (Pos.compare_spec mb mc); simpl; try discriminate;
    destruct (Pos.compare_spec ma mb); simpl; try reflexivity; lia.
Qed.

End Order.

(** ** distinct *)

Section Distinct.

Lemma distinct_above_20 (n : Z) : 20 < n -> distinct n = Ok _distincts.
Proof.
  intros Hn. unfold distinct.
  destruct (Z.leb_spec n 10); [lia|].
  destruct (Z.leb_spec n 20); [lia|].
  reflexivity.
Qed.

Lemma small_cases (n : Z) :
  0 <= n <= 20 ->
  In n (range0 21).
Proof.
  intros Hn. unfold range0. apply in_map_iff.
  exists (Z.to_nat n). split; [lia|]. apply in_seq. lia.
Qed.

(** C7: for a non-negative [n], [distinct n] returns [min n 20] colours: the
    entries 0, 2, ..., 2(n-1) of the table when [n <= 10], its first [n]
    entries when [10 < n <= 20], and the whole table when [n > 20]. *)
Theorem distinct_palette (n : Z) :
  0 <= n ->
  exists cs : list string,
    distinct n = Ok cs
    /\ Z.of_nat (length cs) = Z.min n 20
    /\ (n <= 10 -> forall i : nat, Z.of_nat i < n -> cs !! i = _distincts !! (2 * i)%nat)
    /\ (10 < n <= 20 -> cs = take (Z.to_nat n) _distincts)
    /\ (20 < n -> cs = _distincts).
Proof.
  intros Hn. destruct (Z_le_gt_dec n 20) as [Hle|Hgt].
  - pose proof (small_cases n (conj Hn Hle)) as Hin.
    vm_compute in Hin.
    repeat (destruct Hin as [<-|Hin];
      [ eexists; split; [vm_compute; reflexivity|];
        split; [reflexivity|];
        split; [intros Hs i Hi; try lia;
                do 11 (destruct i as [|i]; [try reflexivity; lia|]); lia|];
        split; [intros Hs; try lia; reflexivity|];
        intros Hs; lia
      | ]).
    destruct Hin.
  - exists _distincts. rewrite distinct_above_20 by lia.
    split; [reflexivity|]. split; [simpl; lia|].
    split; [lia|]. split; [lia|]. reflexivity.
Qed.

Lemma distinct_palette_witness :
  exists cs : list string,
    distinct 3 = Ok cs
    /\ Z.of_nat (length cs) = Z.min 3 20
    /\ (3 <= 10 -> forall i : nat, Z.of_nat i < 3 -> cs !! i = _distincts !! (2 * i)%nat)
    /\ (10 < 3 <= 20 -> cs = take (Z.to_nat 3) _distincts)
    /\ (20 < 3 -> cs = _distincts).
Proof. apply (distinct_palette 3). lia. Defined.

Example distinct_3 : distinct 3 = Ok ["#1f77b4"; "#ff7f0e"; "#2ca02c"].
Proof. reflexivity. Qed.

Example distinct_12 :
  distinct 12 = Ok [ "#1f77b4"; "#aec7e8"; "#ff7f0e"; "#ffbb78"; "#2ca02c"; "#98df8a";
                     "#d62728"; "#ff9896"; "#9467bd"; "#c5b0d5"; "#8c564b"; "#c49c94" ].
Proof. reflexivity. Qed.

(** A negative count gives the empty list: [range(0, n)] is empty. *)
Example distinct_negative : distinct (-3) = Ok [].
Proof. reflexivity. Qed.

End Distinct.

(** ** Indexing and slicing *)

Section Sequences.

Context {A : Type}.
Implicit Types (l : list A) (i : nat).

Lemma pyindex_lookup l i a : l !! i = Some a -> pyindex l (Z.of_nat i) = Ok a.
Proof.
  intros H. pose proof (lookup_lt_Some _ _ _ H) as Hlt. unfold pyindex.
  destruct (Z.ltb_spec (Z.of_nat i) 0); [lia|].
  destruct (Z.ltb_spec (Z.of_nat i) 0); [lia|].
  destruct (Z.leb_spec (Z.of_nat (length l)) (Z.of_nat i)); [lia|].
  simpl. rewrite Nat2Z.id, H. reflexivity.
Qed.

Lemma pyindex_lookup_neg l i a :
  l !! i = Some a -> pyindex l (Z.of_nat i - Z.of_nat (length l)) = Ok a.
Proof.
  intros H. pose proof (lookup_lt_Some _ _ _ H) as Hlt. unfold pyindex.
  destruct (Z.ltb_spec (Z.of_nat i - Z.of_nat (length l)) 0); [|lia].
  replace (Z.of_nat i - Z.of_nat (length l) + Z.of_nat (length l)) with (Z.of_nat i) by lia.
  destruct (Z.ltb_spec (Z.of_nat i) 0); [lia|].
  destruct (Z.leb_spec (Z.of_nat (length l)) (Z.of_nat i)); [lia|].
  simpl. rewrite Nat2Z.id, H. reflexivity.
Qed.

Lemma pyindex_out_of_range l (z : Z) :
  z < - Z.of_nat (length l) \/ Z.of_nat (length l) <= z ->
  pyindex l z = Raise IndexError.
Proof.
  intros H. unfold pyindex.
  destruct (Z.ltb_spec z 0).
  - destruct (Z.ltb_spec (z + Z.of_nat (length l)) 0); [reflexivity|lia].
  - destruct (Z.ltb_spec z 0); [lia|].
    destruct (Z.leb_spec (Z.of_nat (length l)) z); [reflexivity|lia].
Qed.

Lemma pyindex_first l a : head l = Some a -> pyindex l 0 = Ok a.
Proof. destruct l; simpl; [discriminate|]. intros [= ->]. reflexivity. Qed.

Lemma pyindex_last l a : last l = Some a -> pyindex l (-1) = Ok a.
Proof.
  intros H. rewrite last_lookup in H.
  destruct l as [|b l']; [discriminate|].
  replace (-1) with (Z.of_nat (length l') - Z.of_nat (length (b :: l')))
    by (simpl length; lia).
  apply pyindex_lookup_neg. exact H.
Qed.

Lemma omap_lookup_seq l (f : nat -> nat) (k : nat) :
  (forall i, (i < k)%nat -> f i = i) -> (k <= length l)%nat ->
  omap (fun i => l !! f i) (seq 0 k) = take k l.
Proof.
  induction k as [|k IH]; intros Hf Hk; [reflexivity|].
  rewrite seq_S, omap_app, IH by (auto with lia). simpl.
  rewrite (Hf k) by lia.
  destruct (lookup_lt_is_Some_2 l k ltac:(lia)) as [x Hx].
  rewrite Hx. simpl. symmetry. apply take_S_r. exact Hx.
Qed.

Lemma pyslice_prefix l (n : Z) :
  0 <= n -> pyslice l None (Some n) None = Ok (take (Z.to_nat n) l).
Proof.
  intros Hn. unfold pyslice, slice_bound. simpl.
  destruct (Z.ltb_spec n 0); [lia|].
  destruct (Z.ltb_spec n 0); [lia|].
  destruct (Z.leb_spec (Z.of_nat (length l)) n) as [Hge|Hlt].
  - rewrite (take_ge l (Z.to_nat n)) by lia.
    destruct (Z.leb_spec (Z.of_nat (length l)) 0).
    + destruct l; [reflexivity|simpl in *; lia].
    + f_equal. rewrite Z.quot_1_r.
      rewrite <- (take_ge l (length l)) at 2 by lia.
      replace (Z.to_nat (Z.of_nat (length l) - 0 - 1 + 1)) with (length l) by lia.
      apply omap_lookup_seq; [|lia]. intros i Hi. lia.
  - destruct (Z.leb_spec n 0).
    + assert (n = 0) as -> by lia. reflexivity.
    + f_equal. rewrite Z.quot_1_r.
      replace (Z.to_nat (n - 0 - 1 + 1)) with (Z.to_nat n) by lia.
      apply omap_lookup_seq; [|lia]. intros i Hi. lia.
Qed.

Lemma omap_seq_take l (g : nat -> option A) (k : nat) :
  (forall i, (i < k)%nat -> g i = l !! i) -> (k <= length l)%nat ->
  omap g (seq 0 k) = take k l.
Proof.
  induction k as [|k IH]; intros Hg Hk; [reflexivity|].
  rewrite seq_S, omap_app, IH by (auto with lia). simpl.
  rewrite (Hg k) by lia.
  destruct (lookup_lt_is_Some_2 l k ltac:(lia)) as [x Hx].
  rewrite Hx. simpl. symmetry. apply take_S_r. exact Hx.
Qed.

Lemma pyslice_range l (a b : Z) :
  0 <= a -> 0 <= b ->
  pyslice l (Some a) (Some b) None = Ok (take (Z.to_nat (b - a)) (drop (Z.to_nat a) l)).
Proof.
  intros Ha Hb. unfold pyslice, slice_bound. simpl.
  destruct (Z.ltb_spec a 0); [lia|]. destruct (Z.ltb_spec a 0); [lia|].
  destruct (Z.ltb_spec b 0); [lia|]. destruct (Z.ltb_spec b 0); [lia|].
  set (n := Z.of_nat (length l)).
  assert (Hn : n = Z.of_nat (length l)) by reflexivity. clearbody n.
  f_equal.
  destruct (Z.leb_spec n a) as [Hna|Hna].
  - rewrite (drop_ge l) by lia. rewrite take_nil.
    destruct (Z.leb_spec n b).
    + destruct (Z.leb_spec n n); [reflexivity|lia].
    + destruct (Z.leb_spec b n); [reflexivity|lia].
  - set (hi := if n <=? b then n else b).
    assert (Hhi : hi = Z.min n b) by (unfold hi; destruct (Z.leb_spec n b); lia).
    clearbody hi.
    destruct (Z.leb_spec hi a) as [Hle|Hlt].
    + replace (Z.to_nat (b - a)) with 0%nat by lia. reflexivity.
    + rewrite Z.quot_1_r.
      assert (Hd : length (drop (Z.to_nat a) l) = Z.to_nat (n - a)) by (rewrite length_drop; lia).
      assert (Ht : take (Z.to_nat (b - a)) (drop (Z.to_nat a) l)
                   = take (Z.to_nat (hi - a)) (drop (Z.to_nat a) l)).
      { destruct (Z.le_gt_cases n b).
        - rewrite !take_ge by lia. reflexivity.
        - f_equal. lia. }
      rewrite Ht. replace (Z.to_nat (hi - a - 1 + 1)) with (Z.to_nat (hi - a)) by lia.
      apply omap_seq_take; [|lia].
      intros i Hi. rewrite lookup_drop. f_equal. lia.
Qed.

Lemma pyslice_reversed l : pyslice l None None (Some (-1)) = Ok (reverse l).
Proof.
  unfold pyslice, slice_bound. simpl.
  set (n := Z.of_nat (length l)).
  assert (Hn : n = Z.of_nat (length l)) by reflexivity. clearbody n.
  f_equal.
  destruct (Z.leb_spec (n - 1) (-1)) as [H0|H1].
  - destruct l; [reflexivity|simpl in Hn; lia].
  - cbn [orb andb].
    replace (Z.to_nat ((-1 - (n - 1) + 1) ÷ -1 + 1)) with (length l).
    2:{ replace (-1 - (n - 1) + 1) with (- (n - 1)) by lia.
        change (-1) with (- (1)). rewrite Z.quot_opp_opp by lia. rewrite Z.quot_1_r. lia. }
    rewrite <- (take_ge (reverse l) (length l)) by (rewrite length_reverse; lia).
    apply omap_seq_take; [|rewrite length_reverse; lia].
    intros i Hi. rewrite reverse_lookup by lia. f_equal. lia.
Qed.
Lemma pyslice_ok l (start stop step : option Z) :
  step <> Some 0 ->
  exists xs, pyslice l start stop step = Ok xs /\ Forall (fun x => x ∈ l) xs.
Proof.
  intros Hstep. unfold pyslice.
  destruct (Z.eqb_spec (default 1 step) 0) as [H0|H0].
  - destruct step as [z|]; simpl in H0; [congruence|lia].
  - eexists. split; [reflexivity|].
    apply Forall_forall. intros x Hx.
    apply list_elem_of_omap in Hx as (i & _ & Hi).
    eapply list_elem_of_lookup_2. exact Hi.
Qed.

Lemma pyslice_zero_step l (start stop : option Z) :
  pyslice l start stop (Some 0) = Raise (ValueError ZeroSliceStep).
Proof. reflexivity. Qed.

End Sequences.

(** ** Theme palettes *)

Section Themes.

Example office_slot : __getitem__ Office (KStr "dark_2") = Ok (Color "#1f497d").
Proof. vm_compute. reflexivity. Qed.

Example office_last : __getitem__ Office (KInt (-1)) = Ok (Color "#000000").
Proof. reflexivity. Qed.

Example office_slice : __getitem__ Office (KSlice None (Some 1) None) = Ok (Colors ["#4f81bd"]).
Proof. reflexivity. Qed.

Example adjacency_extra : __getitem__ Adjacency (KInt 11) = Ok (Color "#849A0A").
Proof. reflexivity. Qed.

Example office_long : __getitem__ Office (integer_key (2 ^ 63 - 1) (2 ^ 63)) = Ok PyNone.
Proof. reflexivity. Qed.

Lemma integer_key_int (maxint z : Z) :
  - maxint - 1 <= z <= maxint -> integer_key maxint z = KInt z.
Proof.
  intros H. unfold integer_key.
  destruct (Z.leb_spec (- maxint - 1) z); [|lia].
  destruct (Z.leb_spec z maxint); [reflexivity|lia].
Qed.

Lemma integer_key_long (maxint z : Z) :
  z < - maxint - 1 \/ maxint < z -> integer_key maxint z = KLong z.
Proof.
  intros H. unfold integer_key.
  destruct (Z.leb_spec (- maxint - 1) z); [|reflexivity].
  destruct (Z.leb_spec z maxint); [lia|reflexivity].
Qed.

(** C8, as stated, fails on integer keys.  An [int] out of range is handed
    to the tuple, which raises [IndexError]: the lookup does not answer
    [None].  A [long] is not handed to the tuple at all: [Office[5L]] is
    [None], not the colour that [Office[5]] is. *)
Lemma getitem_integer_keys :
  __getitem__ Office (KInt 10) = Raise IndexError
  /\ __getitem__ Office (KInt 10) <> Ok PyNone
  /\ __getitem__ Office (KInt 5) = Ok (Color "#f79646")
  /\ __getitem__ Office (KLong 5) = Ok PyNone
  /\ __getitem__ Office (KLong 5) <> Ok (Color "#f79646").
Proof. repeat split; try reflexivity; discriminate. Qed.

(** C8, amended.  [maxint] is [sys.maxint], at least [2 ^ 31 - 1], and the
    theme has no more colours than that.  A string that is no slot name
    yields [None]; the ten slot names stand for the indices 0..9; an index in
    range (counted from either end) returns the stored colour; an integer out
    of range raises [IndexError] when it is an [int] and yields [None] when it
    is beyond [sys.maxint]; a [long] yields [None] whatever its value; the
    slices [[a:b]], [[:n]] and [[::-1]] return the colours from [a] up to [b],
    the first [n] colours and all colours backwards, and every other slice
    returns colours of the theme. *)
Theorem getitem_lookup (self : _MSO) (maxint : Z) (s : string) (i : nat) (c : string)
    (z n a b : Z) (start stop step : option Z) :
  2 ^ 31 - 1 <= maxint ->
  Z.of_nat (length (values self)) <= maxint ->
  (_lookup !! s = None -> __getitem__ self (KStr s) = Ok PyNone)
  /\ (forall k : nat, (k < 10)%nat ->
        exists nm, slot_names !! k = Some nm
                   /\ integer_key maxint (Z.of_nat k) = KInt (Z.of_nat k)
                   /\ __getitem__ self (KStr nm) = __getitem__ self (KInt (Z.of_nat k)))
  /\ (values self !! i = Some c ->
        __getitem__ self (integer_key maxint (Z.of_nat i)) = Ok (Color c)
        /\ __getitem__ self
             (integer_key maxint (Z.of_nat i - Z.of_nat (length (values self))))
           = Ok (Color c))
  /\ (z < - Z.of_nat (length (values self)) \/ Z.of_nat (length (values self)) <= z ->
        (- maxint - 1 <= z <= maxint ->
           __getitem__ self (integer_key maxint z) = Raise IndexError)
        /\ (z < - maxint - 1 \/ maxint < z ->
             __getitem__ self (integer_key maxint z) = Ok PyNone))
  /\ __getitem__ self (KLong z) = Ok PyNone
  /\ (0 <= a -> 0 <= b ->
        __getitem__ self (KSlice (Some a) (Some b) None)
        = Ok (Colors (take (Z.to_nat (b - a)) (drop (Z.to_nat a) (values self)))))
  /\ (0 <= n ->
        __getitem__ self (KSlice None (Some n) None)
        = Ok (Colors (take (Z.to_nat n) (values self))))
  /\ __getitem__ self (KSlice None None (Some (-1))) = Ok (Colors (reverse (values self)))
  /\ (step <> Some 0 ->
        exists cs, __getitem__ self (KSlice start stop step) = Ok (Colors cs)
                   /\ Forall (fun x => x ∈ values self) cs).
Proof.
  intros Hmax Hlen.
  assert (H31 : 2 ^ 31 - 1 = 2147483647) by reflexivity.
  split; [|split; [|split; [|split; [|split; [|split; [|split; [|split]]]]]]].
  - intros H. unfold __getitem__. rewrite H. reflexivity.
  - intros k Hk.
    assert (Hint : integer_key maxint (Z.of_nat k) = KInt (Z.of_nat k))
      by (apply integer_key_int; lia).
    do 10 (destruct k as [|k];
           [eexists; split; [reflexivity|]; split; [exact Hint|reflexivity]|]).
    lia.
  - intros H. pose proof (lookup_lt_Some _ _ _ H) as Hlt.
    rewrite !integer_key_int by lia. unfold __getitem__.
    rewrite (pyindex_lookup _ _ _ H), (pyindex_lookup_neg _ _ _ H). split; reflexivity.
  - intros H. split; intros Hz.
    + rewrite integer_key_int by exact Hz. unfold __getitem__.
      rewrite (pyindex_out_of_range _ _ H). reflexivity.
    + rewrite integer_key_long by exact Hz. reflexivity.
  - reflexivity.
  - intros Ha Hb. unfold __getitem__. rewrite (pyslice_range _ _ _ Ha Hb). reflexivity.
  - intros H. unfold __getitem__. rewrite (pyslice_prefix _ _ H). reflexivity.
  - unfold __getitem__. rewrite pyslice_reversed. reflexivity.
  - intros H. destruct (pyslice_ok (values self) start stop step H) as (xs & Hx & Hin).
    exists xs. unfold __getitem__. rewrite Hx. split; [reflexivity|exact Hin].
Qed.

Lemma getitem_lookup_witness :
  __getitem__ Office (KStr "accent_7") = Ok PyNone
  /\ __getitem__ Office (integer_key (2 ^ 63 - 1) 2) = Ok (Color "#9bbb59")
  /\ __getitem__ Office (integer_key (2 ^ 63 - 1) 12) = Raise IndexError
  /\ __getitem__ Office (integer_key (2 ^ 63 - 1) (2 ^ 63)) = Ok PyNone
  /\ __getitem__ Office (KSlice (Some 1) (Some 3) None) = Ok (Colors ["#c0504d"; "#9bbb59"]).
Proof.
  destruct (getitem_lookup Office (2 ^ 63 - 1) "accent_7" 2 "#9bbb59" 12 2 1 3
              None None None ltac:(vm_compute; discriminate) ltac:(vm_compute; discriminate))
    as (Hname & _ & Hidx & Hout & _ & Hrange & _).
  destruct (getitem_lookup Office (2 ^ 63 - 1) "accent_7" 2 "#9bbb59" (2 ^ 63) 2 1 3
              None None None ltac:(vm_compute; discriminate) ltac:(vm_compute; discriminate))
    as (_ & _ & _ & Hlong & _).
  split; [apply Hname; reflexivity|].
  split; [apply Hidx; reflexivity|].
  split; [apply Hout; [right; simpl; lia|lia]|].
  split; [apply Hlong; [right; simpl; lia|right; lia]|].
  apply (Hrange ltac:(lia) ltac:(lia)).
Defined.

End Themes.

(** ** The token scan *)

Section Tokens.

Lemma findall_tokens_head (c : ascii) (t : string) :
  is_token_char c = true ->
  exists tok toks, findall_tokens (String c t) = String c tok :: toks.
Proof.
  intros Hc. simpl. rewrite Hc.
  destruct t as [|c' t']; [eauto|].
  destruct (is_token_char c'); [|eauto].
  destruct (findall_tokens (String c' t')); eauto.
Qed.

Lemma findall_tokens_step (c : ascii) (t : string) :
  findall_tokens (String c t)
  = if is_token_char c then
      match t with
      | String c' _ =>
          if is_token_char c' then
            match findall_tokens t with
            | tok :: toks => String c tok :: toks
            | [] => [String c EmptyString]
            end
          else String c EmptyString :: findall_tokens t
      | EmptyString => [String c EmptyString]
      end
    else findall_tokens t.
Proof. reflexivity. Qed.

(** A character outside the class ends the token before it and starts none:
    the scan of the whole is the scan of the two sides. *)
Lemma findall_tokens_separator (c : ascii) (s1 s2 : string) :
  is_token_char c = false ->
  findall_tokens (s1 +:+ String c s2) = (findall_tokens s1 ++ findall_tokens s2)%list.
Proof.
  intros Hc. induction s1 as [|a t IH].
  - change (EmptyString +:+ String c s2) with (String c s2).
    rewrite findall_tokens_step, Hc. reflexivity.
  - change (String a t +:+ String c s2) with (String a (t +:+ String c s2)).
    rewrite (findall_tokens_step a (t +:+ String c s2)), (findall_tokens_step a t).
    destruct (is_token_char a) eqn:Ha; [|exact IH].
    destruct t as [|a' t'].
    + change (EmptyString +:+ String c s2) with (String c s2) in *.
      cbv iota. rewrite Hc, IH. reflexivity.
    + change (String a' t' +:+ String c s2) with (String a' (t' +:+ String c s2)) in *.
      cbv iota. destruct (is_token_char a') eqn:Ha'.
      * rewrite IH.
        destruct (findall_tokens_head a' t' Ha') as (tok & toks & ->). reflexivity.
      * rewrite IH. reflexivity.
Qed.



End Tokens.

(** ** Errors of rgba *)

Section RgbaErrors.

Example rgba_unknown_name : rgba "crimson" = Raise (ValueError InvalidColor).
Proof. vm_compute. reflexivity. Qed.

Example rgba_no_grammar : rgba "hsv(0, 0, 0)" = Raise (ValueError InvalidColor).
Proof. vm_compute. reflexivity. Qed.

Example rgba_hash_length : rgba "#ffff" = Raise (ValueError InvalidColor).
Proof. reflexivity. Qed.

Example rgba_rgb_five : rgba "rgb(1, 2, 3, 4, 5)" = Raise (ValueError InvalidColor).
Proof. reflexivity. Qed.

(** Hexadecimal digits and decimal literals that do not convert raise the
    [ValueError] of [int] and of [float], before the count is looked at. *)
Example rgba_bad_hex : rgba "#ggg" = Raise (ValueError BadIntLiteral).
Proof. reflexivity. Qed.

Example rgba_bad_decimal : rgba "rgb(1.2.3, 0, 0)" = Raise (ValueError BadFloatLiteral).
Proof. reflexivity. Qed.

Lemma functional_prefix (c : ascii) (p color : string) :
  startswith (String c p) color = true -> exists rest, color = String c rest.
Proof.
  destruct color as [|c0 rest]; [discriminate|].
  unfold startswith. cbn [String.prefix].
  destruct (ascii_dec c c0) as [<-|_]; [eauto|discriminate].
Qed.

(** The [rgb(...)] path reaches the count check whatever the number of
    tokens: a wrong count raises the [ValueError] of [rgba]. *)
Lemma rgba_rgb_count (color args : string) (xs : list float) :
  startswith "rgb(" color || startswith "rgba(" color = true ->
  pyindex (split_on "(" color) 1 = Ok args ->
  convert_tokens rgb_component 0 (findall_tokens args) = Ok xs ->
  length xs <> 3%nat -> length xs <> 4%nat ->
  rgba color = Raise (ValueError InvalidColor).
Proof.
  intros Hp Hargs Hxs H3 H4.
  assert (exists rest, color = String "r" rest) as [rest ->].
  { apply orb_true_iff in Hp as [Hp|Hp]; exact (functional_prefix _ _ _ Hp). }
  unfold rgba.
  change (startswith "#" (String "r" rest)) with false.
  cbv iota. rewrite Hp, Hargs. cbn [mbind res_bind]. rewrite Hxs. cbn [mbind res_bind].
  destruct xs as [|x0 [|x1 [|x2 [|x3 [|x4 xs]]]]]; simpl in H3, H4 |- *;
    try reflexivity; congruence.
Qed.

(** The [hsl(...)] path indexes the first three components before the count
    check: fewer than three raise [IndexError]. *)
Lemma rgba_hsl_count (color args : string) (xs : list float) :
  startswith "hsl(" color || startswith "hsla(" color = true ->
  pyindex (split_on "(" color) 1 = Ok args ->
  convert_tokens hsl_component 0 (findall_tokens args) = Ok xs ->
  (length xs < 3)%nat ->
  rgba color = Raise IndexError.
Proof.
  intros Hp Hargs Hxs Hlen.
  assert (exists rest, color = String "h" rest) as [rest ->].
  { apply orb_true_iff in Hp as [Hp|Hp]; exact (functional_prefix _ _ _ Hp). }
  unfold rgba.
  change (startswith "#" (String "h" rest)) with false.
  change (startswith "rgb(" (String "h" rest)) with false.
  change (startswith "rgba(" (String "h" rest)) with false.
  cbn [orb]. cbv iota. rewrite Hp, Hargs. cbn [mbind res_bind]. rewrite Hxs.
  destruct xs as [|x0 [|x1 [|x2 xs]]]; simpl in Hlen; try reflexivity; lia.
Qed.

(** C3: on an [hsl(...)] literal with fewer than three tokens [rgba] does not
    raise its [ValueError]: the tuple assignment that calls [hsv_to_rgb]
    indexes the list before the count is checked, and raises [IndexError].
    The [rgb(...)] path given the same tokens raises the [ValueError]. *)
Theorem rgba_hsl_short_raises_IndexError :
  rgba "hsl(0)" = Raise IndexError
  /\ rgba "hsla(120, 50%)" = Raise IndexError
  /\ rgba "hsl()" = Raise IndexError
  /\ rgba "rgb(0)" = Raise (ValueError InvalidColor)
  /\ rgba "rgba(120, 50%)" = Raise (ValueError InvalidColor).
Proof. repeat split; reflexivity. Qed.

End RgbaErrors.

(** ** sorted *)

Section Sorting.

Implicit Types (acc l run rest : list (float * string)) (y e : float * string).

#[local] Instance le_pos_trans : Transitive (fun a b : float * string => fleb a.1 b.1 = true).
Proof. intros a b c. apply fleb_trans. Qed.

#[local] Instance gt_pos_trans : Transitive (fun a b : float * string => fltb b.1 a.1 = true).
Proof. intros a b c H1 H2. exact (fltb_trans _ _ _ H2 H1). Qed.

(** *** The result holds the same stops, whatever the positions *)

Lemma binary_insert_perm acc y : binary_insert acc y ≡ₚ y :: acc.
Proof.
  unfold binary_insert. rewrite <- Permutation_middle, take_drop. reflexivity.
Qed.

Lemma foldl_binary_insert_perm rest acc : foldl binary_insert acc rest ≡ₚ (acc ++ rest)%list.
Proof.
  revert acc. induction rest as [|y rest IH]; intros acc; cbn [foldl].
  - rewrite app_nil_r. reflexivity.
  - rewrite IH, binary_insert_perm. apply Permutation_middle.
Qed.

Lemma sorted_perm (ranges : list (float * string)) : sorted ranges ≡ₚ ranges.
Proof.
  unfold sorted. destruct (count_run ranges) as [n descending].
  rewrite foldl_binary_insert_perm.
  destruct descending; rewrite ?reverse_Permutation, take_drop; reflexivity.
Qed.

(** *** The place [bisect] finds *)

Lemma ascending_lookup acc (i j : nat) e e' :
  ascending acc -> (i < j)%nat -> acc !! i = Some e -> acc !! j = Some e' ->
  fleb e.1 e'.1 = true.
Proof.
  intros Ha. revert i j. induction Ha as [|x acc Ha IH Hx]; intros i j Hij Hi Hj.
  - discriminate.
  - destruct j as [|j]; [lia|]. cbn in Hj. destruct i as [|i]; cbn in Hi.
    + injection Hi as <-. rewrite Forall_lookup in Hx. exact (Hx j e' Hj).
    + apply (IH i j); [lia|assumption..].
Qed.

Lemma bisect_spec (pivot : float) acc :
  ascending acc -> positions_are_numbers acc -> is_nan pivot = false ->
  forall (fuel l r : nat),
    (l < r <= length acc)%nat -> (r - l <= fuel)%nat ->
    (forall i e, (i < l)%nat -> acc !! i = Some e -> fltb pivot e.1 = false) ->
    (forall i e, (r <= i)%nat -> acc !! i = Some e -> fltb pivot e.1 = true) ->
    (forall i e, (i < bisect fuel pivot acc l r)%nat -> acc !! i = Some e ->
                 fltb pivot e.1 = false)
    /\ (forall i e, (bisect fuel pivot acc l r <= i)%nat -> acc !! i = Some e ->
                    fltb pivot e.1 = true).
Proof.
  intros Hasc Hnum Hpivot. induction fuel as [|fuel IH]; intros l r Hlr Hfuel Hbelow Habove.
  { lia. }
  cbn [bisect].
  assert (Hhalf : ((r - l) / 2 < r - l)%nat) by (apply Nat.div_lt; lia).
  set (p := (l + (r - l) / 2)%nat) in *.
  assert (Hp : (l <= p < r)%nat) by (unfold p; lia).
  destruct (lookup_lt_is_Some_2 acc p ltac:(lia)) as [e He]. rewrite He.
  assert (Hne : is_nan e.1 = false).
  { unfold positions_are_numbers in Hnum. rewrite Forall_lookup in Hnum. exact (Hnum p e He). }
  destruct (fltb pivot e.1) eqn:Hcmp.
  - assert (Habove' : forall i e', (p <= i)%nat -> acc !! i = Some e' -> fltb pivot e'.1 = true).
    { intros i e' Hi Hi'. destruct (decide (i = p)) as [Heq|Hneq]; [subst i|].
      + rewrite He in Hi'. injection Hi' as <-. exact Hcmp.
      + apply (fltb_fleb_trans _ _ _ Hcmp).
        apply (ascending_lookup acc p i e e' Hasc); [lia|assumption..]. }
    destruct (Nat.ltb_spec l p) as [Hlt|Hge].
    + apply IH; [lia|lia|exact Hbelow|exact Habove'].
    + split; [exact Hbelow|]. intros i e' Hi. apply Habove'. lia.
  - assert (Hle : fleb e.1 pivot = true) by (apply fltb_false_fleb; assumption).
    assert (Hbelow' : forall i e', (i < S p)%nat -> acc !! i = Some e' -> fltb pivot e'.1 = false).
    { intros i e' Hi Hi'. apply fleb_fltb_flip. destruct (decide (i = p)) as [Heq|Hneq]; [subst i|].
      + rewrite He in Hi'. injection Hi' as <-. exact Hle.
      + apply (fleb_trans _ e.1); [|exact Hle].
        apply (ascending_lookup acc i p e' e Hasc); [lia|assumption..]. }
    destruct (Nat.ltb_spec (S p) r) as [Hlt|Hge].
    + apply IH; [lia|lia|exact Hbelow'|exact Habove].
    + split; [exact Hbelow'|]. intros i e' Hi. apply Habove. lia.
Qed.

(** Where [binary_insert] puts the pivot: after every stop that it is not
    below, before every stop that it is below. *)
Lemma binary_insert_place acc y :
  ascending acc -> positions_are_numbers acc -> is_nan y.1 = false ->
  exists k : nat,
    binary_insert acc y = (take k acc ++ y :: drop k acc)%list
    /\ Forall (fun e => fltb y.1 e.1 = false) (take k acc)
    /\ Forall (fun e => fltb y.1 e.1 = true) (drop k acc).
Proof.
  intros Hasc Hnum Hy. unfold binary_insert.
  set (k := bisect (length acc) y.1 acc 0 (length acc)).
  exists k. split; [reflexivity|].
  destruct (decide (acc = [])) as [->|Hne].
  { subst k. cbn. split; constructor. }
  assert (Hlen : (0 < length acc)%nat) by (destruct acc; [congruence|cbn; lia]).
  destruct (bisect_spec y.1 acc Hasc Hnum Hy (length acc) 0 (length acc)) as [Hb Ha];
    [lia|lia| | |].
  - intros i e Hi. lia.
  - intros i e Hi He. apply lookup_lt_Some in He. lia.
  - fold k in Hb, Ha. split; apply Forall_lookup; intros i e He.
    + apply lookup_take_Some in He as [He Hi]. exact (Hb i e Hi He).
    + rewrite lookup_drop in He. apply (Ha (k + i)%nat e); [lia|exact He].
Qed.

Lemma binary_insert_ascending acc y :
  ascending acc -> positions_are_numbers acc -> is_nan y.1 = false ->
  ascending (binary_insert acc y).
Proof.
  intros Hasc Hnum Hy.
  destruct (binary_insert_place acc y Hasc Hnum Hy) as (k & -> & Hb & Ha).
  unfold ascending in *. rewrite <- (take_drop k acc) in Hasc, Hnum.
  apply StronglySorted_app in Hasc as (Hcross & Hl & Hr).
  apply Forall_app in Hnum as [Hnl Hnr].
  apply StronglySorted_app. split; [|split; [exact Hl|]].
  - intros x1 x2 H1 H2. apply elem_of_cons in H2 as [->|H2].
    + rewrite Forall_forall in Hb, Hnl.
      apply fltb_false_fleb; [exact Hy|exact (Hnl _ H1)|exact (Hb _ H1)].
    + exact (Hcross _ _ H1 H2).
  - constructor; [exact Hr|].
    eapply Forall_impl; [exact Ha|]. intros e He. apply fltb_fleb, He.
Qed.

Lemma filter_none (P : float * string -> Prop) `{!forall e, Decision (P e)} l :
  Forall (fun e => ~ P e) l -> filter P l = [].
Proof.
  induction 1 as [|e l He _ IH]; [reflexivity|].
  rewrite filter_cons_False by exact He. exact IH.
Qed.

Lemma binary_insert_keeps_ties acc y (p : float) :
  ascending acc -> positions_are_numbers acc -> is_nan y.1 = false ->
  filter (fun e => feqb e.1 p = true) (binary_insert acc y)
  = filter (fun e => feqb e.1 p = true) (acc ++ [y])%list.
Proof.
  intros Hasc Hnum Hy.
  destruct (binary_insert_place acc y Hasc Hnum Hy) as (k & -> & Hb & Ha).
  rewrite <- (take_drop k acc) at 3.
  rewrite !filter_app, !filter_cons, filter_nil. rewrite <- app_assoc. f_equal.
  destruct (decide (feqb y.1 p = true)) as [Hyp|Hyp]; [|rewrite app_nil_r; reflexivity].
  rewrite (filter_none _ (drop k acc)); [reflexivity|].
  eapply Forall_impl; [exact Ha|]. intros e He Hep. cbn beta in *.
  rewrite (feqb_not_fltb _ _ _ Hyp Hep) in He. discriminate.
Qed.

Lemma foldl_binary_insert_sorted rest acc :
  ascending acc -> positions_are_numbers acc -> positions_are_numbers rest ->
  ascending (foldl binary_insert acc rest)
  /\ forall p : float,
       filter (fun e => feqb e.1 p = true) (foldl binary_insert acc rest)
       = filter (fun e => feqb e.1 p = true) (acc ++ rest)%list.
Proof.
  revert acc. induction rest as [|y rest IH]; intros acc Hasc Hnum Hrest; cbn [foldl].
  - rewrite app_nil_r. split; [exact Hasc|reflexivity].
  - inversion Hrest as [|? ? Hy Hrest']; subst.
    destruct (IH (binary_insert acc y)) as [IH1 IH2].
    + apply binary_insert_ascending; assumption.
    + unfold positions_are_numbers. rewrite binary_insert_perm.
      constructor; assumption.
    + exact Hrest'.
    + split; [exact IH1|]. intros p. rewrite IH2.
      rewrite filter_app, (binary_insert_keeps_ties acc y p Hasc Hnum Hy).
      rewrite <- filter_app, <- app_assoc. reflexivity.
Qed.

(** *** The run at the head *)

Lemma run_tail_sorted (descending : bool) (prev : float * string) l :
  Sorted (run_step descending) (prev :: take (run_tail descending prev l) l).
Proof.
  revert prev. induction l as [|e t IH]; intros prev; cbn [run_tail].
  - repeat constructor.
  - destruct (Bool.eqb (fltb e.1 prev.1) descending) eqn:E.
    + cbn [take]. constructor; [apply IH|]. constructor. exact E.
    + repeat constructor.
Qed.

Lemma count_run_sorted l :
  Sorted (run_step (count_run l).2) (take (count_run l).1 l).
Proof.
  destruct l as [|e0 [|e1 t]]; cbn [count_run fst snd].
  - constructor.
  - repeat constructor.
  - cbn [take]. constructor; [apply run_tail_sorted|].
    constructor. unfold run_step. apply Bool.eqb_reflx.
Qed.

Lemma Sorted_numbers_impl (R R' : relation (float * string)) l :
  (forall a b, is_nan a.1 = false -> is_nan b.1 = false -> R a b -> R' a b) ->
  positions_are_numbers l -> Sorted R l -> Sorted R' l.
Proof.
  intros HR Hnum Hs. induction Hs as [|x l Hs IH Hx]; [constructor|].
  inversion Hnum as [|? ? Hnx Hnl]; subst.
  constructor; [apply IH, Hnl|].
  destruct Hx as [|y l Hxy]; constructor.
  inversion Hnl; subst. apply HR; assumption.
Qed.

(** A descending run holds at most one stop of each position. *)
Lemma descending_one_of_each l (p : float) :
  StronglySorted (fun a b : float * string => fltb b.1 a.1 = true) l ->
  (length (filter (fun e => feqb e.1 p = true) l) <= 1)%nat.
Proof.
  induction 1 as [|e l Hs IH He]; [cbn; lia|].
  rewrite filter_cons. destruct (decide (feqb e.1 p = true)) as [Hep|Hep]; [|exact IH].
  rewrite (filter_none _ l); [cbn; lia|].
  eapply Forall_impl; [exact He|]. intros b Hb Hbp. cbn beta in *.
  rewrite (feqb_not_fltb _ _ _ Hbp Hep) in Hb. discriminate.
Qed.

Lemma reverse_short {A} (l : list A) : (length l <= 1)%nat -> reverse l = l.
Proof. destruct l as [|x [|y l]]; cbn; [reflexivity|reflexivity|lia]. Qed.

Lemma run_sorted l :
  positions_are_numbers l ->
  let run := take (count_run l).1 l in
  let run' := if (count_run l).2 then reverse run else run in
  ascending run'
  /\ forall p : float,
       filter (fun e => feqb e.1 p = true) run' = filter (fun e => feqb e.1 p = true) run.
Proof.
  intros Hnum run run'.
  assert (Hrun : positions_are_numbers run).
  { unfold positions_are_numbers, run. apply Forall_take, Hnum. }
  pose proof (count_run_sorted l) as Hs. fold run in Hs.
  subst run'. destruct (count_run l).2.
  - assert (Hdesc : Sorted (fun a b : float * string => fltb b.1 a.1 = true) run).
    { eapply Sorted_numbers_impl; [|exact Hrun|exact Hs].
      intros a b _ _ H. unfold run_step in H. apply Bool.eqb_prop in H. exact H. }
    split.
    + unfold ascending. apply Sorted_StronglySorted; [apply le_pos_trans|].
      apply Sorted_reverse in Hdesc.
      eapply Sorted_numbers_impl; [|unfold positions_are_numbers; rewrite reverse_Permutation; exact Hrun|exact Hdesc].
      intros a b _ _ H. unfold flip in H. apply fltb_fleb, H.
    + intros p. rewrite filter_reverse. apply reverse_short.
      apply descending_one_of_each. apply Sorted_StronglySorted; [apply gt_pos_trans|exact Hdesc].
  - split; [|reflexivity].
    unfold ascending. apply Sorted_StronglySorted; [apply le_pos_trans|].
    eapply Sorted_numbers_impl; [|exact Hrun|exact Hs].
    intros a b Ha Hb H. unfold run_step in H. apply Bool.eqb_prop in H.
    apply fltb_false_fleb; assumption.
Qed.

(** *** The sorted list *)

(** When every position is a number, [sorted] returns the stops in ascending
    order of position, stops of equal position in the order they came in. *)
Lemma sorted_ascending (ranges : list (float * string)) :
  positions_are_numbers ranges -> ascending (sorted ranges).
Proof.
  intros Hnum. destruct (run_sorted ranges Hnum) as [Hasc _].
  unfold sorted. destruct (count_run ranges) as [n descending]. cbn [fst snd] in Hasc.
  apply foldl_binary_insert_sorted; [exact Hasc| |].
  - unfold positions_are_numbers.
    destruct descending; rewrite ?reverse_Permutation; apply Forall_take, Hnum.
  - apply Forall_drop, Hnum.
Qed.

Lemma sorted_keeps_ties (ranges : list (float * string)) :
  positions_are_numbers ranges -> keeps_ties ranges (sorted ranges).
Proof.
  intros Hnum p. destruct (run_sorted ranges Hnum) as [Hasc Hties].
  unfold sorted. destruct (count_run ranges) as [n descending]. cbn [fst snd] in Hasc, Hties.
  destruct (foldl_binary_insert_sorted (drop n ranges)
              (if descending then reverse (take n ranges) else take n ranges)) as [_ H];
    [exact Hasc| | |].
  - unfold positions_are_numbers.
    destruct descending; rewrite ?reverse_Permutation; apply Forall_take, Hnum.
  - apply Forall_drop, Hnum.
  - rewrite H, filter_app, Hties, <- filter_app, take_drop. reflexivity.
Qed.

End Sorting.

(** ** gradient *)

Section Gradient.

Implicit Types (ranges : list (float * string)) (x : float).

Lemma scan_stops_first x (l : list (float * string)) (i0 : Z) :
  Exists (fun e => fleb x e.1 = true) l ->
  exists (k : nat) (cur : float * string),
    l !! k = Some cur
    /\ fleb x cur.1 = true
    /\ (forall (j : nat) e, (j < k)%nat -> l !! j = Some e -> fleb x e.1 = false)
    /\ scan_stops x i0 l = i0 + Z.of_nat k.
Proof.
  revert i0. induction l as [|e t IH]; intros i0 Hex.
  - inversion Hex.
  - simpl. destruct (fleb x e.1) eqn:He.
    + exists 0%nat, e. repeat split; [exact He| |lia].
      intros j e' Hj. lia.
    + assert (Ht : Exists (fun e => fleb x e.1 = true) t).
      { inversion Hex; subst; [congruence|assumption]. }
      destruct (IH (i0 + 1) Ht) as (k & cur & Hk & Hc & Hbefore & Hscan).
      exists (S k), cur. repeat split; [exact Hk|exact Hc| |lia].
      intros [|j] e' Hj Hl; simpl in Hl.
      * injection Hl as <-. exact He.
      * apply (Hbefore j e'); [lia|exact Hl].
Qed.

Lemma gradient_scalar_at x ranges :
  is_nan x = false ->
  gradient_scalar x ranges
  = (first ← pyindex (sorted ranges) 0;
     if fleb x first.1 then Ok first.2
     else
       last ← pyindex (sorted ranges) (-1);
       if fleb last.1 x then Ok last.2
       else blend x (sorted ranges) (scan_stops x 0 (sorted ranges))).
Proof. intros Hx. unfold gradient_scalar. rewrite Hx. reflexivity. Qed.

Lemma blend_between x (l : list (float * string)) (i : nat) (prev cur : float * string) :
  l !! i = Some prev -> l !! S i = Some cur ->
  blend x l (Z.of_nat (S i)) = interpolate_between x prev cur.
Proof.
  intros Hp Hc. unfold blend, interpolate_between.
  replace (Z.of_nat (S i) - 1) with (Z.of_nat i) by lia.
  rewrite (pyindex_lookup _ _ _ Hp), (pyindex_lookup _ _ _ Hc).
  reflexivity.
Qed.

(** C1, as stated, fails when a position is a NaN.  [sorted] compares with
    [<] alone; a NaN is below nothing and nothing is below it, so the
    positions [0, nan, -1, 2] are one ascending run to [count_run] and stay
    as they are.  For [x = 0.5] the first stop at or above [x] is the one at
    2, and the stop before it in the list is the one at -1, although the stop
    at 0 lies between the two: the result is the blend of [#ccc] and [#ddd],
    and not the blend of [#aaa] and [#ddd] that the ascending order gives. *)
Lemma gradient_nan_stop_unsorted :
  let g := [(f0, "#aaa"); (S754_nan, "#bbb"); (of_Z (-1), "#ccc"); (of_Z 2, "#ddd")] in
  let x := of_ratio 1 2 in
  sorted g = g
  /\ fltb (of_Z (-1)) f0 = true
  /\ fltb f0 x = true
  /\ fltb x (of_Z 2) = true
  /\ interpolate_between x (f0, "#aaa") (of_Z 2, "#ddd") = Ok "#b6b6b6"
  /\ interpolate_between x (of_Z (-1), "#ccc") (of_Z 2, "#ddd") = Ok "#d4d4d4"
  /\ gradient (XNum x) g = Ok (GStr "#d4d4d4")
  /\ gradient (XNum x) g <> Ok (GStr "#b6b6b6").
Proof.
  cbv zeta.
  assert (H : gradient (XNum (of_ratio 1 2))
                [(f0, "#aaa"); (S754_nan, "#bbb"); (of_Z (-1), "#ccc"); (of_Z 2, "#ddd")]
              = Ok (GStr "#d4d4d4")) by (vm_compute; reflexivity).
  rewrite H.
  split; [vm_compute; reflexivity|]. split; [vm_compute; reflexivity|].
  split; [vm_compute; reflexivity|]. split; [vm_compute; reflexivity|].
  split; [vm_compute; reflexivity|]. split; [vm_compute; reflexivity|].
  split; [reflexivity|discriminate].
Qed.

(** C1, amended: when no position is a NaN, [sorted] puts the stops in
    ascending order of position (the same stops, those of equal position in
    the order they came in); strictly between the first and the last sorted
    position, [gradient] takes the first stop [cur] whose position is at
    least [x] and the stop [prev] before it, and its result is the
    interpolation between the two:
    [p = (x - prev.position) / (cur.position - prev.position)], each of R, G, B
    blended as [prev * (1 - p) + cur * p], alpha not blended, formatted by
    [name] with its default alpha. *)
Theorem gradient_interpolates ranges x (first lst : float * string) :
  positions_are_numbers ranges ->
  head (sorted ranges) = Some first ->
  last (sorted ranges) = Some lst ->
  fltb first.1 x = true ->
  fltb x lst.1 = true ->
  sorted ranges ≡ₚ ranges
  /\ ascending (sorted ranges)
  /\ keeps_ties ranges (sorted ranges)
  /\ exists (i : nat) (prev cur : float * string),
       sorted ranges !! i = Some prev
       /\ sorted ranges !! S i = Some cur
       /\ fltb prev.1 x = true
       /\ fleb x cur.1 = true
       /\ (forall (j : nat) e, (j <= i)%nat -> sorted ranges !! j = Some e ->
             fleb x e.1 = false)
       /\ gradient (XNum x) ranges = GStr <$> interpolate_between x prev cur.
Proof.
  intros Hnum Hfirst Hlast Hlo Hhi.
  split; [apply sorted_perm|]. split; [apply sorted_ascending, Hnum|].
  split; [apply sorted_keeps_ties, Hnum|].
  pose proof (fltb_fleb_flip _ _ Hlo) as Hnot_first.
  pose proof (fltb_fleb_flip _ _ Hhi) as Hnot_last.
  pose proof (fltb_fleb _ _ Hhi) as Hle_last.
  destruct (fleb_not_nan _ _ Hle_last) as [Hx _].
  assert (Hex : Exists (fun e => fleb x e.1 = true) (sorted ranges)).
  { apply Exists_exists. exists lst. split; [|exact Hle_last].
    eapply list_elem_of_lookup_2. rewrite <- last_lookup. exact Hlast. }
  destruct (scan_stops_first x (sorted ranges) 0 Hex)
    as (k & cur & Hk & Hcur & Hbefore & Hscan).
  destruct k as [|i].
  { rewrite head_lookup in Hfirst. rewrite Hfirst in Hk. injection Hk as <-. congruence. }
  destruct (lookup_lt_is_Some_2 (sorted ranges) i) as [prev Hprev].
  { apply lookup_lt_Some in Hk. lia. }
  exists i, prev, cur. repeat split; [exact Hprev|exact Hk| |exact Hcur| |].
  - assert (Hnp : is_nan prev.1 = false).
    { assert (Hs : positions_are_numbers (sorted ranges))
        by (unfold positions_are_numbers; rewrite sorted_perm; exact Hnum).
      unfold positions_are_numbers in Hs. rewrite Forall_lookup in Hs.
      exact (Hs i prev Hprev). }
    pose proof (Hbefore i prev ltac:(lia) Hprev) as Hxp.
    destruct (fltb prev.1 x) eqn:E; [reflexivity|].
    rewrite (fltb_false_fleb _ _ Hnp Hx E) in Hxp. discriminate.
  - intros j e Hj. apply Hbefore. lia.
  - cbn [gradient]. rewrite (gradient_scalar_at _ _ Hx).
    rewrite (pyindex_first _ _ Hfirst). cbn [mbind res_bind]. rewrite Hnot_first.
    rewrite (pyindex_last _ _ Hlast). cbn [mbind res_bind]. rewrite Hnot_last.
    rewrite Hscan. rewrite Z.add_0_l.
    rewrite (blend_between x _ i prev cur Hprev Hk). reflexivity.
Qed.

Lemma gradient_interpolates_witness :
  sorted Greens ≡ₚ Greens
  /\ ascending (sorted Greens)
  /\ keeps_ties Greens (sorted Greens)
  /\ exists (i : nat) (prev cur : float * string),
       sorted Greens !! i = Some prev
       /\ sorted Greens !! S i = Some cur
       /\ fltb prev.1 (of_ratio 25 100) = true
       /\ fleb (of_ratio 25 100) cur.1 = true
       /\ (forall (j : nat) e, (j <= i)%nat -> sorted Greens !! j = Some e ->
             fleb (of_ratio 25 100) e.1 = false)
       /\ gradient (XNum (of_ratio 25 100)) Greens
          = GStr <$> interpolate_between (of_ratio 25 100) prev cur.
Proof.
  apply (gradient_interpolates Greens (of_ratio 25 100) (f0, "#F7FCF5") (f1, "#00441B"));
    [repeat constructor|reflexivity..].
Defined.

(** The end-to-end example of the specification: 0.25 on [Greens] lies
    between the stops at 0 and 0.5, the fraction is 0.5, and the blend of
    [#F7FCF5] and [#74C476] is [#b5e0b5]. *)
Example gradient_Greens_quarter :
  pydiv (fsub (of_ratio 25 100) f0) (fsub (of_ratio 5 10) f0) = Ok (of_ratio 5 10)
  /\ interpolate_between (of_ratio 25 100) (f0, "#F7FCF5") (of_ratio 5 10, "#74C476")
     = Ok "#b5e0b5"
  /\ gradient (XNum (of_ratio 25 100)) Greens = Ok (GStr "#b5e0b5").
Proof. repeat split; vm_compute; reflexivity. Qed.

Example gradient_RWG_midpoint :
  gradient (XNum (of_ratio (-5) 10)) RWG_1 = Ok (GStr "#ff7f7f").
Proof. vm_compute. reflexivity. Qed.

(** C2, as stated, fails in two ways.  When every stop has the same
    position, [x] is both at most the first position and at least the last
    one, and the first test of the source wins: the first literal is
    returned, not the last.  When a position is a NaN the stops are not
    brought into ascending order: the positions [1, nan, 0] stay as they are,
    and for [x = -2] the literal of the stop at 1 is returned although the
    stop at 0 is the lowest. *)
Lemma gradient_tie_or_nan_stop :
  let g := [(f0, "#000"); (f0, "#fff")] in
  let h := [(f1, "#aaa"); (S754_nan, "#bbb"); (f0, "#ccc")] in
  (head (sorted g) = Some (f0, "#000")
   /\ last (sorted g) = Some (f0, "#fff")
   /\ fleb f0 f0 = true
   /\ gradient (XNum f0) g = Ok (GStr "#000")
   /\ gradient (XNum f0) g <> Ok (GStr "#fff"))
  /\ (sorted h = h
      /\ fltb f0 f1 = true
      /\ fleb (of_Z (-2)) f0 = true
      /\ gradient (XNum (of_Z (-2))) h = Ok (GStr "#aaa")
      /\ gradient (XNum (of_Z (-2))) h <> Ok (GStr "#ccc")).
Proof.
  cbv zeta.
  assert (Hg : gradient (XNum f0) [(f0, "#000"); (f0, "#fff")] = Ok (GStr "#000"))
    by (vm_compute; reflexivity).
  assert (Hh : gradient (XNum (of_Z (-2))) [(f1, "#aaa"); (S754_nan, "#bbb"); (f0, "#ccc")]
               = Ok (GStr "#aaa")) by (vm_compute; reflexivity).
  rewrite Hg, Hh.
  split; [split; [vm_compute; reflexivity|split; [vm_compute; reflexivity|
            split; [vm_compute; reflexivity|split; [reflexivity|discriminate]]]]|].
  split; [vm_compute; reflexivity|]. split; [vm_compute; reflexivity|].
  split; [vm_compute; reflexivity|]. split; [reflexivity|discriminate].
Qed.

(** C2, amended: when no position is a NaN, [sorted] puts the stops in
    ascending order of position (the same stops, those of equal position in
    the order they came in); [x] at most the first position gives the first
    stop's literal as it is; [x] at least the last position, and not at most
    the first, gives the last stop's literal as it is. *)
Theorem gradient_clamps ranges x (first lst : float * string) :
  positions_are_numbers ranges ->
  head (sorted ranges) = Some first ->
  last (sorted ranges) = Some lst ->
  sorted ranges ≡ₚ ranges
  /\ ascending (sorted ranges)
  /\ keeps_ties ranges (sorted ranges)
  /\ (fleb x first.1 = true -> gradient (XNum x) ranges = Ok (GStr first.2))
  /\ (fleb x first.1 = false -> fleb lst.1 x = true ->
      gradient (XNum x) ranges = Ok (GStr lst.2)).
Proof.
  intros Hnum Hfirst Hlast.
  split; [apply sorted_perm|]. split; [apply sorted_ascending, Hnum|].
  split; [apply sorted_keeps_ties, Hnum|]. split.
  - intros Hle. destruct (fleb_not_nan _ _ Hle) as [Hx _].
    cbn [gradient]. rewrite (gradient_scalar_at _ _ Hx).
    rewrite (pyindex_first _ _ Hfirst). cbn [mbind res_bind]. rewrite Hle. reflexivity.
  - intros Hnot Hge. destruct (fleb_not_nan _ _ Hge) as [_ Hx].
    cbn [gradient]. rewrite (gradient_scalar_at _ _ Hx).
    rewrite (pyindex_first _ _ Hfirst). cbn [mbind res_bind]. rewrite Hnot.
    rewrite (pyindex_last _ _ Hlast). cbn [mbind res_bind]. rewrite Hge. reflexivity.
Qed.

Lemma gradient_clamps_witness :
  ascending (sorted RWG_1)
  /\ gradient (XNum (of_Z (-2))) RWG_1 = Ok (GStr "#ff0000")
  /\ gradient (XNum (of_Z 2)) RWG_1 = Ok (GStr "#00ff00").
Proof.
  destruct (gradient_clamps RWG_1 (of_Z (-2)) (of_Z (-1), "#ff0000") (f1, "#00ff00"))
    as (_ & Hasc & _ & Hlow & _); [repeat constructor|reflexivity|reflexivity|].
  destruct (gradient_clamps RWG_1 (of_Z 2) (of_Z (-1), "#ff0000") (f1, "#00ff00"))
    as (_ & _ & _ & _ & Hhigh); [repeat constructor|reflexivity|reflexivity|].
  split; [exact Hasc|]. split; [apply Hlow|apply Hhigh]; reflexivity.
Defined.

(** C9, as stated, fails when the position of the single stop is a NaN:
    neither comparison holds, the interpolation branch is reached, the
    fraction is a NaN and [name] raises on formatting it. *)
Lemma gradient_single_nan_stop :
  let g := [(S754_nan, "#fff")] in
  fleb (of_ratio 1 2) S754_nan = false
  /\ fleb S754_nan (of_ratio 1 2) = false
  /\ gradient (XNum (of_ratio 1 2)) g = Raise TypeError
  /\ gradient (XNum (of_ratio 1 2)) g <> Ok (GStr "#fff").
Proof. repeat split; try reflexivity. discriminate. Qed.

(** C9, amended: a gradient of one stop whose position is not a NaN returns
    that stop's literal for every [x], a NaN included (it counts as 0): one
    of the two comparisons holds, so the interpolation is not reached. *)
Theorem gradient_single_stop (pos : float) (color : string) x :
  is_nan pos = false ->
  let x' := if is_nan x then f0 else x in
  (fleb x' pos = true \/ fleb pos x' = true)
  /\ gradient (XNum x) [(pos, color)] = Ok (GStr color).
Proof.
  intros Hpos x'.
  assert (Hx' : is_nan x' = false).
  { unfold x'. destruct (is_nan x) eqn:Hx; [reflexivity|exact Hx]. }
  assert (Hcmp : fleb x' pos = true \/ fleb pos x' = true).
  { destruct (fleb x' pos) eqn:Hle; [left; reflexivity|].
    right. apply fleb_total; assumption. }
  split; [exact Hcmp|].
  cbn [gradient]. unfold gradient_scalar. fold x'.
  change (sorted [(pos, color)]) with [(pos, color)].
  change (pyindex [(pos, color)] 0) with (Ok (pos, color)).
  change (pyindex [(pos, color)] (-1)) with (Ok (pos, color)).
  cbn [mbind res_bind fst snd].
  destruct (fleb x' pos) eqn:Hle; [reflexivity|].
  destruct Hcmp as [Hc|Hc]; [congruence|]. rewrite Hc. reflexivity.
Qed.

Lemma gradient_single_stop_witness :
  gradient (XNum S754_nan) [(of_ratio 1 2, "#74C476")] = Ok (GStr "#74C476").
Proof. apply (gradient_single_stop (of_ratio 1 2) "#74C476" S754_nan). reflexivity. Defined.

End Gradient.

(** ** hsl(...) literals *)

Section Hsl.

Lemma hsl_prefix (color : string) :
  startswith "hsl(" color || startswith "hsla(" color = true ->
  exists rest, color = String "h" rest.
Proof.
  intros Hp. apply orb_true_iff in Hp as [Hp|Hp]; exact (functional_prefix _ _ _ Hp).
Qed.

Lemma hsl_component_hue (v : string) : hsl_component 0 v = hue_of_token v.
Proof. reflexivity. Qed.

Lemma hsl_component_other (i : nat) (v : string) :
  hsl_component (S i) v = percent_or_float v.
Proof. reflexivity. Qed.

(** C4, as stated, fails on a hue token written as a percentage: the source
    tests the percent sign first, so [50%] is read as 0.5 and not as
    [(50 / 360) mod 1]; [hsl(50%,100%,100%)] parses to cyan, where the hue in
    degrees would give an orange. *)
Lemma hsl_percent_hue_is_not_degrees :
  findall_tokens "50%,100%,100%)" = ["50%"; "100%"; "100%"]
  /\ hsl_component 0 "50%" = Ok (of_ratio 1 2)
  /\ hue_of_token_claimed "50%" = Ok (of_ratio 5 36)
  /\ rgba "hsl(50%,100%,100%)" = Ok (f0, f1, f1, f1)
  /\ hsl_to_rgba hue_of_token_claimed "50%" "100%" "100%" []
     = Ok (f1, of_ratio 5 6, f0, f1)
  /\ rgba "hsl(50%,100%,100%)"
     <> hsl_to_rgba hue_of_token_claimed "50%" "100%" "100%" [].
Proof.
  repeat split; try (vm_compute; reflexivity).
  vm_compute. intros H. discriminate H.
Qed.

(** C4, amended: on an [hsl(...)] or [hsla(...)] literal whose scan gives
    three or four tokens, the first token without a percent sign is the hue
    in degrees, [(value / 360) mod 1] (with a percent sign it is divided by
    100 like the others); the second and the third are the saturation and the
    value of HSV (a percentage divided by 100, otherwise the literal float),
    converted by [hsv_to_rgb]; in particular [hsl(0,100%,50%)] is
    (0.5, 0, 0, 1). *)
Theorem rgba_hsl_is_hsv (color args h s v : string) (alpha : list string) :
  startswith "hsl(" color || startswith "hsla(" color = true ->
  pyindex (split_on "(" color) 1 = Ok args ->
  findall_tokens args = h :: s :: v :: alpha ->
  (length alpha <= 1)%nat ->
  rgba color = hsl_to_rgba hue_of_token h s v alpha
  /\ (strip_percent h = None ->
      hue_of_token h = (x ← pyfloat h; Ok (pymod1 (fdiv x f360))))
  /\ rgba "hsl(0,100%,50%)" = Ok (of_ratio 1 2, f0, f0, f1).
Proof.
  intros Hp Hargs Htoks Hlen.
  split; [|split; [intros Hn; unfold hue_of_token; rewrite Hn; reflexivity|reflexivity]].
  destruct (hsl_prefix _ Hp) as [rest ->].
  unfold rgba, hsl_to_rgba.
  change (startswith "#" (String "h" rest)) with false.
  change (startswith "rgb(" (String "h" rest)) with false.
  change (startswith "rgba(" (String "h" rest)) with false.
  cbn [orb]. cbv iota. rewrite Hp, Hargs. cbn [mbind res_bind]. rewrite Htoks.
  cbn [convert_tokens]. rewrite hsl_component_hue, !hsl_component_other.
  destruct (hue_of_token h) as [hh|e]; [|reflexivity].
  destruct (percent_or_float s) as [ss|e]; [|reflexivity].
  destruct (percent_or_float v) as [vv|e]; [|reflexivity].
  destruct alpha as [|a [|a' alpha]]; [| |simpl in Hlen; lia].
  - cbn [convert_tokens mbind res_bind].
    change (pyindex [hh; ss; vv] 0) with (Ok hh).
    change (pyindex [hh; ss; vv] 1) with (Ok ss).
    change (pyindex [hh; ss; vv] 2) with (Ok vv).
    cbn [mbind res_bind].
    destruct (hsv_to_rgb hh ss vv) as [[[r g] b]|e]; reflexivity.
  - cbn [convert_tokens mbind res_bind]. rewrite hsl_component_other.
    destruct (percent_or_float a) as [aa|e]; [|reflexivity].
    cbn [mbind res_bind].
    change (pyindex [hh; ss; vv; aa] 0) with (Ok hh).
    change (pyindex [hh; ss; vv; aa] 1) with (Ok ss).
    change (pyindex [hh; ss; vv; aa] 2) with (Ok vv).
    cbn [mbind res_bind].
    destruct (hsv_to_rgb hh ss vv) as [[[r g] b]|e]; reflexivity.
Qed.

Lemma rgba_hsl_is_hsv_witness :
  rgba "hsla(200, 50%, 75%, .5)"
  = hsl_to_rgba hue_of_token "200" "50%" "75%" [".5"].
Proof.
  apply (rgba_hsl_is_hsv "hsla(200, 50%, 75%, .5)" "200, 50%, 75%, .5)"
           "200" "50%" "75%" [".5"]); reflexivity.
Defined.

Example rgba_hsl_blue_grey :
  rgba "hsla(200, 50%, 75%, .5)"
  = Ok (of_ratio 375 1000, of_ratio 625 1000, of_ratio 75 100, of_ratio 5 10).
Proof. vm_compute. reflexivity. Qed.

End Hsl.

(** ** Rounding

    [SFmul] rounds the exact product of the mantissas by shifting it right
    one bit at a time, keeping a round and a sticky bit.  The lemmas below
    state that in terms of quotients and remainders, and bound the integer
    part of [255 * r]. *)

Section Rounding.

Lemma digits2_pos_size (p : positive) : digits2_pos p = Pos.size p.
Proof. induction p; simpl; congruence. Qed.

Lemma digits2_bounds (p : positive) :
  2 ^ (Zpos (digits2_pos p) - 1) <= Zpos p < 2 ^ Zpos (digits2_pos p).
Proof.
  rewrite digits2_pos_size.
  pose proof (Pos.size_gt p) as Hgt. pose proof (Pos.size_le p) as Hle.
  apply Pos2Z.pos_lt_pos in Hgt. apply Pos2Z.pos_le_pos in Hle.
  rewrite Pos2Z.inj_pow in Hgt, Hle.
  change (Z.pos p~0) with (2 * Z.pos p) in Hle.
  replace (2 ^ Zpos (Pos.size p)) with (2 * 2 ^ (Zpos (Pos.size p) - 1)) in Hle.
  - lia.
  - rewrite <- Z.pow_succ_r by lia. f_equal. lia.
Qed.

Lemma iter_pos_nat {A : Type} (f : A -> A) (p : positive) (x : A) :
  SpecFloat.iter_pos f p x = Nat.iter (Pos.to_nat p) f x.
Proof.
  revert x. induction p as [p IH|p IH|]; intros x; cbn [SpecFloat.iter_pos].
  - rewrite !IH, <- Nat.iter_add, <- Nat.iter_succ_r, Pos2Nat.inj_xI. f_equal. lia.
  - rewrite !IH, <- Nat.iter_add, Pos2Nat.inj_xO. f_equal. lia.
  - reflexivity.
Qed.

Lemma shr_1_nonneg (m : Z) (r s : bool) :
  0 <= m ->
  shr_1 {| shr_m := m; shr_r := r; shr_s := s |}
  = {| shr_m := m / 2; shr_r := Z.odd m; shr_s := r || s |}.
Proof.
  intros Hm. rewrite <- Z.div2_div.
  destruct m as [|[p|p|]|]; try reflexivity. lia.
Qed.

Lemma shr_iter (M : Z) (n : nat) :
  0 <= M ->
  Nat.iter (S n) shr_1 {| shr_m := M; shr_r := false; shr_s := false |}
  = {| shr_m := M / 2 ^ Z.of_nat (S n);
       shr_r := Z.odd (M / 2 ^ Z.of_nat n);
       shr_s := negb (M mod 2 ^ Z.of_nat n =? 0) |}.
Proof.
  intros HM. induction n as [|n IH].
  - change (Nat.iter 1 shr_1 ?x) with (shr_1 x). rewrite shr_1_nonneg by exact HM.
    change (2 ^ Z.of_nat 1) with 2. change (2 ^ Z.of_nat 0) with 1.
    rewrite Z.div_1_r, Z.mod_1_r. reflexivity.
  - change (Nat.iter (S (S n)) shr_1 ?x) with (shr_1 (Nat.iter (S n) shr_1 x)).
    rewrite IH.
    assert (Hp : 0 < 2 ^ Z.of_nat n) by (apply Z.pow_pos_nonneg; lia).
    assert (Hp1 : 2 ^ Z.of_nat (S n) = 2 ^ Z.of_nat n * 2).
    { rewrite Nat2Z.inj_succ, Z.pow_succ_r by lia. lia. }
    assert (Hp2 : 2 ^ Z.of_nat (S (S n)) = 2 ^ Z.of_nat (S n) * 2).
    { rewrite (Nat2Z.inj_succ (S n)), Z.pow_succ_r by lia. lia. }
    rewrite shr_1_nonneg by (apply Z.div_pos; lia).
    f_equal.
    + rewrite Hp2. apply Z.div_div; lia.
    + rewrite Hp1. rewrite Z.rem_mul_r by lia.
      rewrite Zmod_odd.
      pose proof (Z.mod_pos_bound M (2 ^ Z.of_nat n) Hp) as Hb.
      destruct (Z.odd (M / 2 ^ Z.of_nat n)); simpl.
      * symmetry. apply negb_true_iff, Z.eqb_neq. lia.
      * rewrite Z.mul_0_r, Z.add_0_r. reflexivity.
Qed.

Lemma rne_error (M : Z) (n : nat) :
  0 <= M ->
  let q := M / 2 ^ Z.of_nat (S n) in
  let N := round_nearest_even q
             (loc_of_shr_record
                {| shr_m := q;
                   shr_r := Z.odd (M / 2 ^ Z.of_nat n);
                   shr_s := negb (M mod 2 ^ Z.of_nat n =? 0) |}) in
  q <= N <= q + 1
  /\ - 2 ^ Z.of_nat (S n) <= 2 * (M - N * 2 ^ Z.of_nat (S n)) <= 2 ^ Z.of_nat (S n).
Proof.
  intros HM q N.
  assert (Hp : 0 < 2 ^ Z.of_nat n) by (apply Z.pow_pos_nonneg; lia).
  assert (Hp1 : 2 ^ Z.of_nat (S n) = 2 ^ Z.of_nat n * 2).
  { rewrite Nat2Z.inj_succ, Z.pow_succ_r by lia. lia. }
  pose proof (Z.div_mod M (2 ^ Z.of_nat (S n)) ltac:(lia)) as Hdm.
  fold q in Hdm.
  rewrite Hp1 in Hdm at 2. rewrite Z.rem_mul_r in Hdm by lia.
  rewrite Zmod_odd in Hdm.
  pose proof (Z.mod_pos_bound M (2 ^ Z.of_nat n) Hp) as Hb.
  subst N. simpl loc_of_shr_record.
  set (P := 2 ^ Z.of_nat n) in *.
  set (s0 := M mod P) in *.
  set (QP := q * P).
  assert (HQP : 2 ^ Z.of_nat (S n) * q = 2 * QP) by (rewrite Hp1; unfold QP; ring).
  assert (HNP : forall N', N' * 2 ^ Z.of_nat (S n) = 2 * (N' * P)) by (intros; rewrite Hp1; ring).
  rewrite HQP in Hdm. rewrite Hp1.
  destruct (Z.odd (M / P)); destruct (Z.eqb_spec s0 0) as [Hs|Hs]; simpl.
  - destruct (Z.even q); split; try lia;
      rewrite ?Z.mul_add_distr_r; fold QP; lia.
  - split; [lia|]. rewrite Z.mul_add_distr_r. fold QP. lia.
  - split; [lia|]. fold QP. lia.
  - split; [lia|]. fold QP. lia.
Qed.


Lemma shr_nonpos (mrs : shr_record) (e n : Z) : n <= 0 -> shr mrs e n = (mrs, e).
Proof. destruct n; [reflexivity|lia|reflexivity]. Qed.

Lemma shr_fexp_shift (M : positive) (e0 : Z) (k : nat) :
  Z.max (Zpos (digits2_pos M) + e0 - 53) (-1074) - e0 = Z.of_nat (S k) ->
  shr_fexp prec emax (Zpos M) e0 loc_Exact
  = ({| shr_m := Zpos M / 2 ^ Z.of_nat (S k);
        shr_r := Z.odd (Zpos M / 2 ^ Z.of_nat k);
        shr_s := negb (Zpos M mod 2 ^ Z.of_nat k =? 0) |},
     e0 + Z.of_nat (S k)).
Proof.
  intros Hn. unfold shr_fexp, fexp, emin, prec, emax.
  change (3 - 1024 - 53) with (-1074). cbn [Zdigits2 shr_record_of_loc].
  rewrite Hn. unfold shr.
  change (Z.of_nat (S k)) with (Zpos (Pos.of_succ_nat k)) at 1. cbv iota.
  rewrite iter_pos_nat, SuccNat2Pos.id_succ, shr_iter by lia. reflexivity.
Qed.

Lemma shr_fexp_exact (N e1 : Z) :
  0 <= N < 2 ^ 53 -> -1074 <= e1 ->
  shr_fexp prec emax N e1 loc_Exact
  = ({| shr_m := N; shr_r := false; shr_s := false |}, e1).
Proof.
  intros HN He. unfold shr_fexp, fexp, emin, prec, emax.
  change (3 - 1024 - 53) with (-1074). cbn [shr_record_of_loc].
  apply shr_nonpos.
  destruct N as [|pn|pn]; [simpl Zdigits2; lia| |lia].
  cbn [Zdigits2]. pose proof (digits2_bounds pn) as Hd.
  assert (Zpos (digits2_pos pn) - 1 < 53).
  { apply (Z.pow_lt_mono_r_iff 2); lia. }
  lia.
Qed.

Lemma shr_fexp_carry (e1 : Z) :
  -1074 <= e1 ->
  shr_fexp prec emax (2 ^ 53) e1 loc_Exact
  = ({| shr_m := 2 ^ 52; shr_r := false; shr_s := false |}, e1 + 1).
Proof.
  intros He. unfold shr_fexp, fexp, emin, prec, emax.
  change (3 - 1024 - 53) with (-1074).
  change (Zdigits2 (2 ^ 53)) with 54.
  replace (Z.max (54 + e1 - 53) (-1074) - e1) with 1 by lia.
  reflexivity.
Qed.

(** Rounding an exact product whose low bits have to go: the integer part of
    the rounded double is the integer part of [N * 2 ^ e1], where [N] is
    within half a unit of [M / 2 ^ (e1 - e0)]. *)
Lemma round_to_int (M : positive) (e0 : Z) :
  let e1 := Z.max (Zpos (digits2_pos M) + e0 - 53) (-1074) in
  e0 < e1 -> e1 <= -2 ->
  exists N : Z,
    0 <= N
    /\ - 2 ^ (e1 - e0) <= 2 * (Zpos M - N * 2 ^ (e1 - e0)) <= 2 ^ (e1 - e0)
    /\ pyint (binary_round_aux prec emax false (Zpos M) e0 loc_Exact)
       = Ok (N / 2 ^ (- e1)).
Proof.
  intros e1 Hlt Hneg.
  destruct (Z.to_nat (e1 - e0)) as [|k] eqn:Hk; [lia|].
  assert (Hn : e1 - e0 = Z.of_nat (S k)) by lia.
  unfold binary_round_aux. rewrite (shr_fexp_shift M e0 k Hn).
  cbn [shr_m].
  destruct (rne_error (Zpos M) k ltac:(lia)) as [HqN Herr].
  set (q := Zpos M / 2 ^ Z.of_nat (S k)) in *.
  set (N := round_nearest_even q _) in *.
  assert (Hq0 : 0 <= q) by (apply Z.div_pos; [lia|apply Z.pow_pos_nonneg; lia]).
  assert (Hq : q < 2 ^ 53).
  { apply Z.div_lt_upper_bound; [apply Z.pow_pos_nonneg; lia|].
    rewrite <- Z.pow_add_r by lia.
    pose proof (digits2_bounds M) as [_ Hd].
    eapply Z.lt_le_trans; [exact Hd|].
    apply Z.pow_le_mono_r; lia. }
  replace (e0 + Z.of_nat (S k)) with e1 by lia.
  exists N. split; [lia|]. split; [rewrite Hn; exact Herr|].
  destruct e1 as [|pe|pe] eqn:He1; [lia|lia|].
  assert (HN : N < 2 ^ 53 \/ N = 2 ^ 53) by lia.
  destruct HN as [HN| ->].
  - rewrite shr_fexp_exact by lia. cbn [shr_m].
    destruct N as [|pn|pn] eqn:HNe; [reflexivity| |lia].
    destruct (Z.leb_spec (Zneg pe) (emax - prec)) as [_|Hbad];
      [reflexivity|unfold emax, prec in Hbad; lia].
  - rewrite shr_fexp_carry by lia. cbn [shr_m].
    change (2 ^ 52) with (Zpos 4503599627370496).
    destruct (Z.leb_spec (Zneg pe + 1) (emax - prec)) as [_|Hbad];
      [|unfold emax, prec in Hbad; lia].
    destruct (Zneg pe + 1) as [|pe'|pe'] eqn:Hpe; [lia|lia|].
    cbn [pyint]. f_equal.
    change (Z.pow_pos 2 pe') with (2 ^ Zpos pe').
    replace (- Zneg pe) with (Zpos pe' + 1) by lia.
    rewrite Z.pow_add_r by lia. change (2 ^ 1) with 2.
    rewrite Z.mul_comm, <- Z.div_div by (try lia; apply Z.pow_pos_nonneg; lia).
    reflexivity.
Qed.


Lemma pow2_lt_inv (a b : Z) : 0 <= b -> 2 ^ a < 2 ^ b -> a < b.
Proof. intros Hb H. apply (Z.pow_lt_mono_r_iff 2); [lia|exact Hb|exact H]. Qed.

Lemma bounded_canonical (m : positive) (e : Z) :
  bounded prec emax m e = true ->
  Z.max (Zpos (digits2_pos m) + e - 53) (-1074) = e /\ e <= 971.
Proof.
  unfold bounded, canonical_mantissa, fexp, emin, prec, emax.
  change (3 - 1024 - 53) with (-1074). change (1024 - 53) with 971.
  intros H. apply andb_true_iff in H as [H1 H2].
  apply Z.eqb_eq in H1. apply Z.leb_le in H2. auto.
Qed.

Lemma fleb_one (m : positive) (e : Z) :
  fleb (S754_finite false m e) f1 = true ->
  e < -52 \/ (e = -52 /\ Zpos m <= 2 ^ 52).
Proof.
  unfold fleb, SFleb, f1. cbn [SFcompare].
  destruct (Z.compare_spec e (-52)) as [He|He|He]; [|intros _; lia|discriminate].
  intros H. right. split; [exact He|].
  change (2 ^ 52) with (Zpos 4503599627370496).
  apply Pos2Z.pos_le_pos. unfold Pos.le, Pos.compare.
  destruct (Pos.compare_cont Eq m 4503599627370496); congruence.
Qed.

(** What [int(255 * r)] is for a positive double [r <= 1], and where [r]
    lies given that integer. *)
Lemma mul255_int (m : positive) (e : Z) :
  bounded prec emax m e = true ->
  fleb (S754_finite false m e) f1 = true ->
  exists k : Z,
    0 <= k <= 255
    /\ pyint (fmul f255 (S754_finite false m e)) = Ok k
    /\ (k * 2 ^ 45 - 1) * 2 ^ (- e) <= Zpos m * (255 * 2 ^ 45)
    /\ Zpos m * (255 * 2 ^ (53 - byte_log2 k))
       <= ((k + 1) * 2 ^ (53 - byte_log2 k) - 1) * 2 ^ (- e).
Proof.
  intros Hval Hle.
  destruct (bounded_canonical m e Hval) as [Hcan _].
  pose proof (fleb_one m e Hle) as He.
  pose proof (digits2_bounds m) as [Hdm_lo Hdm_hi].
  set (dm := Zpos (digits2_pos m)) in *.
  assert (Hdm : 1 <= dm <= 53) by (unfold dm; lia).
  set (pE := 2 ^ (- e)).
  assert (HpE : 0 < pE) by (apply Z.pow_pos_nonneg; lia).
  assert (HmE : Zpos m <= pE).
  { destruct He as [He|[He Hm]].
    - apply Z.lt_le_incl. eapply Z.lt_le_trans; [exact Hdm_hi|].
      apply Z.pow_le_mono_r; lia.
    - unfold pE. rewrite He. exact Hm. }
  (* the exact product *)
  set (M := (8972014882652160 * m)%positive).
  assert (HM : Zpos M = 255 * 2 ^ 45 * Zpos m) by (unfold M; rewrite Pos2Z.inj_mul; reflexivity).
  pose proof (digits2_bounds M) as [HdM_lo HdM_hi].
  set (dM := Zpos (digits2_pos M)) in *.
  assert (HdM : 52 + dm <= dM <= 53 + dm).
  { split.
    - assert (51 + dm < dM); [|lia].
      apply pow2_lt_inv; [lia|].
      eapply Z.le_lt_trans; [|exact HdM_hi].
      replace (51 + dm) with (52 + (dm - 1)) by lia.
      rewrite Z.pow_add_r by lia. rewrite HM.
      apply Z.mul_le_mono_nonneg; try lia; apply Z.pow_nonneg; lia.
    - assert (dM - 1 < 53 + dm); [|lia].
      apply pow2_lt_inv; [lia|].
      eapply Z.le_lt_trans; [exact HdM_lo|].
      rewrite Z.pow_add_r by lia. rewrite HM.
      apply Z.mul_lt_mono_nonneg; lia. }
  set (e0 := -45 + e).
  destruct (round_to_int M e0) as (N & HN0 & Herr & Hint); fold dM.
  { unfold e0. lia. }
  { unfold e0. lia. }
  fold dM in Herr, Hint.
  set (e1 := Z.max (dM + e0 - 53) (-1074)) in *.
  assert (He1 : e0 < e1 <= -44) by (unfold e1, e0; lia).
  set (T := 2 ^ (- e1)) in *.
  set (P := 2 ^ (e1 - e0)) in *.
  set (A := 2 ^ 45 * pE).
  assert (HT : 2 ^ 44 <= T) by (apply Z.pow_le_mono_r; lia).
  assert (HP : 0 < P) by (apply Z.pow_pos_nonneg; lia).
  assert (HTP : T * P = A).
  { unfold T, P, A, pE. rewrite <- !Z.pow_add_r by lia. f_equal. unfold e0. lia. }
  assert (HMA : Zpos M = 255 * 2 ^ 45 * Zpos m) by exact HM.
  exists (N / T).
  assert (HT0 : 0 < T) by lia.
  pose proof (Z.mul_div_le N T HT0) as Hk_lo.
  pose proof (Z.mul_succ_div_gt N T HT0) as Hk_hi.
  set (k := N / T) in *.
  assert (Hk0 : 0 <= k) by (apply Z.div_pos; lia).
  (* the product of the bounds on N by P *)
  assert (HkA : k * A <= N * P).
  { rewrite <- HTP. replace (k * (T * P)) with (T * k * P) by ring.
    apply Z.mul_le_mono_nonneg_r; lia. }
  assert (HkA' : N * P + P <= (k + 1) * A).
  { rewrite <- HTP. replace ((k + 1) * (T * P)) with (T * Z.succ k * P) by ring.
    replace (N * P + P) with ((N + 1) * P) by ring.
    apply Z.mul_le_mono_nonneg_r; lia. }
  assert (HPA : P * 2 ^ 44 <= A).
  { rewrite <- HTP. rewrite (Z.mul_comm T P). apply Z.mul_le_mono_nonneg_l; lia. }
  assert (HMle : Zpos M <= 255 * A).
  { rewrite HM. unfold A. replace (255 * (2 ^ 45 * pE)) with (255 * 2 ^ 45 * pE) by ring.
    apply Z.mul_le_mono_nonneg_l; lia. }
  assert (Hk255 : k <= 255).
  { destruct (Z_le_gt_dec k 255) as [|Hgt]; [assumption|exfalso].
    assert (256 * A <= k * A) by (apply Z.mul_le_mono_nonneg_r; lia).
    lia. }
  split; [lia|]. split; [exact Hint|]. split.
  - (* lower end *)
    assert (Hlow : 2 * (k * A) - P <= 2 * Zpos M) by lia.
    assert (HP2 : P <= 2 * pE).
    { unfold A in HPA. clearbody P pE. clear - HPA.
      change (2 ^ 45) with 35184372088832 in HPA.
      change (2 ^ 44) with 17592186044416 in HPA. lia. }
    replace (Zpos m * (255 * 2 ^ 45)) with (Zpos M) by (rewrite HM; ring).
    replace ((k * 2 ^ 45 - 1) * pE) with (k * A - pE) by (unfold A; ring).
    lia.
  - (* upper end *)
    set (L := byte_log2 k).
    assert (HL : -1 <= L <= 7).
    { unfold L, byte_log2. destruct (Z.eqb_spec k 0); [lia|].
      split; [pose proof (Z.log2_nonneg k); lia|].
      assert (Z.log2 k < 8); [|lia]. apply Z.log2_lt_pow2; lia. }
    assert (Hup : P <= 2 * ((k + 1) * A - Zpos M)) by lia.
    assert (Hgoal : A <= 2 ^ (53 - L) * ((k + 1) * A - Zpos M)).
    { assert (HA0 : 0 < A) by (unfold A; lia).
      assert (Hbig : 2 * 2 <= 2 ^ (53 - L)).
      { change (2 * 2) with (2 ^ 2). apply Z.pow_le_mono_r; lia. }
      destruct (Z_lt_le_dec (2 * Zpos M) (2 ^ (L + 1) * A)) as [Hsmall|Hlarge].
      - (* the product is below the binade of k: far from k + 1 *)
        assert (Hfar : A <= 2 * ((k + 1) * A - Zpos M)).
        { unfold L, byte_log2 in Hsmall. destruct (Z.eqb_spec k 0) as [->|Hk].
          - change (2 ^ (-1 + 1)) with 1 in Hsmall. lia.
          - pose proof (Z.log2_spec k ltac:(lia)) as [Hl _].
            pose proof (Z.log2_nonneg k) as Hl0.
            rewrite Z.pow_add_r in Hsmall by lia. change (2 ^ 1) with 2 in Hsmall.
            assert (2 ^ Z.log2 k * A <= k * A) by (apply Z.mul_le_mono_nonneg_r; lia).
            lia. }
        remember ((k + 1) * A - Zpos M) as D eqn:HD.
        assert (2 * 2 * D <= 2 ^ (53 - L) * D) by (apply Z.mul_le_mono_nonneg_r; lia).
        lia.
      - (* the product is in the binade of k: its unit in the last place *)
        assert (HeL : L - 52 <= e1).
        { assert (L - e0 < dM); [|unfold e1; lia].
          apply pow2_lt_inv; [lia|].
          eapply Z.le_lt_trans; [|exact HdM_hi].
          assert (2 ^ (L + 1) * A = 2 * 2 ^ (L - e0)) as Hpow.
          { unfold A, pE. rewrite <- Z.pow_succ_r by (unfold e0; lia).
            rewrite <- !Z.pow_add_r by lia. f_equal. unfold e0. lia. }
          lia. }
        assert (HTL : 2 * T <= 2 ^ (53 - L)).
        { unfold T. rewrite <- Z.pow_succ_r by lia. apply Z.pow_le_mono_r; lia. }
        remember ((k + 1) * A - Zpos M) as D eqn:HD.
        assert (T * P <= T * (2 * D)) by (apply Z.mul_le_mono_nonneg_l; lia).
        assert (2 * T * D <= 2 ^ (53 - L) * D) by (apply Z.mul_le_mono_nonneg_r; lia).
        lia. }
    replace (Zpos m * (255 * 2 ^ (53 - L))) with
      (2 ^ (53 - L) * (255 * Zpos m)) by ring.
    assert (H45 : 2 ^ 45 * (2 ^ (53 - L) * (255 * Zpos m))
                  <= 2 ^ 45 * (((k + 1) * 2 ^ (53 - L) - 1) * pE)).
    { replace (2 ^ 45 * (2 ^ (53 - L) * (255 * Zpos m)))
        with (2 ^ (53 - L) * Zpos M) by (rewrite HM; ring).
      replace (2 ^ 45 * (((k + 1) * 2 ^ (53 - L) - 1) * pE))
        with (2 ^ (53 - L) * ((k + 1) * A) - A) by (unfold A; ring).
      rewrite Z.mul_sub_distr_l in Hgoal. lia. }
    apply Z.mul_le_mono_pos_l in H45; [exact H45|reflexivity].
Qed.

End Rounding.


(** ** The byte of a channel *)

Section Channel.

Lemma Zpos_pow2 (p : positive) : Zpos (2 ^ p) = 2 ^ Zpos p.
Proof. apply Pos2Z.inj_pow. Qed.

(** The byte [int(255 * r)] of a channel [r] of [0, 1]: [name] leaves [r]
    unclamped, the conversion for [%02x] succeeds, and [r] lies in the
    interval of that byte. *)
Lemma channel_byte (r : float) :
  unit_interval r ->
  exists k : Z,
    0 <= k <= 255
    /\ clamp01 r = r
    /\ fmt_arg (fmul f255 r) = Ok k
    /\ (byte_lo k <= toQ r)%Q
    /\ (toQ r <= byte_hi k)%Q.
Proof.
  intros (Hval & H0 & H1).
  assert (Hclamp : clamp01 r = r).
  { unfold clamp01. rewrite (fleb_fltb_flip _ _ H0), (fleb_fltb_flip _ _ H1). reflexivity. }
  destruct r as [s|s| |s m e].
  - exists 0. split; [lia|]. split; [exact Hclamp|].
    split; [destruct s; reflexivity|].
    split; vm_compute; discriminate.
  - destruct s; discriminate.
  - discriminate.
  - destruct s; [discriminate|].
    destruct (mul255_int m e Hval H1) as (k & Hk & Hint & Hlo & Hhi).
    exists k. split; [exact Hk|]. split; [exact Hclamp|].
    split; [unfold fmt_arg; rewrite Hint; reflexivity|].
    pose proof (fleb_one m e H1) as He.
    destruct e as [|pe|pe]; [lia|lia|].
    cbn [toQ]. change (- Zneg pe) with (Zpos pe) in Hlo, Hhi.
    assert (HL : -1 <= byte_log2 k <= 7).
    { unfold byte_log2. destruct (Z.eqb_spec k 0); [lia|].
      split; [pose proof (Z.log2_nonneg k); lia|].
      assert (Z.log2 k < 8); [|lia]. apply Z.log2_lt_pow2; lia. }
    split.
    + unfold byte_lo, Qle. cbn [Qnum Qden].
      rewrite Zpos_pow2. rewrite Z2Pos.id by reflexivity. exact Hlo.
    + unfold byte_hi, Qle. cbn [Qnum Qden].
      rewrite Zpos_pow2. rewrite Z2Pos.id; [exact Hhi|].
      apply Z.mul_pos_pos; [lia|apply Z.pow_pos_nonneg; lia].
Qed.

End Channel.


(** ** Bytes and hexadecimal digits *)

Section Bytes.

Lemma forall_bytes (P : Z -> Prop) `{forall k, Decision (P k)} :
  forallb (fun k => bool_decide (P k)) (range0 256) = true ->
  forall k, 0 <= k <= 255 -> P k.
Proof.
  intros Hall k Hk. rewrite forallb_forall in Hall.
  eapply bool_decide_eq_true_1, Hall.
  unfold range0. apply in_map_iff. exists (Z.to_nat k). split; [lia|].
  apply in_seq. lia.
Qed.

Ltac by_bytes :=
  match goal with
  | |- forall k : Z, 0 <= k <= 255 -> @?P k =>
      apply (forall_bytes P); vm_compute; reflexivity
  end.

Lemma fmt_02x_byte (k : Z) : 0 <= k <= 255 -> fmt_02x k = hex2 k.
Proof. revert k. by_bytes. Qed.

Lemma hex_char_word (k : Z) :
  0 <= k <= 255 -> is_word (hex_char (k / 16)) = true.
Proof. revert k. by_bytes. Qed.

Lemma hex_char_repeated (k : Z) :
  0 <= k <= 255 ->
  Ascii.eqb (hex_char (k / 16)) (hex_char (k mod 16)) = repeated_digit k.
Proof. revert k. by_bytes. Qed.

Lemma int16_hex2 (k : Z) : 0 <= k <= 255 -> int16 (hex2 k) = Ok k.
Proof. revert k. by_bytes. Qed.

Lemma int16_hex1 (k : Z) :
  0 <= k <= 255 -> repeated_digit k = true ->
  int16 (String (hex_char (k / 16)) EmptyString) = Ok (k / 16)
  /\ fdiv (of_Z (k / 16)) f15 = byte_channel k.
Proof. revert k. by_bytes. Qed.

Lemma byte_channel_clamped (k : Z) :
  0 <= k <= 255 -> clamp01 (byte_channel k) = byte_channel k.
Proof. revert k. by_bytes. Qed.

Lemma byte_channel_close (k : Z) :
  0 <= k <= 255 ->
  Qle_bool (byte_hi k - toQ (byte_channel k)) (1 # 255)
  && Qle_bool (toQ (byte_channel k) - byte_lo k) (1 # 255) = true.
Proof. revert k. by_bytes. Qed.


Lemma hex_string_chars (a a' b b' c c' : ascii) :
  "#" +:+ String a (String a' EmptyString) +:+ String b (String b' EmptyString)
    +:+ String c (String c' EmptyString)
  = String "#" (String a (String a' (String b (String b' (String c (String c' EmptyString)))))).
Proof. reflexivity. Qed.

Lemma re_sub_short_seven (a a' b b' c c' : ascii) :
  re_sub_short
    (String "#" (String a (String a' (String b (String b' (String c (String c' EmptyString)))))))
  = if is_word a && Ascii.eqb a a' && is_word b && Ascii.eqb b b'
       && is_word c && Ascii.eqb c c'
    then String "#" (String a (String b (String c EmptyString)))
    else String "#" (String a (String a' (String b (String b' (String c (String c' EmptyString)))))).
Proof.
  cbn [re_sub_short]. change (Ascii.eqb "#" "#") with true. cbn [andb].
  destruct (is_word a && Ascii.eqb a a' && is_word b && Ascii.eqb b b'
            && is_word c && Ascii.eqb c c'); reflexivity.
Qed.

(** [re.sub] on the six digits of three bytes. *)
Lemma re_sub_short_bytes (R G B : Z) :
  0 <= R <= 255 -> 0 <= G <= 255 -> 0 <= B <= 255 ->
  re_sub_short ("#" +:+ fmt_02x R +:+ fmt_02x G +:+ fmt_02x B) = hex_color R G B.
Proof.
  intros HR HG HB.
  rewrite !fmt_02x_byte by assumption.
  unfold hex_color, hex2. rewrite !hex_string_chars, re_sub_short_seven.
  rewrite !hex_char_word, !hex_char_repeated by assumption. cbn [andb].
  destruct (repeated_digit R), (repeated_digit G), (repeated_digit B); reflexivity.
Qed.

(** [name] on channels of [0, 1] with an alpha of at least 1. *)
Lemma name_opaque_bytes (r g b a : float) :
  unit_interval r -> unit_interval g -> unit_interval b ->
  fleb f1 a = true ->
  exists R G B : Z,
    (0 <= R <= 255 /\ 0 <= G <= 255 /\ 0 <= B <= 255)
    /\ (fmt_arg (fmul f255 r) = Ok R /\ fmt_arg (fmul f255 g) = Ok G
        /\ fmt_arg (fmul f255 b) = Ok B)
    /\ ((byte_lo R <= toQ r <= byte_hi R)%Q /\ (byte_lo G <= toQ g <= byte_hi G)%Q
        /\ (byte_lo B <= toQ b <= byte_hi B)%Q)
    /\ name r g b a = Ok (hex_color R G B).
Proof.
  intros Hr Hg Hb Ha.
  destruct (channel_byte r Hr) as (R & HR & Hcr & HfR & HloR & HhiR).
  destruct (channel_byte g Hg) as (G & HG & Hcg & HfG & HloG & HhiG).
  destruct (channel_byte b Hb) as (B & HB & Hcb & HfB & HloB & HhiB).
  exists R, G, B. repeat split; try assumption; try lia.
  unfold name. rewrite Hcr, Hcg, Hcb.
  assert (Hca : fleb f1 (clamp01 a) = true).
  { unfold clamp01.
    assert (fltb a f0 = false) as -> by (destruct a as [s|[]| |[] m e]; try reflexivity; discriminate).
    destruct (fltb f1 a); [reflexivity|exact Ha]. }
  rewrite Hca, HfR, HfG, HfB. cbn [mbind res_bind].
  rewrite re_sub_short_bytes by assumption. reflexivity.
Qed.

Lemma rgba_six_digits (R G B : Z) :
  0 <= R <= 255 -> 0 <= G <= 255 -> 0 <= B <= 255 ->
  rgba ("#" +:+ hex2 R +:+ hex2 G +:+ hex2 B)
  = Ok (byte_channel R, byte_channel G, byte_channel B, f1).
Proof.
  intros HR HG HB.
  pose proof (int16_hex2 R HR) as HiR.
  pose proof (int16_hex2 G HG) as HiG.
  pose proof (int16_hex2 B HB) as HiB.
  unfold hex2 in *. rewrite hex_string_chars. unfold rgba.
  match goal with
  | |- context [startswith "#" (String "#" ?t)] =>
      change (startswith "#" (String "#" t)) with true
  end.
  cbn [String.length Nat.eqb substring].
  rewrite HiR, HiG, HiB. cbn [mbind res_bind length Nat.eqb app].
  fold (byte_channel R); fold (byte_channel G); fold (byte_channel B).
  rewrite !byte_channel_clamped by assumption. reflexivity.
Qed.

Lemma close_to_channel (x : Q) (k : Z) :
  0 <= k <= 255 ->
  (byte_lo k <= x <= byte_hi k)%Q ->
  (Qabs (x - toQ (byte_channel k)) <= 1 # 255)%Q.
Proof.
  intros Hk [Hlo Hhi].
  pose proof (byte_channel_close k Hk) as Hc.
  apply andb_true_iff in Hc as [Hc1 Hc2].
  apply Qle_bool_iff in Hc1, Hc2.
  apply Qabs_Qle_condition.
  set (c := toQ (byte_channel k)) in *.
  clearbody c. split; lra.
Qed.

Lemma rgba_three_digits (R G B : Z) :
  0 <= R <= 255 -> 0 <= G <= 255 -> 0 <= B <= 255 ->
  repeated_digit R = true -> repeated_digit G = true -> repeated_digit B = true ->
  rgba (String "#" (String (hex_char (R / 16)) (String (hex_char (G / 16))
          (String (hex_char (B / 16)) EmptyString))))
  = Ok (byte_channel R, byte_channel G, byte_channel B, f1).
Proof.
  intros HR HG HB HrR HrG HrB.
  destruct (int16_hex1 R HR HrR) as [HiR HcR].
  destruct (int16_hex1 G HG HrG) as [HiG HcG].
  destruct (int16_hex1 B HB HrB) as [HiB HcB].
  unfold rgba.
  match goal with
  | |- context [startswith "#" (String "#" ?t)] =>
      change (startswith "#" (String "#" t)) with true
  end.
  cbn [String.length Nat.eqb substring].
  rewrite HiR, HiG, HiB. cbn [mbind res_bind length Nat.eqb app].
  rewrite HcR, HcG, HcB.
  rewrite !byte_channel_clamped by assumption. reflexivity.
Qed.

(** [rgba] on what [name] writes for three bytes. *)
Lemma rgba_hex_color (R G B : Z) :
  0 <= R <= 255 -> 0 <= G <= 255 -> 0 <= B <= 255 ->
  rgba (hex_color R G B) = Ok (byte_channel R, byte_channel G, byte_channel B, f1).
Proof.
  intros HR HG HB. unfold hex_color.
  destruct (repeated_digit R) eqn:HrR, (repeated_digit G) eqn:HrG,
    (repeated_digit B) eqn:HrB; cbn [andb];
    try (apply rgba_six_digits; assumption).
  apply rgba_three_digits; assumption.
Qed.

Lemma fmt_arg_ok (v : float) (z : Z) : fmt_arg v = Ok z -> pyint v = Ok z.
Proof. unfold fmt_arg. destruct (pyint v); congruence. Qed.

End Bytes.

(** ** name and the round trip through rgba *)

Section Format.

Example name_f01 : name f1 f0 (of_ratio 1 15) f1 = Ok "#f01".
Proof. vm_compute. reflexivity. Qed.

Example name_six_digits : name f1 (of_ratio 1 2) f0 f1 = Ok "#ff7f00".
Proof. vm_compute. reflexivity. Qed.

(** C5, as stated, fails on its own example: the pairs [ff], [00], [00] are
    three repeated digits, the pattern matches and [name 1 0 0] is [#f00],
    not [#ff0000]. *)
Lemma name_red_collapses :
  name f1 f0 f0 f1 = Ok "#f00"
  /\ name f1 f0 f0 f1 <> Ok "#ff0000".
Proof. split; [reflexivity|discriminate]. Qed.

(** C5, amended: for channels of [0, 1] and an alpha of at least 1, [name]
    writes the bytes [int(255 * channel)] as six hexadecimal digits, and as
    three digits whenever each of the three bytes is a repeated digit, be the
    three digits equal or not: [#ff0011] gives [#f01] and [#ff0000] gives
    [#f00]. *)
Theorem name_opaque (r g b a : float) :
  unit_interval r -> unit_interval g -> unit_interval b ->
  fleb f1 a = true ->
  exists R G B : Z,
    (0 <= R <= 255 /\ 0 <= G <= 255 /\ 0 <= B <= 255)
    /\ (pyint (fmul f255 r) = Ok R /\ pyint (fmul f255 g) = Ok G
        /\ pyint (fmul f255 b) = Ok B)
    /\ name r g b a = Ok (hex_color R G B)
    /\ hex_color R G B
       = (if repeated_digit R && repeated_digit G && repeated_digit B
          then String "#" (String (hex_char (R / 16)) (String (hex_char (G / 16))
                 (String (hex_char (B / 16)) EmptyString)))
          else "#" +:+ hex2 R +:+ hex2 G +:+ hex2 B)
    /\ hex_color 255 0 17 = "#f01"
    /\ hex_color 255 0 0 = "#f00".
Proof.
  intros Hr Hg Hb Ha.
  destruct (name_opaque_bytes r g b a Hr Hg Hb Ha)
    as (R & G & B & Hrange & (HR & HG & HB) & _ & Hname).
  exists R, G, B. split; [exact Hrange|].
  split; [auto using fmt_arg_ok|].
  split; [exact Hname|]. repeat split; reflexivity.
Qed.

Lemma name_opaque_witness :
  exists R G B : Z,
    (0 <= R <= 255 /\ 0 <= G <= 255 /\ 0 <= B <= 255)
    /\ (pyint (fmul f255 (of_ratio 3 10)) = Ok R /\ pyint (fmul f255 f1) = Ok G
        /\ pyint (fmul f255 f0) = Ok B)
    /\ name (of_ratio 3 10) f1 f0 f1 = Ok (hex_color R G B)
    /\ hex_color R G B
       = (if repeated_digit R && repeated_digit G && repeated_digit B
          then String "#" (String (hex_char (R / 16)) (String (hex_char (G / 16))
                 (String (hex_char (B / 16)) EmptyString)))
          else "#" +:+ hex2 R +:+ hex2 G +:+ hex2 B)
    /\ hex_color 255 0 17 = "#f01"
    /\ hex_color 255 0 0 = "#f00".
Proof.
  apply (name_opaque (of_ratio 3 10) f1 f0 f1); repeat split; reflexivity.
Defined.

(** C6: for [r], [g], [b] in [0, 1], [rgba] parses what [name r g b 1]
    writes, three digits or six, and each channel it returns is within 1/255
    of the channel given (the difference of the exact values of the two
    doubles), the alpha being 1. *)
Theorem parse_format_roundtrip (r g b : float) :
  unit_interval r -> unit_interval g -> unit_interval b ->
  exists (s : string) (r' g' b' : float),
    name r g b f1 = Ok s
    /\ rgba s = Ok (r', g', b', f1)
    /\ (Qabs (toQ r - toQ r') <= 1 # 255)%Q
    /\ (Qabs (toQ g - toQ g') <= 1 # 255)%Q
    /\ (Qabs (toQ b - toQ b') <= 1 # 255)%Q.
Proof.
  intros Hr Hg Hb.
  destruct (name_opaque_bytes r g b f1 Hr Hg Hb eq_refl)
    as (R & G & B & (HR & HG & HB) & _ & (HqR & HqG & HqB) & Hname).
  exists (hex_color R G B), (byte_channel R), (byte_channel G), (byte_channel B).
  split; [exact Hname|].
  split; [apply rgba_hex_color; assumption|].
  repeat split; apply close_to_channel; assumption.
Qed.

Lemma parse_format_roundtrip_witness :
  exists (s : string) (r' g' b' : float),
    name (of_ratio 3 10) f1 f0 f1 = Ok s
    /\ rgba s = Ok (r', g', b', f1)
    /\ (Qabs (toQ (of_ratio 3 10) - toQ r') <= 1 # 255)%Q
    /\ (Qabs (toQ f1 - toQ g') <= 1 # 255)%Q
    /\ (Qabs (toQ f0 - toQ b') <= 1 # 255)%Q.
Proof.
  apply (parse_format_roundtrip (of_ratio 3 10) f1 f0); repeat split; reflexivity.
Defined.

Example roundtrip_three_tenths :
  name (of_ratio 3 10) f1 f0 f1 = Ok "#4cff00"
  /\ rgba "#4cff00" = Ok (of_ratio 76 255, f1, f0, f1).
Proof. split; vm_compute; reflexivity. Qed.

End Format.


(** ** The table of names *)

Section SharedTable.

Lemma colornames_entries (k : string) (rgb : list float) :
  _colornames !! k = Some rgb ->
  length rgb = 3%nat
  /\ rgba k = match (rgb ++ [f1])%list with
              | [r; g; b; a] => Ok (clamp01 r, clamp01 g, clamp01 b, clamp01 a)
              | _ => Raise (ValueError InvalidColor)
              end.
Proof.
  intros H. apply elem_of_map_to_list in H.
  set (entries := map_to_list _colornames) in H.
  vm_compute in entries. subst entries.
  repeat (apply elem_of_cons in H as [H|H];
          [injection H as -> ->; split; vm_compute; reflexivity|]).
  inversion H.
Qed.

(** Whatever calls came before, [rgba] on a name of the table returns what
    it returns on the table as defined, and leaves a table of the same kind:
    [rgba] is a function of its argument. *)
Lemma rgba_named_stable (table : gmap string (list float)) (color : string)
    (rgb : list float) :
  _colornames !! color = Some rgb ->
  table_reachable table ->
  fst (rgba_named table color) = rgba color
  /\ table_reachable (snd (rgba_named table color)).
Proof.
  intros Hc Ht.
  destruct (colornames_entries color rgb Hc) as [Hlen Hrgba].
  assert (Hres : exists l, table !! color = Some l
            /\ (if (length l =? 3)%nat then (l ++ [f1])%list else l) = (rgb ++ [f1])%list).
  { specialize (Ht color). rewrite Hc in Ht. destruct Ht as [Hl|Hl].
    - exists rgb. split; [exact Hl|]. rewrite Hlen. reflexivity.
    - exists (rgb ++ [f1])%list. split; [exact Hl|].
      rewrite length_app, Hlen. reflexivity. }
  destruct Hres as (l & Hl & Hresult).
  unfold rgba_named. rewrite Hl. cbv zeta. rewrite Hresult. cbn [fst snd].
  split; [symmetry; exact Hrgba|].
  intros k. destruct (decide (k = color)) as [->|Hne].
  - rewrite Hc, lookup_insert_eq. right. reflexivity.
  - rewrite lookup_insert_ne by congruence. apply Ht.
Qed.

Lemma colornames_reachable : table_reachable _colornames.
Proof. intros k. destruct (_colornames !! k); auto. Qed.

Example rgba_red_twice :
  let '(first, table) := rgba_named _colornames "red" in
  let '(second, _) := rgba_named table "red" in
  first = Ok (f1, f0, f0, f1) /\ second = first
  /\ table !! "red" = Some [f255; f0; f0; f1].
Proof. vm_compute. repeat split; reflexivity. Qed.

(** The table holds bytes and [rgba] does not divide them by 255: the clamp
    takes every non-zero byte to 1. *)
Example rgba_gray : rgba "gray" = Ok (f1, f1, f1, f1).
Proof. vm_compute. reflexivity. Qed.

End SharedTable.

(** ** Agreement with the machine

    The operations above are the Standard Library's specification of
    binary64; on these inputs they return what the processor's doubles do. *)

Section Machine.

Example of_ratio_tenth : of_ratio 1 10 = Prim2SF 0x1.999999999999ap-4%float.
Proof. vm_compute. reflexivity. Qed.

Example of_ratio_long_literal :
  of_ratio 123456789012345678901234567890 1000 = Prim2SF 0x1.987bf7c563caap+86%float.
Proof. vm_compute. reflexivity. Qed.

Example fmul_machine :
  fmul f255 (of_ratio 3 10) = Prim2SF (255 * 0x1.3333333333333p-2)%float.
Proof. vm_compute. reflexivity. Qed.

Example fdiv_machine : fdiv (of_Z 76) f255 = Prim2SF (76 / 255)%float.
Proof. vm_compute. reflexivity. Qed.

Example blend_machine :
  fadd (fmul (fdiv (of_Z 247) f255) (of_ratio 1 2)) (fmul (fdiv (of_Z 116) f255) (of_ratio 1 2))
  = Prim2SF (247 / 255 * 0.5 + 116 / 255 * 0.5)%float.
Proof. vm_compute. reflexivity. Qed.

End Machine.

(** * Further properties of the module *)


(** ** The results of the arithmetic are doubles

    [spec_float] has finite values whose mantissa is not normalised, which no
    Python float is.  Rounding never produces one, so the values the module
    computes are [valid]. *)

Section Validity.

Lemma shr_1_m (mrs : shr_record) : 0 <= shr_m mrs -> shr_m (shr_1 mrs) = shr_m mrs / 2.
Proof.
  destruct mrs as [m r s]. cbn [shr_m]. intros Hm.
  rewrite shr_1_nonneg by exact Hm. reflexivity.
Qed.

Lemma shr_iter_m (n : nat) (mrs : shr_record) :
  0 <= shr_m mrs -> shr_m (Nat.iter n shr_1 mrs) = shr_m mrs / 2 ^ Z.of_nat n.
Proof.
  intros Hm. induction n as [|n IH].
  - simpl. rewrite Z.div_1_r. reflexivity.
  - cbn [Nat.iter nat_rect]. change (nat_rect _ ?x _ n) with (Nat.iter n shr_1 x).
    assert (Hp : 0 < 2 ^ Z.of_nat n) by (apply Z.pow_pos_nonneg; lia).
    rewrite shr_1_m by (rewrite IH; apply Z.div_pos; lia).
    rewrite IH, Nat2Z.inj_succ, Z.pow_succ_r by lia.
    rewrite Z.div_div by lia. f_equal. lia.
Qed.

Lemma shr_m_shift (mrs : shr_record) (e n : Z) :
  0 <= shr_m mrs -> 0 <= n ->
  shr_m (fst (shr mrs e n)) = shr_m mrs / 2 ^ n /\ snd (shr mrs e n) = e + n.
Proof.
  intros Hm Hn. destruct n as [|p|p]; [| |lia].
  - simpl. rewrite Z.div_1_r. split; [reflexivity|lia].
  - cbn [shr fst snd]. rewrite iter_pos_nat, shr_iter_m by exact Hm.
    rewrite positive_nat_Z. split; reflexivity.
Qed.

Lemma shr_record_of_loc_m (m : Z) (l : location) : shr_m (shr_record_of_loc m l) = m.
Proof. destruct l as [|[]]; reflexivity. Qed.

Lemma rne_range (q : Z) (l : location) : q <= round_nearest_even q l <= q + 1.
Proof. destruct l as [|[]]; simpl; try lia. destruct (Z.even q); lia. Qed.

Lemma Zdigits2_bounds (m : Z) :
  0 < m -> 2 ^ (Zdigits2 m - 1) <= m < 2 ^ Zdigits2 m.
Proof. destruct m as [|p|p]; try lia. intros _. apply digits2_bounds. Qed.

Lemma Zdigits2_pos (m : Z) : 0 < m -> 0 < Zdigits2 m.
Proof. destruct m; simpl; lia. Qed.

Lemma Zdigits2_unique (m d : Z) :
  0 < d -> 2 ^ (d - 1) <= m < 2 ^ d -> Zdigits2 m = d.
Proof.
  intros Hd [Hlo Hhi].
  assert (Hm : 0 < m).
  { eapply Z.lt_le_trans; [|exact Hlo]. apply Z.pow_pos_nonneg; lia. }
  pose proof (Zdigits2_bounds m Hm) as [Hlo' Hhi'].
  pose proof (Zdigits2_pos m Hm) as Hpos.
  assert (H1 : d - 1 < Zdigits2 m).
  { apply pow2_lt_inv; [lia|]. lia. }
  assert (H2 : Zdigits2 m - 1 < d).
  { apply pow2_lt_inv; [lia|]. lia. }
  lia.
Qed.

Lemma fexp_eq (e : Z) : fexp prec emax e = Z.max (e - 53) (-1074).
Proof. reflexivity. Qed.

(** Rounding a mantissa that is at least as fine as the format asks gives a
    double. *)
Lemma binary_round_aux_valid (s : bool) (m e : Z) (l : location) :
  0 <= m -> e <= fexp prec emax (Zdigits2 m + e) ->
  valid (binary_round_aux prec emax s m e l) = true.
Proof.
  intros Hm He. rewrite fexp_eq in He.
  unfold binary_round_aux, shr_fexp. rewrite fexp_eq.
  set (e1 := Z.max (Zdigits2 m + e - 53) (-1074)) in *.
  set (n := e1 - e) in *.
  destruct (shr_m_shift (shr_record_of_loc m l) e n) as [Hq He1];
    [rewrite shr_record_of_loc_m; exact Hm|unfold n; lia|].
  destruct (shr (shr_record_of_loc m l) e n) as [mrs' e'].
  cbn [fst snd] in Hq, He1. rewrite shr_record_of_loc_m in Hq.
  assert (He' : e' = e1) by (unfold n; lia). clear He1. subst e'.
  pose proof (rne_range (shr_m mrs') (loc_of_shr_record mrs')) as HN.
  set (N := round_nearest_even (shr_m mrs') (loc_of_shr_record mrs')) in *.
  rewrite Hq in HN. clear Hq.
  assert (Hn : 0 <= n) by lia.
  assert (Hp : 0 < 2 ^ n) by (apply Z.pow_pos_nonneg; lia).
  assert (Hq0 : 0 <= m / 2 ^ n) by (apply Z.div_pos; lia).
  (* the two regimes *)
  assert (Hcases : (N < 2 ^ 53 /\ (0 < N -> Z.max (Zdigits2 N + e1 - 53) (-1074) = e1))
                   \/ (N = 2 ^ 53 /\ -1074 <= e1)).
  { destruct (Z.eq_dec m 0) as [->|Hm0].
    - left. rewrite Z.div_0_l in HN by lia.
      simpl Zdigits2 in e1. split; [lia|]. intros HN0.
      assert (N = 1) by lia. replace N with 1 by lia. simpl Zdigits2. lia.
    - pose proof (Zdigits2_bounds m ltac:(lia)) as [Hlo Hhi].
      pose proof (Zdigits2_pos m ltac:(lia)) as Hd.
      set (d := Zdigits2 m) in *.
      destruct (Z_lt_le_dec (d + e - 53) (-1074)) as [Hsub|Hnorm].
      + (* subnormal *)
        assert (He1 : e1 = -1074) by lia.
        assert (Hlt : m / 2 ^ n < 2 ^ 52).
        { apply Z.div_lt_upper_bound; [lia|].
          rewrite <- Z.pow_add_r by lia.
          eapply Z.lt_le_trans; [exact Hhi|]. apply Z.pow_le_mono_r; lia. }
        left. split; [lia|]. intros HN0.
        pose proof (Zdigits2_bounds N HN0) as [HloN _].
        assert (Zdigits2 N - 1 < 53).
        { apply pow2_lt_inv; [lia|]. lia. }
        lia.
      + (* normal *)
        assert (He1 : e1 = d + e - 53) by lia.
        assert (Hnd : n = d - 53) by lia.
        assert (Hlt : m / 2 ^ n < 2 ^ 53).
        { apply Z.div_lt_upper_bound; [lia|].
          rewrite <- Z.pow_add_r by lia.
          replace (n + 53) with d by lia. exact Hhi. }
        assert (Hge : 2 ^ 52 <= m / 2 ^ n).
        { apply Z.div_le_lower_bound; [lia|].
          rewrite <- Z.pow_add_r by lia.
          replace (n + 52) with (d - 1) by lia. exact Hlo. }
        assert (HNc : N < 2 ^ 53 \/ N = 2 ^ 53) by lia.
        destruct HNc as [HNlt|HNeq]; [left|right; split; [exact HNeq|lia]].
        split; [exact HNlt|]. intros _.
        rewrite (Zdigits2_unique N 53); [lia|lia|]. simpl (53 - 1). lia. }
  destruct Hcases as [[HNlt Hcan]|[HNeq He1]].
  - assert (He1 : -1074 <= e1) by lia.
    change (shr (shr_record_of_loc N loc_Exact) e1
              (fexp prec emax (Zdigits2 N + e1) - e1))
      with (shr_fexp prec emax N e1 loc_Exact).
    rewrite shr_fexp_exact by lia. cbn [shr_m].
    destruct N as [|pn|pn] eqn:EN; [reflexivity| |lia].
    destruct (Z.leb_spec e1 (emax - prec)) as [Hle|Hgt]; [|reflexivity].
    unfold valid. cbn [valid_binary]. unfold bounded, canonical_mantissa.
    rewrite fexp_eq.
    specialize (Hcan ltac:(lia)). cbn [Zdigits2] in Hcan.
    rewrite Hcan, Z.eqb_refl. simpl. apply Z.leb_le. exact Hle.
  - change (shr (shr_record_of_loc N loc_Exact) e1
              (fexp prec emax (Zdigits2 N + e1) - e1))
      with (shr_fexp prec emax N e1 loc_Exact).
    rewrite HNeq, shr_fexp_carry by lia. cbn [shr_m].
    change (2 ^ 52) with (Zpos 4503599627370496).
    destruct (Z.leb_spec (e1 + 1) (emax - prec)) as [Hle|Hgt]; [|reflexivity].
    unfold valid. cbn [valid_binary]. unfold bounded, canonical_mantissa.
    rewrite fexp_eq.
    change (Zpos (digits2_pos 4503599627370496)) with 53.
    replace (Z.max (53 + (e1 + 1) - 53) (-1074)) with (e1 + 1) by lia.
    rewrite Z.eqb_refl. simpl. apply Z.leb_le. exact Hle.
Qed.


Lemma iter_xO_pow (m d : positive) : Zpos (Pos.iter xO m d) = Zpos m * 2 ^ Zpos d.
Proof.
  induction d as [|d IH] using Pos.peano_ind.
  - simpl. lia.
  - rewrite Pos.iter_succ, Pos2Z.inj_xO, IH, Pos2Z.inj_succ, Z.pow_succ_r by lia. lia.
Qed.

Lemma iter_xO_digits (m d : positive) :
  digits2_pos (Pos.iter xO m d) = (digits2_pos m + d)%positive.
Proof.
  induction d as [|d IH] using Pos.peano_ind.
  - simpl. lia.
  - rewrite Pos.iter_succ. cbn [digits2_pos]. rewrite IH. lia.
Qed.

Lemma binary_round_valid (s : bool) (m : positive) (e : Z) :
  valid (binary_round prec emax s m e) = true.
Proof.
  unfold binary_round, shl_align. rewrite fexp_eq.
  destruct (Z.max (Zpos (digits2_pos m) + e - 53) (-1074) - e) as [|d|d] eqn:Hd;
    apply binary_round_aux_valid; try lia; rewrite fexp_eq; cbn [Zdigits2];
    try lia.
  rewrite iter_xO_digits. lia.
Qed.

Lemma binary_normalize_valid (m e : Z) (sz : bool) :
  valid (binary_normalize prec emax m e sz) = true.
Proof. destruct m; [reflexivity|apply binary_round_valid..]. Qed.

Lemma of_Z_valid (z : Z) : valid (of_Z z) = true.
Proof. apply binary_normalize_valid. Qed.

Lemma fadd_valid (x y : float) :
  valid x = true -> valid y = true -> valid (fadd x y) = true.
Proof.
  intros Hx Hy. unfold fadd.
  destruct x as [sx|sx| |sx mx ex], y as [sy|sy| |sy my ey];
    try reflexivity; try exact Hx; try exact Hy;
    try (destruct sx, sy; reflexivity).
  apply binary_normalize_valid.
Qed.

Lemma fsub_valid (x y : float) :
  valid x = true -> valid y = true -> valid (fsub x y) = true.
Proof.
  intros Hx Hy. unfold fsub.
  destruct x as [sx|sx| |sx mx ex], y as [sy|sy| |sy my ey];
    try reflexivity; try exact Hx; try exact Hy;
    try (destruct sx, sy; reflexivity).
  apply binary_normalize_valid.
Qed.

Lemma fmul_valid (x y : float) :
  valid x = true -> valid y = true -> valid (fmul x y) = true.
Proof.
  intros Hx Hy. unfold fmul.
  destruct x as [sx|sx| |sx mx ex], y as [sy|sy| |sy my ey]; try reflexivity.
  cbn [SFmul].
  apply bounded_canonical in Hx as [Hx _]. apply bounded_canonical in Hy as [Hy _].
  apply binary_round_aux_valid; [lia|]. rewrite fexp_eq. cbn [Zdigits2].
  pose proof (digits2_bounds mx) as [Hlx Hhx]. pose proof (digits2_bounds my) as [Hly Hhy].
  pose proof (digits2_bounds (mx * my)) as [_ Hh].
  set (dx := Zpos (digits2_pos mx)) in *. set (dy := Zpos (digits2_pos my)) in *.
  set (d := Zpos (digits2_pos (mx * my))) in *.
  assert (Hd : dx + dy - 2 < d).
  { apply pow2_lt_inv; [lia|].
    eapply Z.le_lt_trans; [|exact Hh].
    replace (dx + dy - 2) with ((dx - 1) + (dy - 1)) by lia.
    rewrite Z.pow_add_r by lia. rewrite Pos2Z.inj_mul.
    apply Z.mul_le_mono_nonneg; try lia; apply Z.pow_nonneg; lia. }
  lia.
Qed.

Lemma div_core_aligned (m1 m2 : positive) (e1 e2 : Z) :
  let '(q, e', _) := SFdiv_core_binary prec emax (Zpos m1) e1 (Zpos m2) e2 in
  0 <= q /\ e' <= fexp prec emax (Zdigits2 q + e').
Proof.
  unfold SFdiv_core_binary. rewrite !fexp_eq. cbn [Zdigits2].
  set (d1 := Zpos (digits2_pos m1)). set (d2 := Zpos (digits2_pos m2)).
  set (e' := Z.min (Z.max (d1 + e1 - (d2 + e2) - 53) (-1074)) (e1 - e2)).
  set (sh := e1 - e2 - e').
  assert (Hsh : 0 <= sh) by (unfold sh, e'; lia).
  set (m' := match sh with Zpos _ => Z.shiftl (Zpos m1) sh | Z0 => Zpos m1 | Zneg _ => 0 end).
  assert (Hm' : m' = Zpos m1 * 2 ^ sh).
  { unfold m'. destruct sh as [|p|p]; [simpl; lia| |lia].
    apply Z.shiftl_mul_pow2. lia. }
  clearbody m'.
  pose proof (Z_div_mod m' (Zpos m2) ltac:(lia)) as Hdiv.
  destruct (Z.div_eucl m' (Zpos m2)) as [q r]. destruct Hdiv as [Hqr Hr].
  rewrite fexp_eq.
  pose proof (digits2_bounds m1) as [Hl1 Hh1]. pose proof (digits2_bounds m2) as [Hl2 Hh2].
  fold d1 in Hl1, Hh1. fold d2 in Hl2, Hh2.
  assert (Hp : 0 < 2 ^ sh) by (apply Z.pow_pos_nonneg; lia).
  assert (Hq0 : 0 <= q).
  { assert (0 <= m') by (rewrite Hm'; lia). nia. }
  split; [exact Hq0|].
  assert (Hdq : d1 + sh - d2 <= Zdigits2 q).
  { destruct (Z_le_gt_dec (d1 + sh - d2) 0) as [Hle|Hgt].
    - destruct q; simpl; lia.
    - (* 2 ^ (d1 + sh - 1) <= m' < (q + 1) * 2 ^ d2 *)
      assert (H1 : 2 ^ (d1 + sh - 1) <= m').
      { rewrite Hm'. replace (d1 + sh - 1) with ((d1 - 1) + sh) by lia.
        rewrite Z.pow_add_r by lia. apply Z.mul_le_mono_nonneg_r; lia. }
      assert (H2 : m' < (q + 1) * 2 ^ d2).
      { rewrite Hqr.
        apply Z.lt_le_trans with (Zpos m2 * (q + 1)); [lia|].
        rewrite Z.mul_comm. apply Z.mul_le_mono_nonneg_l; lia. }
      assert (H3 : 2 ^ (d1 + sh - 1 - d2) < q + 1).
      { apply (Z.mul_lt_mono_pos_r (2 ^ d2)); [apply Z.pow_pos_nonneg; lia|].
        rewrite <- Z.pow_add_r by lia.
        replace (d1 + sh - 1 - d2 + d2) with (d1 + sh - 1) by lia. lia. }
      assert (Hqpos : 0 < q).
      { assert (0 < 2 ^ (d1 + sh - 1 - d2)) by (apply Z.pow_pos_nonneg; lia). lia. }
      pose proof (Zdigits2_bounds q Hqpos) as [_ Hhq].
      pose proof (Zdigits2_pos q Hqpos) as Hdpos.
      assert (d1 + sh - 1 - d2 < Zdigits2 q).
      { apply pow2_lt_inv; [lia|]. lia. }
      lia. }
  unfold sh in Hdq. unfold e' at 1. lia.
Qed.

Lemma fdiv_valid (x y : float) : valid (fdiv x y) = true.
Proof.
  unfold fdiv.
  destruct x as [sx|sx| |sx mx ex], y as [sy|sy| |sy my ey]; try reflexivity.
  cbn [SFdiv].
  pose proof (div_core_aligned mx my ex ey) as H.
  destruct (SFdiv_core_binary prec emax (Zpos mx) ex (Zpos my) ey) as [[q e'] l].
  destruct H as [Hq He]. apply binary_round_aux_valid; assumption.
Qed.

Lemma of_ratio_valid (n : Z) (d : positive) : valid (of_ratio n d) = true.
Proof.
  destruct n as [|m|m]; [reflexivity| |]; unfold of_ratio;
    pose proof (div_core_aligned m d 0 0) as H;
    destruct (SFdiv_core_binary prec emax (Zpos m) 0 (Zpos d) 0) as [[q e'] l];
    destruct H as [Hq He]; apply binary_round_aux_valid; assumption.
Qed.

Lemma pymod1_valid (a : float) : valid (pymod1 a) = true.
Proof.
  destruct a as [s|s| |s m e]; try reflexivity.
  unfold pymod1. destruct e as [|p|p]; try reflexivity.
  destruct (_ =? 0); [reflexivity|].
  destruct s; [|apply binary_normalize_valid].
  apply fadd_valid; [apply binary_normalize_valid|reflexivity].
Qed.

Lemma pyfloat_valid (s : string) (x : float) : pyfloat s = Ok x -> valid x = true.
Proof.
  unfold pyfloat. destruct (scan_decimal s false false 0 0) as [[n k]|]; [|discriminate].
  intros [= <-]. apply of_ratio_valid.
Qed.

Lemma clamp01_valid (v : float) : valid v = true -> valid (clamp01 v) = true.
Proof.
  intros Hv. unfold clamp01.
  destruct (fltb v f0); [reflexivity|]. destruct (fltb f1 v); [reflexivity|exact Hv].
Qed.

End Validity.

(** ** What rgba returns *)

Section RgbaValues.

Lemma hsv_to_rgb_valid (h s v r g b : float) :
  valid h = true -> valid s = true -> valid v = true ->
  hsv_to_rgb h s v = Ok (r, g, b) ->
  valid r = true /\ valid g = true /\ valid b = true.
Proof.
  intros Hh Hs Hv. unfold hsv_to_rgb.
  destruct (feqb s f0); [intros [= <- <- <-]; auto|].
  destruct (pyint (fmul h f6)) as [i|e]; cbn [mbind res_bind]; [|discriminate].
  assert (Hf : valid (fsub (fmul h f6) (of_Z i)) = true).
  { apply fsub_valid; [apply fmul_valid; [exact Hh|reflexivity]|apply of_Z_valid]. }
  set (f := fsub (fmul h f6) (of_Z i)) in *.
  assert (Hp : valid (fmul v (fsub f1 s)) = true).
  { apply fmul_valid; [exact Hv|apply fsub_valid; [reflexivity|exact Hs]]. }
  assert (Hq : valid (fmul v (fsub f1 (fmul s f))) = true).
  { apply fmul_valid; [exact Hv|].
    apply fsub_valid; [reflexivity|apply fmul_valid; assumption]. }
  assert (Ht : valid (fmul v (fsub f1 (fmul s (fsub f1 f)))) = true).
  { apply fmul_valid; [exact Hv|].
    apply fsub_valid; [reflexivity|].
    apply fmul_valid; [exact Hs|apply fsub_valid; [reflexivity|exact Hf]]. }
  repeat match goal with |- context [if ?c then _ else _] => destruct c end;
    intros [= <- <- <-]; auto.
Qed.

Lemma rgb_component_valid (i : nat) (v : string) (x : float) :
  rgb_component i v = Ok x -> valid x = true.
Proof.
  unfold rgb_component. destruct (strip_percent v) as [body|].
  - destruct (pyfloat body); cbn [mbind res_bind]; [|discriminate]. intros [= <-]. apply fdiv_valid.
  - destruct (i <? 3)%nat; [|apply pyfloat_valid].
    destruct (pyfloat v); cbn [mbind res_bind]; [|discriminate]. intros [= <-]. apply fdiv_valid.
Qed.

Lemma hsl_component_valid (i : nat) (v : string) (x : float) :
  hsl_component i v = Ok x -> valid x = true.
Proof.
  unfold hsl_component. destruct (strip_percent v) as [body|].
  - destruct (pyfloat body); cbn [mbind res_bind]; [|discriminate]. intros [= <-]. apply fdiv_valid.
  - destruct (i =? 0)%nat; [|apply pyfloat_valid].
    destruct (pyfloat v); cbn [mbind res_bind]; [|discriminate]. intros [= <-]. apply pymod1_valid.
Qed.

Lemma convert_tokens_Forall (P : float -> Prop) (conv : nat -> string -> res float) :
  (forall i v x, conv i v = Ok x -> P x) ->
  forall toks i xs, convert_tokens conv i toks = Ok xs -> Forall P xs.
Proof.
  intros Hconv toks. induction toks as [|v rest IH]; intros i xs; cbn [convert_tokens].
  - intros [= <-]. constructor.
  - destruct (conv i v) as [x|] eqn:Ex; cbn [mbind res_bind]; [|discriminate].
    destruct (convert_tokens conv (S i) rest) as [xs'|] eqn:Er; cbn [mbind res_bind]; [|discriminate].
    intros [= <-]. constructor; [exact (Hconv _ _ _ Ex)|exact (IH _ _ Er)].
Qed.

Lemma pyindex_elem_of {A} (l : list A) (i : Z) (a : A) : pyindex l i = Ok a -> a ∈ l.
Proof.
  unfold pyindex. destruct (_ || _); [discriminate|].
  destruct (l !! _) as [x|] eqn:E; [|discriminate].
  intros [= <-]. eapply list_elem_of_lookup_2, E.
Qed.

Lemma colornames_valid (k : string) (rgb : list float) :
  _colornames !! k = Some rgb -> Forall (fun x => valid x = true) rgb.
Proof.
  intros H. apply elem_of_map_to_list in H.
  set (entries := map_to_list _colornames) in H. vm_compute in entries. subst entries.
  repeat (apply elem_of_cons in H as [H|H];
          [injection H as -> ->; repeat constructor|]).
  inversion H.
Qed.

(** Every channel [rgba] returns is a double. *)
Lemma rgba_valid (color : string) (r g b a : float) :
  rgba color = Ok (r, g, b, a) ->
  valid r = true /\ valid g = true /\ valid b = true /\ valid a = true.
Proof.
  unfold rgba.
  match goal with |- context [mbind _ ?m] => set (inner := m) end.
  assert (Hin : forall l, inner = Ok l -> Forall (fun x => valid x = true) l).
  { subst inner. intros l.
    destruct (startswith "#" color).
    - destruct (String.length color =? 7)%nat.
      + destruct (int16 (substring 1 2 color)); cbn [mbind res_bind]; [|discriminate].
        destruct (int16 (substring 3 2 color)); cbn [mbind res_bind]; [|discriminate].
        destruct (int16 (substring 5 2 color)); cbn [mbind res_bind]; [|discriminate].
        intros [= <-]. repeat constructor; apply fdiv_valid.
      + destruct (String.length color =? 4)%nat; [|intros [= <-]; constructor].
        destruct (int16 (substring 1 1 color)); cbn [mbind res_bind]; [|discriminate].
        destruct (int16 (substring 2 1 color)); cbn [mbind res_bind]; [|discriminate].
        destruct (int16 (substring 3 1 color)); cbn [mbind res_bind]; [|discriminate].
        intros [= <-]. repeat constructor; apply fdiv_valid.
    - destruct (_ || _).
      + destruct (pyindex _ 1) as [args|]; cbn [mbind res_bind]; [|discriminate].
        apply convert_tokens_Forall, rgb_component_valid.
      + destruct (_ || _).
        * destruct (pyindex _ 1) as [args|]; cbn [mbind res_bind]; [|discriminate].
          destruct (convert_tokens hsl_component 0 (findall_tokens args)) as [result|] eqn:Ec; cbn [mbind res_bind]; [|discriminate].
          pose proof (convert_tokens_Forall _ _ hsl_component_valid _ _ _ Ec) as Hall.
          rewrite Forall_forall in Hall.
          destruct (pyindex result 0) as [h|] eqn:Eh; cbn [mbind res_bind]; [|discriminate].
          destruct (pyindex result 1) as [s|] eqn:Es; cbn [mbind res_bind]; [|discriminate].
          destruct (pyindex result 2) as [v|] eqn:Ev; cbn [mbind res_bind]; [|discriminate].
          apply pyindex_elem_of, Hall in Eh, Es, Ev.
          destruct (hsv_to_rgb h s v) as [[[r' g'] b']|] eqn:Ehsv; cbn [mbind res_bind]; [|discriminate].
          destruct (hsv_to_rgb_valid _ _ _ _ _ _ Eh Es Ev Ehsv) as (Hr & Hg & Hb).
          intros [= <-]. repeat (constructor; [assumption|]).
          apply Forall_forall. intros x Hx. apply Hall.
          apply list_elem_of_lookup_1 in Hx as [i Hi].
          rewrite lookup_drop in Hi. exact (list_elem_of_lookup_2 _ _ _ Hi).
        * destruct (_colornames !! color) as [rgb|] eqn:E; intros [= <-];
            [exact (colornames_valid _ _ E)|constructor]. }
  destruct inner as [l|e]; [|discriminate]. specialize (Hin l eq_refl). cbn.
  assert (Hall : Forall (fun x => valid x = true)
                   (if (length l =? 3)%nat then (l ++ [f1])%list else l)).
  { destruct (length l =? 3)%nat; [|exact Hin].
    apply Forall_app. split; [exact Hin|repeat constructor]. }
  destruct (if (length l =? 3)%nat then (l ++ [f1])%list else l)
    as [|r0 [|g0 [|b0 [|a0 [|]]]]]; try discriminate.
  intros [= <- <- <- <-].
  inversion Hall as [|? ? Hr Hall1]; subst. inversion Hall1 as [|? ? Hg Hall2]; subst.
  inversion Hall2 as [|? ? Hb Hall3]; subst. inversion Hall3 as [|? ? Ha _]; subst.
  repeat split; apply clamp01_valid; assumption.
Qed.

End RgbaValues.

(** ** Hexadecimal literals *)

Section HexLiterals.

Lemma forall_ascii (P : ascii -> Prop) `{forall c, Decision (P c)} :
  forallb (fun k => bool_decide (P (ascii_of_N (Z.to_N k)))) (range0 256) = true ->
  forall c, P c.
Proof.
  intros Hall c.
  pose proof (forall_bytes (fun k => P (ascii_of_N (Z.to_N k))) Hall
                (Z.of_N (N_of_ascii c))) as Hc.
  cbv beta in Hc. rewrite N2Z.id, ascii_N_embedding in Hc. apply Hc.
  pose proof (N_ascii_bounded c). lia.
Qed.

Ltac by_ascii :=
  match goal with
  | |- forall c : ascii, @?P c => apply (forall_ascii P); vm_compute; reflexivity
  end.

(** One digit, and the same digit twice: [int] fails on both, or gives [d]
    and [17 * d], which are the same channel. *)
Lemma int16_doubled (x : ascii) :
  (fun d => fdiv (of_Z d) f15) <$> int16 (String x EmptyString)
  = (fun d => fdiv (of_Z d) f255) <$> int16 (String x (String x EmptyString)).
Proof. revert x. by_ascii. Qed.

(** rgba on a [#] and six characters, and on a [#] and three. *)
Lemma rgba_seven (a a' b b' c c' : ascii) :
  rgba (String "#" (String a (String a' (String b (String b' (String c (String c' EmptyString)))))))
  = (r ← (fun d => fdiv (of_Z d) f255) <$> int16 (String a (String a' EmptyString));
     g ← (fun d => fdiv (of_Z d) f255) <$> int16 (String b (String b' EmptyString));
     b ← (fun d => fdiv (of_Z d) f255) <$> int16 (String c (String c' EmptyString));
     Ok (clamp01 r, clamp01 g, clamp01 b, f1)).
Proof.
  unfold rgba.
  match goal with
  | |- context [startswith "#" (String "#" ?t)] =>
      change (startswith "#" (String "#" t)) with true
  end.
  cbn [String.length Nat.eqb substring].
  destruct (int16 (String a (String a' EmptyString))); [|reflexivity].
  destruct (int16 (String b (String b' EmptyString))); [|reflexivity].
  destruct (int16 (String c (String c' EmptyString))); reflexivity.
Qed.

Lemma rgba_four (a b c : ascii) :
  rgba (String "#" (String a (String b (String c EmptyString))))
  = (r ← (fun d => fdiv (of_Z d) f15) <$> int16 (String a EmptyString);
     g ← (fun d => fdiv (of_Z d) f15) <$> int16 (String b EmptyString);
     b ← (fun d => fdiv (of_Z d) f15) <$> int16 (String c EmptyString);
     Ok (clamp01 r, clamp01 g, clamp01 b, f1)).
Proof.
  unfold rgba.
  match goal with
  | |- context [startswith "#" (String "#" ?t)] =>
      change (startswith "#" (String "#" t)) with true
  end.
  cbn [String.length Nat.eqb substring].
  destruct (int16 (String a EmptyString)); [|reflexivity].
  destruct (int16 (String b EmptyString)); [|reflexivity].
  destruct (int16 (String c EmptyString)); reflexivity.
Qed.

(** X1: the three-digit form is the six-digit form with every digit written
    twice: for any three characters [x], [y], [z], [rgba('#xyz')] and
    [rgba('#xxyyzz')] return the same channels, or raise the same error. *)
Theorem rgba_shorthand_doubles (x y z : ascii) :
  rgba (String "#" (String x (String y (String z EmptyString))))
  = rgba (String "#" (String x (String x (String y (String y (String z (String z EmptyString))))))).
Proof. rewrite rgba_four, rgba_seven, !int16_doubled. reflexivity. Qed.

Lemma int16_lower_1 (x : ascii) :
  int16 (String (to_lower x) EmptyString) = int16 (String x EmptyString).
Proof. revert x. by_ascii. Qed.

Lemma int16_lower_2 (x y : ascii) :
  int16 (String (to_lower x) (String (to_lower y) EmptyString))
  = int16 (String x (String y EmptyString)).
Proof.
  revert y. revert x.
  assert (H : forall x : ascii,
             forallb (fun k => bool_decide
                        (int16 (String (to_lower x)
                                  (String (to_lower (ascii_of_N (Z.to_N k))) EmptyString))
                         = int16 (String x (String (ascii_of_N (Z.to_N k)) EmptyString))))
               (range0 256) = true).
  { by_ascii. }
  intros x.
  apply (forall_ascii (fun y => int16 (String (to_lower x) (String (to_lower y) EmptyString))
                                = int16 (String x (String y EmptyString)))).
  apply H.
Qed.

(** X2: a hexadecimal literal is read without regard to the case of its
    letters: whatever follows the [#], [rgba(s.lower())] is [rgba(s)], the
    same channels or the same error. *)
Theorem rgba_hex_ignores_case (s : string) :
  startswith "#" s = true -> rgba (str_lower s) = rgba s.
Proof.
  intros Hs. destruct (functional_prefix _ _ _ Hs) as [t ->]. clear Hs.
  cbn [str_lower]. change (to_lower "#") with "#"%char.
  destruct t as [|c1 [|c2 [|c3 [|c4 [|c5 [|c6 [|c7 t]]]]]]]; cbn [str_lower];
    try reflexivity.
  - rewrite !rgba_four, !int16_lower_1. reflexivity.
  - rewrite !rgba_seven, !int16_lower_2. reflexivity.
Qed.

Lemma rgba_hex_ignores_case_witness : rgba (str_lower "#F7FCF5") = rgba "#F7FCF5".
Proof. apply (rgba_hex_ignores_case "#F7FCF5"). reflexivity. Defined.

End HexLiterals.

(** ** The range and the errors of rgba *)

Section RgbaRange.

Lemma clamp01_is_nan (v : float) : is_nan (clamp01 v) = is_nan v.
Proof.
  unfold clamp01. destruct (fltb v f0) eqn:H0.
  - apply fltb_not_nan in H0 as [-> _]. reflexivity.
  - destruct (fltb f1 v) eqn:H1; [|reflexivity].
    apply fltb_not_nan in H1 as [_ ->]. reflexivity.
Qed.

Lemma clamp01_unit (v : float) :
  valid v = true -> is_nan v = false -> unit_interval (clamp01 v).
Proof.
  intros Hv Hn. split; [apply clamp01_valid, Hv|].
  unfold clamp01.
  destruct (fltb v f0) eqn:H0; [split; reflexivity|].
  destruct (fltb f1 v) eqn:H1; [split; reflexivity|].
  split; apply fltb_false_fleb; auto.
Qed.

Lemma clamp01_idem (v : float) : clamp01 (clamp01 v) = clamp01 v.
Proof.
  assert (E : clamp01 v = f0 \/ clamp01 v = f1
              \/ (clamp01 v = v /\ fltb v f0 = false /\ fltb f1 v = false)).
  { unfold clamp01. destruct (fltb v f0); [auto|]. destruct (fltb f1 v); auto. }
  destruct E as [->| [->|(-> & H0 & H1)]]; try reflexivity.
  unfold clamp01. rewrite H0, H1. reflexivity.
Qed.

(** The clamp of [rgba]: nothing below 0 or above 1 gets through. *)
Lemma rgba_channels (color : string) (r g b a : float) :
  rgba color = Ok (r, g, b, a) ->
  Forall (fun c => is_nan c = true \/ unit_interval c) [r; g; b; a].
Proof.
  intros H. destruct (rgba_valid _ _ _ _ _ H) as (Hr & Hg & Hb & Ha).
  assert (Hc : exists r0 g0 b0 a0,
             r = clamp01 r0 /\ g = clamp01 g0 /\ b = clamp01 b0 /\ a = clamp01 a0).
  { revert H. unfold rgba.
    match goal with |- context [mbind _ ?m] => destruct m as [l|]; [|discriminate] end.
    cbn [mbind res_bind].
    destruct (if (length l =? 3)%nat then (l ++ [f1])%list else l)
      as [|r0 [|g0 [|b0 [|a0 [|]]]]]; try discriminate.
    intros [= <- <- <- <-]. eauto 10. }
  destruct Hc as (r0 & g0 & b0 & a0 & -> & -> & -> & ->).
  assert (Hone : forall v, valid (clamp01 v) = true ->
                           is_nan (clamp01 v) = true \/ unit_interval (clamp01 v)).
  { intros v Hv. destruct (is_nan (clamp01 v)) eqn:Hn; [left; reflexivity|right].
    rewrite <- clamp01_idem. apply clamp01_unit; assumption. }
  repeat (apply List.Forall_cons; [apply Hone; assumption|]). apply List.Forall_nil.
Qed.

(** X3: every channel [rgba] returns is a double from 0 to 1, or a NaN: the
    clamp lets nothing below 0 or above 1 through, but a NaN passes both of
    its tests. *)
Theorem rgba_channels_in_range (color : string) (r g b a : float) :
  rgba color = Ok (r, g, b, a) ->
  Forall (fun c => is_nan c = true \/ unit_interval c) [r; g; b; a].
Proof. apply rgba_channels. Qed.

Lemma rgba_channels_in_range_witness :
  Forall (fun c => is_nan c = true \/ unit_interval c)
    [of_ratio 375 1000; of_ratio 625 1000; of_ratio 75 100; of_ratio 5 10].
Proof. apply (rgba_channels_in_range "hsla(200, 50%, 75%, .5)"). reflexivity. Defined.

(** The NaN is no artefact: a saturation too large for a double makes
    [hsv_to_rgb] multiply an infinity by 0. *)
Example rgba_nan_channel :
  rgba ("hsl(60," +:+ string_of_list_ascii (repeat "9"%char 310) +:+ ",1)")
  = Ok (S754_nan, f1, f0, f1).
Proof. vm_compute. reflexivity. Qed.

Lemma raises_only_bind {A B} (m : res A) (f : A -> res B) (errors : list exn) :
  raises_only m errors -> (forall a, m = Ok a -> raises_only (f a) errors) ->
  raises_only (m ≫= f) errors.
Proof.
  intros Hm Hf e. destruct m as [a|e0]; cbn [mbind res_bind].
  - apply Hf. reflexivity.
  - intros [= <-]. apply Hm. reflexivity.
Qed.

Lemma raises_only_Ok {A} (a : A) (errors : list exn) : raises_only (Ok a) errors.
Proof. intros e H. discriminate H. Qed.

Lemma raises_only_weaken {A} (m : res A) (errors errors' : list exn) :
  raises_only m errors -> incl errors errors' -> raises_only m errors'.
Proof. intros Hm Hi e He. apply Hi, Hm, He. Qed.

Lemma int16_raises (s : string) : raises_only (int16 s) [ValueError BadIntLiteral].
Proof.
  intros e. unfold int16.
  destruct (match lstrip s with
            | String "-" t => (true, t)
            | String "+" t => (false, t)
            | _ => (false, lstrip s)
            end) as [neg s2].
  match goal with |- context [match ?s4 with String c _ => _ | EmptyString => _ end] =>
    destruct s4 as [|c rest] end.
  - intros [= <-]. left. reflexivity.
  - destruct (hex_val c); [|intros [= <-]; left; reflexivity].
    destruct (hex_digits 0 (String c rest)) as [v rest'].
    destruct (lstrip rest'); [discriminate|intros [= <-]; left; reflexivity].
Qed.

Lemma pyfloat_raises (s : string) : raises_only (pyfloat s) [ValueError BadFloatLiteral].
Proof.
  intros e. unfold pyfloat. destruct (scan_decimal s false false 0 0) as [[n k]|];
    [discriminate|intros [= <-]; left; reflexivity].
Qed.

Lemma pyindex_raises {A} (l : list A) (i : Z) : raises_only (pyindex l i) [IndexError].
Proof.
  intros e. unfold pyindex. destruct (_ || _); [intros [= <-]; left; reflexivity|].
  destruct (l !! _); [discriminate|intros [= <-]; left; reflexivity].
Qed.

Lemma pyint_raises (f : float) : raises_only (pyint f) [ValueError NanToInt; OverflowError].
Proof.
  intros e. destruct f; cbn [pyint]; try discriminate; intros [= <-]; simpl; auto.
Qed.

Lemma hsv_to_rgb_raises (h s v : float) :
  raises_only (hsv_to_rgb h s v) [ValueError NanToInt; OverflowError].
Proof.
  unfold hsv_to_rgb. destruct (feqb s f0); [apply raises_only_Ok|].
  apply raises_only_bind; [apply pyint_raises|]. intros i _. apply raises_only_Ok.
Qed.

Lemma convert_tokens_raises (conv : nat -> string -> res float) (errors : list exn) :
  (forall i v, raises_only (conv i v) errors) ->
  forall toks i, raises_only (convert_tokens conv i toks) errors.
Proof.
  intros Hconv toks. induction toks as [|v rest IH]; intros i; cbn [convert_tokens].
  - apply raises_only_Ok.
  - apply raises_only_bind; [apply Hconv|]. intros x _.
    apply raises_only_bind; [apply IH|]. intros xs _. apply raises_only_Ok.
Qed.

Lemma component_raises (i : nat) (v : string) :
  raises_only (rgb_component i v) [ValueError BadFloatLiteral]
  /\ raises_only (hsl_component i v) [ValueError BadFloatLiteral].
Proof.
  unfold rgb_component, hsl_component. split.
  - destruct (strip_percent v) as [body|].
    + apply raises_only_bind; [apply pyfloat_raises|intros; apply raises_only_Ok].
    + destruct (i <? 3)%nat; [|apply pyfloat_raises].
      apply raises_only_bind; [apply pyfloat_raises|intros; apply raises_only_Ok].
  - destruct (strip_percent v) as [body|].
    + apply raises_only_bind; [apply pyfloat_raises|intros; apply raises_only_Ok].
    + destruct (i =? 0)%nat; [|apply pyfloat_raises].
      apply raises_only_bind; [apply pyfloat_raises|intros; apply raises_only_Ok].
Qed.

Ltac in_list := unfold incl, rgba_errors; cbn [In]; intros ? ?; intuition congruence.

Lemma rgba_raises (color : string) : raises_only (rgba color) rgba_errors.
Proof.
  unfold rgba. apply raises_only_bind.
  - destruct (startswith "#" color).
    + destruct (String.length color =? 7)%nat;
        [|destruct (String.length color =? 4)%nat; [|apply raises_only_Ok]];
        repeat (apply raises_only_bind;
                [eapply raises_only_weaken; [apply int16_raises|in_list]|intros ? _]);
        apply raises_only_Ok.
    + destruct (_ || _).
      * apply raises_only_bind;
          [eapply raises_only_weaken; [apply pyindex_raises|in_list]|intros args _].
        eapply raises_only_weaken;
          [apply convert_tokens_raises; intros i v; apply component_raises|in_list].
      * destruct (_ || _).
        -- apply raises_only_bind;
             [eapply raises_only_weaken; [apply pyindex_raises|in_list]|intros args _].
           apply raises_only_bind.
           { eapply raises_only_weaken;
               [apply convert_tokens_raises; intros i v; apply component_raises|in_list]. }
           intros result _.
           repeat (apply raises_only_bind;
             [eapply raises_only_weaken; [apply pyindex_raises|in_list]|intros ? _]).
           apply raises_only_bind;
             [eapply raises_only_weaken; [apply hsv_to_rgb_raises|in_list]|].
           intros [[r g] b] _. apply raises_only_Ok.
        -- destruct (_colornames !! color); apply raises_only_Ok.
  - intros l _ e.
    destruct (if (length l =? 3)%nat then (l ++ [f1])%list else l)
      as [|r0 [|g0 [|b0 [|a0 [|]]]]]; try discriminate;
      intros [= <-]; left; reflexivity.
Qed.

(** X4: [rgba] raises a [ValueError] (its own, or that of [int], of
    [float] or of the [int] in [hsv_to_rgb]), an [IndexError] or an
    [OverflowError], and nothing else: no [TypeError], no
    [ZeroDivisionError]. *)
Theorem rgba_raises_only (color : string) : raises_only (rgba color) rgba_errors.
Proof. apply rgba_raises. Qed.

Lemma rgba_raises_only_witness : In (ValueError BadIntLiteral) rgba_errors.
Proof. apply (rgba_raises_only "#ggg"). reflexivity. Defined.

(** The two errors of [int] in [hsv_to_rgb] are reached: a hue too large for
    a double is a NaN after [% 1], and an infinity when it is a percentage. *)
Example rgba_hue_nan :
  rgba ("hsl(" +:+ string_of_list_ascii (repeat "9"%char 310) +:+ ",1,1)")
  = Raise (ValueError NanToInt).
Proof. vm_compute. reflexivity. Qed.

Example rgba_hue_overflow :
  rgba ("hsl(" +:+ string_of_list_ascii (repeat "9"%char 312) +:+ "%,1,1)")
  = Raise OverflowError.
Proof. vm_compute. reflexivity. Qed.

End RgbaRange.

(** ** name on any channels *)

Section NameTotal.

Ltac by_bytes :=
  match goal with
  | |- forall k : Z, 0 <= k <= 255 -> @?P k =>
      apply (forall_bytes P); vm_compute; reflexivity
  end.

Lemma name_clamped (r g b a : float) :
  name r g b a = name (clamp01 r) (clamp01 g) (clamp01 b) a.
Proof. unfold name. rewrite !clamp01_idem. reflexivity. Qed.

Lemma fmt_arg_nan (v : float) : is_nan v = true -> fmt_arg (fmul f255 v) = Raise TypeError.
Proof. destruct v; try discriminate. reflexivity. Qed.

Lemma fmt_arg_channel (v : float) :
  valid v = true ->
  if is_nan v then fmt_arg (fmul f255 (clamp01 v)) = Raise TypeError
  else exists k, 0 <= k <= 255 /\ fmt_arg (fmul f255 (clamp01 v)) = Ok k.
Proof.
  intros Hv. destruct (is_nan v) eqn:Hn.
  - apply fmt_arg_nan. rewrite clamp01_is_nan. exact Hn.
  - destruct (channel_byte _ (clamp01_unit v Hv Hn)) as (k & Hk & _ & Hf & _).
    exists k. split; assumption.
Qed.

Lemma name_on_doubles (r g b a : float) :
  valid r = true -> valid g = true -> valid b = true ->
  if is_nan r || is_nan g || is_nan b then name r g b a = Raise TypeError
  else exists R G B : Z,
      (0 <= R <= 255 /\ 0 <= G <= 255 /\ 0 <= B <= 255)
      /\ name r g b a
         = Ok (if fleb f1 (clamp01 a) then hex_color R G B
               else "rgba(" +:+ fmt_d R +:+ "," +:+ fmt_d G +:+ "," +:+ fmt_d B +:+ ","
                      +:+ fmt_0_2f (clamp01 a) +:+ ")").
Proof.
  intros Hr Hg Hb.
  pose proof (fmt_arg_channel r Hr) as HR.
  pose proof (fmt_arg_channel g Hg) as HG.
  pose proof (fmt_arg_channel b Hb) as HB.
  unfold name.
  destruct (is_nan r).
  { cbn [orb]. rewrite HR. destruct (fleb f1 (clamp01 a)); reflexivity. }
  destruct HR as (R & HRr & ->).
  destruct (is_nan g).
  { cbn [orb]. rewrite HG. destruct (fleb f1 (clamp01 a)); reflexivity. }
  destruct HG as (G & HGr & ->).
  destruct (is_nan b).
  { cbn [orb]. rewrite HB. destruct (fleb f1 (clamp01 a)); reflexivity. }
  destruct HB as (B & HBr & ->).
  cbn [orb]. exists R, G, B. split; [auto|].
  destruct (fleb f1 (clamp01 a)); cbn [mbind res_bind]; [|reflexivity].
  rewrite re_sub_short_bytes by assumption. reflexivity.
Qed.

(** X5: on doubles [name] fails in one way only: it raises [TypeError] when
    one of the three colour channels is a NaN, whatever the alpha; otherwise
    it returns a string, the hexadecimal form of three bytes when the alpha
    is at least 1 and an [rgba(...)] form of three bytes when it is not (a
    NaN alpha included). *)
Theorem name_fails_on_nan_only (r g b a : float) :
  valid r = true -> valid g = true -> valid b = true ->
  if is_nan r || is_nan g || is_nan b then name r g b a = Raise TypeError
  else exists R G B : Z,
      (0 <= R <= 255 /\ 0 <= G <= 255 /\ 0 <= B <= 255)
      /\ name r g b a
         = Ok (if fleb f1 (clamp01 a) then hex_color R G B
               else "rgba(" +:+ fmt_d R +:+ "," +:+ fmt_d G +:+ "," +:+ fmt_d B +:+ ","
                      +:+ fmt_0_2f (clamp01 a) +:+ ")").
Proof. apply name_on_doubles. Qed.

Lemma name_fails_on_nan_only_witness :
  name (of_ratio 3 10) S754_nan f0 (of_ratio 1 2) = Raise TypeError.
Proof.
  apply (name_fails_on_nan_only (of_ratio 3 10) S754_nan f0 (of_ratio 1 2));
    reflexivity.
Defined.

Example name_nan_alpha : name f1 f0 f0 S754_nan = Ok "rgba(255,0,0,nan)".
Proof. vm_compute. reflexivity. Qed.

Lemma fmt_arg_byte_channel (k : Z) :
  0 <= k <= 255 -> fmt_arg (fmul f255 (byte_channel k)) = Ok k.
Proof. revert k. by_bytes. Qed.

Lemma name_byte_channels (R G B : Z) :
  0 <= R <= 255 -> 0 <= G <= 255 -> 0 <= B <= 255 ->
  name (byte_channel R) (byte_channel G) (byte_channel B) f1 = Ok (hex_color R G B).
Proof.
  intros HR HG HB. unfold name.
  rewrite !byte_channel_clamped by assumption.
  change (fleb f1 (clamp01 f1)) with true. cbv iota.
  rewrite !fmt_arg_byte_channel by assumption. cbn [mbind res_bind].
  rewrite re_sub_short_bytes by assumption. reflexivity.
Qed.

(** X6: an opaque colour that [name] has written is a fixed point of
    parsing and writing again: [rgba] accepts it, with the alpha 1, and
    [name] on the channels it returns gives the same string back. *)
Theorem name_rgba_fixed_point (r g b a : float) (s : string) :
  valid r = true -> valid g = true -> valid b = true ->
  fleb f1 a = true ->
  name r g b a = Ok s ->
  exists r' g' b' : float,
    rgba s = Ok (r', g', b', f1) /\ name r' g' b' f1 = Ok s.
Proof.
  intros Hr Hg Hb Ha Hs.
  pose proof (name_on_doubles r g b a Hr Hg Hb) as H.
  destruct (is_nan r || is_nan g || is_nan b); [congruence|].
  destruct H as (R & G & B & (HR & HG & HB) & Hname).
  assert (Hca : fleb f1 (clamp01 a) = true).
  { unfold clamp01.
    assert (fltb a f0 = false) as ->
      by (destruct a as [sa|[]| |[] m e]; try reflexivity; discriminate).
    destruct (fltb f1 a); [reflexivity|exact Ha]. }
  rewrite Hca in Hname. rewrite Hname in Hs. injection Hs as <-.
  exists (byte_channel R), (byte_channel G), (byte_channel B).
  split; [apply rgba_hex_color; assumption|apply name_byte_channels; assumption].
Qed.

Lemma name_rgba_fixed_point_witness :
  exists r' g' b' : float,
    rgba "#4cff00" = Ok (r', g', b', f1) /\ name r' g' b' f1 = Ok "#4cff00".
Proof.
  apply (name_rgba_fixed_point (of_ratio 3 10) f1 f0 f1 "#4cff00"); reflexivity.
Defined.

End NameTotal.

(** ** _rgb *)

Section OldRgb.

Lemma str_slice_seven (c0 c1 c2 c3 c4 c5 c6 : ascii) :
  let s := String c0 (String c1 (String c2 (String c3 (String c4 (String c5
             (String c6 EmptyString)))))) in
  str_slice s (Some (-6)) (Some (-4)) = Ok (String c1 (String c2 EmptyString))
  /\ str_slice s (Some (-4)) (Some (-2)) = Ok (String c3 (String c4 EmptyString))
  /\ str_slice s (Some (-2)) None = Ok (String c5 (String c6 EmptyString)).
Proof. repeat split; reflexivity. Qed.

(** X7: on a [#] and six characters [rgba] is [_rgb] divided by 255 and
    clamped: the same three [int(.., 16)] on the same pairs of characters,
    failing alike.  (The clamp matters: [int('-f', 16)] is -15.) *)
Theorem rgba_of_old_rgb (s : string) :
  String.length s = 7%nat -> startswith "#" s = true ->
  rgba s = ('(r, g, b) ← _rgb s;
            Ok (clamp01 (fdiv (of_Z r) f255), clamp01 (fdiv (of_Z g) f255),
                clamp01 (fdiv (of_Z b) f255), f1)).
Proof.
  intros Hlen Hs. destruct (functional_prefix _ _ _ Hs) as [t ->]. clear Hs.
  destruct t as [|c1 [|c2 [|c3 [|c4 [|c5 [|c6 [|c7 t]]]]]]]; try discriminate Hlen.
  rewrite rgba_seven. unfold _rgb.
  destruct (str_slice_seven "#" c1 c2 c3 c4 c5 c6) as (-> & -> & ->).
  cbn [mbind res_bind].
  destruct (int16 (String c1 (String c2 EmptyString))); [|reflexivity].
  destruct (int16 (String c3 (String c4 EmptyString))); [|reflexivity].
  destruct (int16 (String c5 (String c6 EmptyString))); reflexivity.
Qed.

Lemma rgba_of_old_rgb_witness :
  rgba "#4f81bd"
  = ('(r, g, b) ← _rgb "#4f81bd";
     Ok (clamp01 (fdiv (of_Z r) f255), clamp01 (fdiv (of_Z g) f255),
         clamp01 (fdiv (of_Z b) f255), f1)).
Proof. apply (rgba_of_old_rgb "#4f81bd"); reflexivity. Defined.

Example rgba_signed_digits : rgba "#-f+f0f" = Ok (f0, of_ratio 15 255, of_ratio 15 255, f1).
Proof. vm_compute. reflexivity. Qed.

(** X8: the three-digit form that [rgba] reads is an error for [_rgb], as is
    every string of at most four characters: [color[-6:-4]] is empty, and
    [int('', 16)] raises [ValueError]. *)
Theorem old_rgb_rejects_short (s : string) :
  (String.length s <= 4)%nat -> _rgb s = Raise (ValueError BadIntLiteral).
Proof.
  intros Hlen.
  destruct s as [|c0 [|c1 [|c2 [|c3 [|c4 t]]]]]; try reflexivity.
  simpl in Hlen. lia.
Qed.

Lemma old_rgb_rejects_short_witness : _rgb "#fff" = Raise (ValueError BadIntLiteral).
Proof. apply (old_rgb_rejects_short "#fff"). simpl. lia. Defined.

Lemma pyslice_suffix {A} (l1 l2 : list A) (a : Z) (stop : option Z) :
  - Z.of_nat (length l2) <= a < 0 ->
  match stop with Some b => a <= b < 0 | None => True end ->
  pyslice (l1 ++ l2) (Some a) stop None = pyslice l2 (Some a) stop None.
Proof.
  intros Ha Hb. unfold pyslice. cbn [default]. change (1 =? 0) with false.
  change (1 <? 0) with false. cbv iota. cbn [andb orb].
  rewrite length_app, Nat2Z.inj_add.
  set (n1 := Z.of_nat (length l1)). set (n2 := Z.of_nat (length l2)).
  assert (Hn1 : 0 <= n1) by lia.
  assert (Hlo : slice_bound (n1 + n2) 1 0 (Some a) = n1 + slice_bound n2 1 0 (Some a)).
  { unfold slice_bound. change (1 <? 0) with false. cbv iota.
    destruct (Z.ltb_spec a 0); [|lia].
    destruct (Z.ltb_spec (a + (n1 + n2)) 0); [lia|].
    destruct (Z.ltb_spec (a + n2) 0); [lia|].
    destruct (Z.leb_spec (n1 + n2) (a + (n1 + n2))); [lia|].
    destruct (Z.leb_spec n2 (a + n2)); lia. }
  assert (Hhi : slice_bound (n1 + n2) 1 (n1 + n2) stop = n1 + slice_bound n2 1 n2 stop).
  { unfold slice_bound. change (1 <? 0) with false. cbv iota.
    destruct stop as [b|]; [|reflexivity].
    destruct (Z.ltb_spec b 0); [|lia].
    destruct (Z.ltb_spec (b + (n1 + n2)) 0); [lia|].
    destruct (Z.ltb_spec (b + n2) 0); [lia|].
    destruct (Z.leb_spec (n1 + n2) (b + (n1 + n2))); [lia|].
    destruct (Z.leb_spec n2 (b + n2)); lia. }
  rewrite Hlo, Hhi.
  set (lo := slice_bound n2 1 0 (Some a)). set (hi := slice_bound n2 1 n2 stop).
  assert (Hlo0 : 0 <= lo).
  { unfold lo, slice_bound. change (1 <? 0) with false. cbv iota.
    destruct (Z.ltb_spec a 0); [|lia].
    destruct (Z.ltb_spec (a + n2) 0); [lia|].
    destruct (Z.leb_spec n2 (a + n2)); lia. }
  replace (n1 + hi <=? n1 + lo) with (hi <=? lo) by (destruct (Z.leb_spec hi lo), (Z.leb_spec (n1 + hi) (n1 + lo)); lia).
  replace (n1 + hi - (n1 + lo) - 1) with (hi - lo - 1) by lia.
  f_equal.
  generalize (seq 0 (Z.to_nat (if (0 <? 1) && (hi <=? lo) then 0
                               else (hi - lo - 1) ÷ 1 + 1))).
  intros ks. induction ks as [|k ks IH]; [reflexivity|].
  cbn [omap list_omap]. fold (@omap list _ nat A).
  replace (Z.to_nat (n1 + lo + Z.of_nat k * 1))
    with (length l1 + Z.to_nat (lo + Z.of_nat k * 1))%nat by lia.
  rewrite lookup_app_r by lia.
  replace (length l1 + Z.to_nat (lo + Z.of_nat k * 1) - length l1)%nat
    with (Z.to_nat (lo + Z.of_nat k * 1)) by lia.
  rewrite IH. reflexivity.
Qed.

Lemma str_slice_suffix (p s : string) (a : Z) (stop : option Z) :
  - Z.of_nat (String.length s) <= a < 0 ->
  match stop with Some b => a <= b < 0 | None => True end ->
  str_slice (p +:+ s) (Some a) stop = str_slice s (Some a) stop.
Proof.
  intros Ha Hb. unfold str_slice.
  assert (Happ : list_ascii_of_string (p +:+ s)
                 = (list_ascii_of_string p ++ list_ascii_of_string s)%list).
  { induction p as [|c p IH]; [reflexivity|]. cbn. rewrite <- IH. reflexivity. }
  rewrite Happ, pyslice_suffix; [reflexivity| |exact Hb].
  assert (Hl : length (list_ascii_of_string s) = String.length s).
  { clear. induction s as [|c s IH]; [reflexivity|]. cbn. rewrite IH. reflexivity. }
  rewrite Hl. exact Ha.
Qed.

(** X9: [_rgb] looks at the last six characters only: whatever precedes
    them, a [#] or anything else or nothing, changes neither the bytes nor
    the error. *)
Theorem old_rgb_reads_last_six (p s : string) :
  String.length s = 6%nat -> _rgb (p +:+ s) = _rgb s.
Proof.
  intros Hlen. unfold _rgb.
  rewrite !str_slice_suffix; try reflexivity; try exact I; rewrite ?Hlen; lia.
Qed.

Lemma old_rgb_reads_last_six_witness : _rgb ("#" +:+ "ff8000") = _rgb "ff8000".
Proof. apply (old_rgb_reads_last_six "#" "ff8000"). reflexivity. Defined.

End OldRgb.

(** ** A difference is zero for equal doubles only *)

Section Difference.

(** A rounded mantissa is zero only if nothing is left of it before the
    rounding. *)
Lemma binary_round_aux_zero (s : bool) (m e : Z) (l : location) :
  0 <= m -> e <= fexp prec emax (Zdigits2 m + e) ->
  is_zero (binary_round_aux prec emax s m e l) = true ->
  m / 2 ^ (fexp prec emax (Zdigits2 m + e) - e) = 0.
Proof.
  intros Hm He. rewrite fexp_eq in He |- *.
  unfold binary_round_aux, shr_fexp. rewrite fexp_eq.
  set (e1 := Z.max (Zdigits2 m + e - 53) (-1074)) in *.
  set (n := e1 - e) in *.
  destruct (shr_m_shift (shr_record_of_loc m l) e n) as [Hq He1];
    [rewrite shr_record_of_loc_m; exact Hm|unfold n; lia|].
  destruct (shr (shr_record_of_loc m l) e n) as [mrs' e'].
  cbn [fst snd] in Hq, He1. rewrite shr_record_of_loc_m in Hq.
  assert (He' : e' = e1) by (unfold n; lia). clear He1. subst e'.
  pose proof (rne_range (shr_m mrs') (loc_of_shr_record mrs')) as HN.
  set (N := round_nearest_even (shr_m mrs') (loc_of_shr_record mrs')) in *.
  rewrite Hq in HN. clear Hq.
  assert (Hn : 0 <= n) by (unfold n; lia).
  assert (Hp : 0 < 2 ^ n) by (apply Z.pow_pos_nonneg; lia).
  assert (Hq0 : 0 <= m / 2 ^ n) by (apply Z.div_pos; lia).
  assert (He1 : -1074 <= e1) by (unfold e1; lia).
  change (shr (shr_record_of_loc N loc_Exact) e1
            (fexp prec emax (Zdigits2 N + e1) - e1))
    with (shr_fexp prec emax N e1 loc_Exact).
  destruct (Z_lt_le_dec N (2 ^ 53)) as [HNlt|HNge].
  - rewrite shr_fexp_exact by lia. cbn [shr_m].
    destruct N as [|pn|pn] eqn:EN; [intros _; lia| |lia].
    destruct (e1 <=? emax - prec); discriminate.
  - (* the mantissa has more than 53 bits: it stays positive *)
    unfold shr_fexp. rewrite fexp_eq. cbn [shr_record_of_loc].
    destruct (shr_m_shift {| shr_m := N; shr_r := false; shr_s := false |} e1
                (Z.max (Zdigits2 N + e1 - 53) (-1074) - e1)) as [Hq2 _];
      [cbn [shr_m]; lia| |].
    { assert (0 < N) by lia. pose proof (Zdigits2_bounds N ltac:(lia)) as [_ Hhi].
      assert (53 < Zdigits2 N) by (apply pow2_lt_inv; [pose proof (Zdigits2_pos N); lia|lia]).
      lia. }
    destruct (shr _ e1 _) as [mrs'' e'']. cbn [fst shr_m] in Hq2. rewrite Hq2.
    assert (HNpos : 0 < N) by lia.
    pose proof (Zdigits2_bounds N HNpos) as [Hlo Hhi].
    assert (Hd : 53 < Zdigits2 N) by (apply pow2_lt_inv; [pose proof (Zdigits2_pos N); lia|lia]).
    set (n2 := Z.max (Zdigits2 N + e1 - 53) (-1074) - e1).
    assert (Hn2 : n2 = Zdigits2 N - 53) by (unfold n2; lia).
    assert (Hpos : 2 ^ 52 <= N / 2 ^ n2).
    { apply Z.div_le_lower_bound; [apply Z.pow_pos_nonneg; lia|].
      rewrite <- Z.pow_add_r by lia.
      replace (n2 + 52) with (Zdigits2 N - 1) by lia. exact Hlo. }
    destruct (N / 2 ^ n2) as [|pq|pq]; [lia| |lia].
    destruct (e'' <=? emax - prec); discriminate.
Qed.

Lemma binary_round_nonzero (s : bool) (m : positive) (e : Z) :
  -1074 <= e -> is_zero (binary_round prec emax s m e) = false.
Proof.
  intros He.
  destruct (is_zero (binary_round prec emax s m e)) eqn:E; [exfalso|reflexivity].
  revert E. unfold binary_round, shl_align. rewrite fexp_eq.
  pose proof (digits2_bounds m) as [Hlo Hhi].
  set (d := Zpos (digits2_pos m)) in *.
  destruct (Z.max (d + e - 53) (-1074) - e) as [|k|k] eqn:Hk; intros E.
  - apply binary_round_aux_zero in E; [|lia|rewrite fexp_eq; cbn [Zdigits2]; fold d; lia].
    rewrite fexp_eq in E. cbn [Zdigits2] in E. fold d in E. rewrite Hk in E.
    simpl in E. rewrite Z.div_1_r in E. lia.
  - apply binary_round_aux_zero in E; [|lia|rewrite fexp_eq; cbn [Zdigits2]; fold d; lia].
    rewrite fexp_eq in E. cbn [Zdigits2] in E. fold d in E. rewrite Hk in E.
    assert (Hkd : Zpos k = d - 53) by lia.
    assert (2 ^ 52 <= Zpos m / 2 ^ Zpos k).
    { apply Z.div_le_lower_bound; [apply Z.pow_pos_nonneg; lia|].
      rewrite <- Z.pow_add_r by lia.
      replace (Zpos k + 52) with (d - 1) by lia. exact Hlo. }
    lia.
  - apply binary_round_aux_zero in E;
      [|lia|rewrite fexp_eq; cbn [Zdigits2]; rewrite iter_xO_digits; fold d; lia].
    rewrite fexp_eq in E. cbn [Zdigits2] in E. rewrite iter_xO_digits in E.
    replace (Z.max (Zpos (digits2_pos m + k) + Z.max (d + e - 53) (-1074) - 53) (-1074)
             - Z.max (d + e - 53) (-1074)) with 0 in E by (fold d; lia).
    simpl in E. rewrite Z.div_1_r in E. lia.
Qed.

Lemma shl_align_value (m : positive) (e ez : Z) :
  ez <= e -> Zpos (fst (shl_align m e ez)) = Zpos m * 2 ^ (e - ez).
Proof.
  intros H. unfold shl_align.
  destruct (ez - e) as [|k|k] eqn:Hk; cbn [fst].
  - replace (e - ez) with 0 by lia. simpl. lia.
  - lia.
  - rewrite iter_xO_pow. f_equal. f_equal. lia.
Qed.

(** Two doubles of the same sign and value are the same double. *)
Lemma aligned_equal (mx my : positive) (ex ey : Z) :
  bounded prec emax mx ex = true -> bounded prec emax my ey = true ->
  Zpos mx * 2 ^ (ex - Z.min ex ey) = Zpos my * 2 ^ (ey - Z.min ex ey) ->
  ex = ey /\ mx = my.
Proof.
  intros Hx Hy Heq.
  apply bounded_canonical in Hx as [Hx _]. apply bounded_canonical in Hy as [Hy _].
  pose proof (digits2_bounds mx) as [Hlx Hhx]. pose proof (digits2_bounds my) as [Hly Hhy].
  set (dx := Zpos (digits2_pos mx)) in *. set (dy := Zpos (digits2_pos my)) in *.
  assert (Hdx : 0 < dx) by (unfold dx; lia). assert (Hdy : 0 < dy) by (unfold dy; lia).
  assert (Hsame : dx + ex = dy + ey).
  { destruct (Z_le_gt_dec ex ey) as [Hle|Hgt].
    - rewrite Z.min_l in Heq by lia. rewrite Z.sub_diag, Z.mul_1_r in Heq.
      set (k := ey - ex) in *. assert (Hk : 0 <= k) by (unfold k; lia).
      assert (H1 : dy + k - 1 < dx).
      { apply pow2_lt_inv; [lia|]. eapply Z.le_lt_trans; [|exact Hhx].
        rewrite Heq. replace (dy + k - 1) with ((dy - 1) + k) by lia.
        rewrite Z.pow_add_r by lia.
        apply Z.mul_le_mono_nonneg_r; [apply Z.pow_nonneg; lia|exact Hly]. }
      assert (H2 : dx - 1 < dy + k).
      { apply pow2_lt_inv; [lia|]. eapply Z.le_lt_trans; [exact Hlx|].
        rewrite Heq, Z.pow_add_r by lia.
        apply Z.mul_lt_mono_pos_r; [apply Z.pow_pos_nonneg; lia|exact Hhy]. }
      unfold k in *. lia.
    - rewrite Z.min_r in Heq by lia. rewrite Z.sub_diag, Z.mul_1_r in Heq.
      set (k := ex - ey) in *. assert (Hk : 0 <= k) by (unfold k; lia).
      assert (H1 : dx + k - 1 < dy).
      { apply pow2_lt_inv; [lia|]. eapply Z.le_lt_trans; [|exact Hhy].
        rewrite <- Heq. replace (dx + k - 1) with ((dx - 1) + k) by lia.
        rewrite Z.pow_add_r by lia.
        apply Z.mul_le_mono_nonneg_r; [apply Z.pow_nonneg; lia|exact Hlx]. }
      assert (H2 : dy - 1 < dx + k).
      { apply pow2_lt_inv; [lia|]. eapply Z.le_lt_trans; [exact Hly|].
        rewrite <- Heq, Z.pow_add_r by lia.
        apply Z.mul_lt_mono_pos_r; [apply Z.pow_pos_nonneg; lia|exact Hhx]. }
      unfold k in *. lia. }
  assert (He : ex = ey) by lia.
  split; [exact He|]. subst ey.
  rewrite Z.min_id, Z.sub_diag, !Z.mul_1_r in Heq. lia.
Qed.

Lemma feqb_finite_refl (s : bool) (m : positive) (e : Z) :
  feqb (S754_finite s m e) (S754_finite s m e) = true.
Proof.
  unfold feqb, SFeqb. cbn [SFcompare].
  destruct s; rewrite Z.compare_refl;
    change (Pos.compare_cont Eq m m) with (m ?= m)%positive;
    rewrite Pos.compare_refl; reflexivity.
Qed.

(** The difference of two doubles is zero only if they compare equal:
    gradual underflow. *)
Lemma fsub_zero (x y : float) :
  valid x = true -> valid y = true ->
  is_zero (fsub x y) = true -> feqb y x = true.
Proof.
  intros Hx Hy. unfold fsub.
  destruct x as [sx|sx| |sx mx ex], y as [sy|sy| |sy my ey];
    try (destruct sx, sy; discriminate); try discriminate;
    try (intros _; reflexivity).
  cbn [SFsub]. unfold valid in Hx, Hy. cbn [valid_binary] in Hx, Hy.
  pose proof (bounded_canonical _ _ Hx) as [Hcx _].
  pose proof (bounded_canonical _ _ Hy) as [Hcy _].
  set (ez := Z.min ex ey).
  assert (Hez : -1074 <= ez) by (unfold ez; lia).
  pose proof (shl_align_value mx ex ez ltac:(unfold ez; lia)) as Hvx.
  pose proof (shl_align_value my ey ez ltac:(unfold ez; lia)) as Hvy.
  assert (Hpx : 0 < 2 ^ (ex - ez)) by (apply Z.pow_pos_nonneg; unfold ez; lia).
  assert (Hpy : 0 < 2 ^ (ey - ez)) by (apply Z.pow_pos_nonneg; unfold ez; lia).
  unfold binary_normalize.
  destruct (cond_Zopp sx (Zpos (fst (shl_align mx ex ez)))
            - cond_Zopp sy (Zpos (fst (shl_align my ey ez)))) as [|p|p] eqn:Hd;
    [|rewrite binary_round_nonzero by exact Hez; discriminate..].
  intros _.
  assert (Hs : sx = sy).
  { destruct sx, sy; cbn [cond_Zopp] in Hd; try reflexivity; lia. }
  subst sy.
  assert (Hv : Zpos mx * 2 ^ (ex - ez) = Zpos my * 2 ^ (ey - ez)).
  { rewrite <- Hvx, <- Hvy. destruct sx; cbn [cond_Zopp] in Hd; lia. }
  destruct (aligned_equal mx my ex ey Hx Hy Hv) as [-> ->].
  apply feqb_finite_refl.
Qed.

End Difference.

(** ** hsla, contrast and brighten *)

Section Derived.

Ltac by_bytes :=
  match goal with
  | |- forall k : Z, 0 <= k <= 255 -> @?P k =>
      apply (forall_bytes P); vm_compute; reflexivity
  end.

Lemma feqb_refl (x : float) : is_nan x = false -> feqb x x = true.
Proof.
  destruct x as [s|s| |s m e]; try discriminate; intros _;
    [reflexivity|destruct s; reflexivity|apply feqb_finite_refl].
Qed.

Lemma pymax_valid (a b : float) : valid a = true -> valid b = true -> valid (pymax a b) = true.
Proof. intros Ha Hb. unfold pymax. destruct (fltb a b); assumption. Qed.

Lemma pymin_valid (a b : float) : valid a = true -> valid b = true -> valid (pymin a b) = true.
Proof. intros Ha Hb. unfold pymin. destruct (fltb b a); assumption. Qed.

(** Among channels that are not negative, a largest one that is zero is
    also the smallest. *)
Lemma maxc_zero (r g b : float) :
  fltb r f0 = false -> fltb g f0 = false -> fltb b f0 = false ->
  is_zero (pymax (pymax r g) b) = true ->
  feqb (pymin (pymin r g) b) (pymax (pymax r g) b) = true.
Proof.
  destruct r as [sr|[]| |[] mr er], g as [sg|[]| |[] mg eg], b as [sb|[]| |[] mb eb];
    try discriminate; intros _ _ _; unfold pymax, pymin;
    repeat match goal with
      | |- context [fltb ?x ?y] =>
          let E := fresh "E" in
          destruct (fltb x y) eqn:E; try (cbn in E; discriminate E)
      end;
    try discriminate; intros _; reflexivity.
Qed.

Lemma channel_not_negative (c : float) :
  is_nan c = true \/ unit_interval c -> valid c = true /\ fltb c f0 = false.
Proof.
  intros [Hn|(Hv & H0 & _)].
  - destruct c; try discriminate. split; reflexivity.
  - split; [exact Hv|apply fleb_fltb_flip, H0].
Qed.

(** [rgb_to_hsv] divides by the largest channel and by the spread of the
    channels, and neither is zero when it gets there. *)
Lemma rgb_to_hsv_ok (r g b : float) :
  valid r = true -> valid g = true -> valid b = true ->
  fltb r f0 = false -> fltb g f0 = false -> fltb b f0 = false ->
  exists h s,
    rgb_to_hsv r g b = Ok (h, s, pymax (pymax r g) b)
    /\ valid h = true /\ valid s = true.
Proof.
  intros Hr Hg Hb Nr Ng Nb. unfold rgb_to_hsv.
  set (maxc := pymax (pymax r g) b). set (minc := pymin (pymin r g) b).
  assert (Hmax : valid maxc = true) by (repeat apply pymax_valid; assumption).
  assert (Hmin : valid minc = true) by (repeat apply pymin_valid; assumption).
  destruct (feqb minc maxc) eqn:Heq; [exists f0, f0; auto|].
  assert (Hz1 : is_zero maxc = false).
  { destruct (is_zero maxc) eqn:E; [|reflexivity].
    pose proof (maxc_zero r g b Nr Ng Nb E) as H. fold maxc minc in H. congruence. }
  assert (Hz2 : is_zero (fsub maxc minc) = false).
  { destruct (is_zero (fsub maxc minc)) eqn:E; [|reflexivity].
    pose proof (fsub_zero _ _ Hmax Hmin E). congruence. }
  unfold pydiv. rewrite Hz1, Hz2. cbn [mbind res_bind].
  eexists _, _. split; [reflexivity|].
  split; [apply pymod1_valid|apply fdiv_valid].
Qed.

(** X10: [hsla] fails exactly as [rgba] does, never on a division by zero
    of its own; when [rgba] returns, [hsla] returns the largest channel as
    the value and the alpha unchanged. *)
Theorem hsla_fails_as_rgba (color : string) :
  match rgba color with
  | Ok (r, g, b, a) => exists h s, hsla color = Ok (h, s, pymax (pymax r g) b, a)
  | Raise e => hsla color = Raise e
  end.
Proof.
  unfold hsla. destruct (rgba color) as [[[[r g] b] a]|e] eqn:E; [|reflexivity].
  pose proof (rgba_channels _ _ _ _ _ E) as Hall.
  inversion Hall as [|? ? Hr Hall1]; subst. inversion Hall1 as [|? ? Hg Hall2]; subst.
  inversion Hall2 as [|? ? Hb _]; subst.
  apply channel_not_negative in Hr as [Hr Nr], Hg as [Hg Ng], Hb as [Hb Nb].
  destruct (rgb_to_hsv_ok r g b Hr Hg Hb Nr Ng Nb) as (h & s & Hhsv & _).
  cbn [mbind res_bind]. rewrite Hhsv. cbn [mbind res_bind]. eauto.
Qed.

Lemma rgb_to_hsv_grey (v : float) :
  is_nan v = false -> rgb_to_hsv v v v = Ok (f0, f0, v).
Proof.
  intros Hn. unfold rgb_to_hsv, pymax, pymin.
  rewrite !fltb_irrefl, feqb_refl by exact Hn. reflexivity.
Qed.

(** X11: a grey has the hue 0 and the saturation 0: when the three channels
    of a colour are the same number, [hsla] returns [(0, 0, v, alpha)]. *)
Theorem hsla_grey (color : string) (v a : float) :
  rgba color = Ok (v, v, v, a) -> is_nan v = false ->
  hsla color = Ok (f0, f0, v, a).
Proof.
  intros H Hn. unfold hsla. rewrite H. cbn [mbind res_bind].
  rewrite rgb_to_hsv_grey by exact Hn. reflexivity.
Qed.

Lemma hsla_grey_witness :
  hsla "hsla(360, 0%, 50%, .5)" = Ok (f0, f0, of_ratio 5 10, of_ratio 5 10).
Proof. apply (hsla_grey "hsla(360, 0%, 50%, .5)"); reflexivity. Defined.

(** X12: [contrast] fails exactly as [rgba] does; otherwise it returns
    ['#000'] or ['#fff'], and the contrast of what it returns is the other
    of the two. *)
Theorem contrast_black_or_white (color : string) :
  match rgba color with
  | Ok _ =>
      exists s, contrast color = Ok s
                /\ (s = "#000" \/ s = "#fff")
                /\ contrast s = Ok (opposite s)
  | Raise e => contrast color = Raise e
  end.
Proof.
  destruct (rgba color) as [[[[r g] b] a]|e] eqn:E;
    [|unfold contrast; rewrite E; reflexivity].
  assert (H : exists s, contrast color = Ok s /\ (s = "#000" \/ s = "#fff")).
  { unfold contrast. rewrite E. cbn [mbind res_bind].
    destruct (fltb _ _); eexists; (split; [reflexivity|auto]). }
  destruct H as (s & Hs & Hcase). exists s. split; [exact Hs|]. split; [exact Hcase|].
  destruct Hcase as [->| ->]; vm_compute; reflexivity.
Qed.

(** X13: on the greys [contrast] switches at 129: the luminosity weights
    add up to 0.99 only, so the middle grey [#808080] still counts as dark. *)
Theorem contrast_grey_threshold (k : Z) :
  0 <= k <= 255 ->
  contrast (grey k) = Ok (if 129 <=? k then "#000" else "#fff").
Proof. revert k. by_bytes. Qed.

Lemma contrast_grey_threshold_witness : contrast (grey 128) = Ok "#fff".
Proof. apply (contrast_grey_threshold 128). lia. Defined.

Lemma clamp_value_unit (x : float) :
  valid x = true -> unit_interval (pymax f0 (pymin f1 x)).
Proof.
  intros Hx. unfold pymin.
  destruct (fltb x f1) eqn:H1.
  - unfold pymax. destruct (fltb f0 x) eqn:H0.
    + split; [exact Hx|]. split; apply fltb_fleb; assumption.
    + repeat split.
  - repeat split.
Qed.

(** X14: whatever it is given, [brighten] returns an opaque colour: the
    hexadecimal form of three bytes.  The alpha of the colour is dropped. *)
Theorem brighten_opaque (color : string) (by_ : float) (s : string) :
  valid by_ = true ->
  brighten color by_ = Ok s ->
  exists R G B : Z,
    (0 <= R <= 255 /\ 0 <= G <= 255 /\ 0 <= B <= 255) /\ s = hex_color R G B.
Proof.
  intros Hby. unfold brighten.
  destruct (rgba color) as [[[[r g] b] a]|e] eqn:E; [|discriminate].
  pose proof (rgba_channels _ _ _ _ _ E) as Hall.
  inversion Hall as [|? ? Hr Hall1]; subst. inversion Hall1 as [|? ? Hg Hall2]; subst.
  inversion Hall2 as [|? ? Hb _]; subst.
  apply channel_not_negative in Hr as [Hr Nr], Hg as [Hg Ng], Hb as [Hb Nb].
  destruct (rgb_to_hsv_ok r g b Hr Hg Hb Nr Ng Nb) as (h & sat & Hhsv & Hh & Hsat).
  cbn [mbind res_bind]. rewrite Hhsv. cbn [mbind res_bind].
  set (v := pymax f0 (pymin f1 (fmul (pymax (pymax r g) b) (fadd f1 by_)))).
  assert (Hv : unit_interval v).
  { apply clamp_value_unit, fmul_valid; [repeat apply pymax_valid; assumption|].
    apply fadd_valid; [reflexivity|exact Hby]. }
  destruct (hsv_to_rgb h sat v) as [[[r' g'] b']|] eqn:Ergb; [|discriminate].
  cbn [mbind res_bind].
  destruct (hsv_to_rgb_valid _ _ _ _ _ _ Hh Hsat (proj1 Hv) Ergb) as (Hr' & Hg' & Hb').
  pose proof (name_on_doubles r' g' b' f1 Hr' Hg' Hb') as Hname.
  destruct (is_nan r' || is_nan g' || is_nan b'); [congruence|].
  destruct Hname as (R & G & B & Hbytes & ->).
  change (fleb f1 (clamp01 f1)) with true. cbv iota.
  intros [= <-]. eauto.
Qed.

Lemma brighten_opaque_witness :
  exists R G B : Z,
    (0 <= R <= 255 /\ 0 <= G <= 255 /\ 0 <= B <= 255) /\ "#5e9ae2" = hex_color R G B.
Proof.
  apply (brighten_opaque "#4f81bd" (of_ratio 2 10) "#5e9ae2"); reflexivity.
Defined.

Lemma byte_channel_unit (k : Z) :
  0 <= k <= 255 ->
  valid (byte_channel k) = true /\ is_nan (byte_channel k) = false.
Proof.
  intros Hk. split; [apply fdiv_valid|].
  revert k Hk. by_bytes.
Qed.

(** X15: brightening or darkening a grey gives a grey, and never fails:
    for every byte [k] and every double [by] (an infinity and a NaN
    included) [brighten] returns the opaque grey of some byte. *)
Theorem brighten_grey (k : Z) (by_ : float) :
  0 <= k <= 255 -> valid by_ = true ->
  exists K : Z, 0 <= K <= 255 /\ brighten (grey k) by_ = Ok (hex_color K K K).
Proof.
  intros Hk Hby. unfold brighten, grey.
  rewrite rgba_six_digits by assumption. cbn [mbind res_bind].
  destruct (byte_channel_unit k Hk) as [Hc Hn].
  set (c := byte_channel k) in *.
  rewrite rgb_to_hsv_grey by exact Hn. cbn [mbind res_bind].
  set (v := pymax f0 (pymin f1 (fmul c (fadd f1 by_)))).
  assert (Hv : unit_interval v).
  { apply clamp_value_unit, fmul_valid; [exact Hc|].
    apply fadd_valid; [reflexivity|exact Hby]. }
  unfold hsv_to_rgb. change (feqb f0 f0) with true. cbn [mbind res_bind].
  destruct (name_opaque_bytes v v v f1 Hv Hv Hv eq_refl)
    as (R & G & B & (HR & _) & (HfR & HfG & HfB) & _ & Hname).
  assert (G = R) by congruence. assert (B = R) by congruence. subst G B.
  exists R. split; assumption.
Qed.

Lemma brighten_grey_witness :
  exists K : Z, 0 <= K <= 255 /\ brighten (grey 128) (of_ratio 5 10) = Ok (hex_color K K K).
Proof. apply (brighten_grey 128 (of_ratio 5 10)); [lia|reflexivity]. Defined.

Example brighten_grey_half : brighten "#808080" (of_ratio 5 10) = Ok "#c0c0c0".
Proof. vm_compute. reflexivity. Qed.

Example brighten_black_nan : brighten "#000" S754_nan = Ok "#fff".
Proof. vm_compute. reflexivity. Qed.

End Derived.

(** ** distinct on every integer *)

Section DistinctAll.

Lemma distinct_nonpos (n : Z) : n <= 0 -> distinct n = Ok [].
Proof.
  intros Hn. unfold distinct. destruct (Z.leb_spec n 10); [|lia].
  unfold range0. replace (Z.to_nat n) with 0%nat by lia. reflexivity.
Qed.

Lemma distinct_clip (n : Z) : distinct n = distinct (Z.max 0 (Z.min n 21)).
Proof.
  destruct (Z_le_gt_dec n 0) as [H0|H0].
  - rewrite (distinct_nonpos n H0). replace (Z.max 0 (Z.min n 21)) with 0 by lia. reflexivity.
  - destruct (Z_le_gt_dec n 21) as [H1|H1].
    + replace (Z.max 0 (Z.min n 21)) with n by lia. reflexivity.
    + rewrite (distinct_above_20 n) by lia.
      replace (Z.max 0 (Z.min n 21)) with 21 by lia. reflexivity.
Qed.

Lemma clip_cases (n : Z) : In (Z.max 0 (Z.min n 21)) (range0 22).
Proof.
  unfold range0. apply in_map_iff.
  exists (Z.to_nat (Z.max 0 (Z.min n 21))). split; [lia|]. apply in_seq. lia.
Qed.

(** X16: [distinct] returns for every integer, the negative ones included
    (an empty list); its colours are hexadecimal literals that [rgba] reads
    as opaque, and no two of them are the same colour. *)
Theorem distinct_colours_differ (n : Z) :
  exists cs : list string,
    distinct n = Ok cs
    /\ length cs = Z.to_nat (Z.min (Z.max n 0) 20)
    /\ Forall (fun c => exists r g b, rgba c = Ok (r, g, b, f1)) cs
    /\ NoDup (rgba <$> cs).
Proof.
  set (check := fun k : Z =>
    match distinct k with
    | Ok cs =>
        bool_decide (length cs = Z.to_nat (Z.min (Z.max k 0) 20))
        && forallb (fun c => match rgba c with
                             | Ok (_, _, _, a) => bool_decide (a = f1)
                             | Raise _ => false
                             end) cs
        && bool_decide (NoDup (rgba <$> cs))
    | Raise _ => false
    end).
  assert (Hall : forallb check (range0 22) = true) by (vm_compute; reflexivity).
  rewrite forallb_forall in Hall. specialize (Hall _ (clip_cases n)).
  unfold check in Hall. rewrite <- distinct_clip in Hall.
  destruct (distinct n) as [cs|]; [|discriminate].
  apply andb_true_iff in Hall as [Hall Hnd]. apply andb_true_iff in Hall as [Hlen Hparse].
  apply bool_decide_eq_true in Hlen, Hnd.
  exists cs. split; [reflexivity|]. split; [lia|]. split; [|exact Hnd].
  rewrite forallb_forall in Hparse. apply Forall_forall. intros c Hc.
  apply list_elem_of_In in Hc. specialize (Hparse c Hc).
  destruct (rgba c) as [[[[r g] b] a]|]; [|discriminate].
  apply bool_decide_eq_true in Hparse. subst a. eauto.
Qed.

(** X17: asking for more colours keeps the colours already given, as long
    as both numbers are at most 10, or both above 10: the shorter list is the
    beginning of the longer one. *)
Theorem distinct_prefix_stable (n m : Z) :
  n <= m -> m <= 10 \/ 10 < n ->
  exists cn cm : list string,
    distinct n = Ok cn /\ distinct m = Ok cm /\ cn `prefix_of` cm.
Proof.
  intros Hnm Hside.
  set (check := fun a b : Z =>
    implb ((a <=? b) && ((b <=? 10) || (10 <? a)))
      match distinct a, distinct b with
      | Ok ca, Ok cb => bool_decide (take (length ca) cb = ca)
      | _, _ => false
      end).
  assert (Hall : forallb (fun a => forallb (check a) (range0 22)) (range0 22) = true)
    by (vm_compute; reflexivity).
  rewrite forallb_forall in Hall. specialize (Hall _ (clip_cases n)). cbv beta in Hall.
  rewrite forallb_forall in Hall. specialize (Hall _ (clip_cases m)).
  unfold check in Hall. rewrite <- !distinct_clip in Hall.
  assert (Hc : (Z.max 0 (Z.min n 21) <=? Z.max 0 (Z.min m 21))
               && ((Z.max 0 (Z.min m 21) <=? 10) || (10 <? Z.max 0 (Z.min n 21))) = true).
  { apply andb_true_iff. split; [apply Z.leb_le; lia|].
    apply orb_true_iff. destruct Hside; [left; apply Z.leb_le|right; apply Z.ltb_lt]; lia. }
  rewrite Hc in Hall. cbn [implb] in Hall.
  destruct (distinct n) as [cn|]; [|discriminate].
  destruct (distinct m) as [cm|]; [|discriminate].
  apply bool_decide_eq_true in Hall.
  exists cn, cm. split; [reflexivity|]. split; [reflexivity|].
  rewrite <- Hall. apply prefix_take.
Qed.

Lemma distinct_prefix_stable_witness :
  exists cn cm : list string,
    distinct 3 = Ok cn /\ distinct 7 = Ok cm /\ cn `prefix_of` cm.
Proof. apply (distinct_prefix_stable 3 7); lia. Defined.

(** From 10 to 11 the colours change: the second of eleven is the light
    blue that ten and fewer leave out. *)
Example distinct_changes_at_11 :
  (cs ← distinct 10; pyindex cs 1) = Ok "#ff7f0e"
  /\ (cs ← distinct 11; pyindex cs 1) = Ok "#aec7e8".
Proof. split; reflexivity. Qed.

End DistinctAll.

(** ** The slots and the string of a theme *)

Section ThemeSlots.

Lemma lookup_slots (s : string) (i : Z) :
  _lookup !! s = Some i -> 0 <= i <= 9 /\ slot_names !! Z.to_nat i = Some s.
Proof.
  intros H. apply elem_of_map_to_list in H.
  set (entries := map_to_list _lookup) in H. vm_compute in entries. subst entries.
  repeat (apply elem_of_cons in H as [H|H];
          [injection H as -> ->; split; [lia|reflexivity]|]).
  inversion H.
Qed.

Lemma slots_lookup (k : nat) (nm : string) :
  slot_names !! k = Some nm -> _lookup !! nm = Some (Z.of_nat k).
Proof.
  do 10 (destruct k as [|k]; [intros [= <-]; reflexivity|]). discriminate.
Qed.

(** X18: attribute access and subscription by name are the same lookup.  A
    name that is no slot gives [None]; the slot [k] gives colour [k] of the
    theme, and on a theme with [k] colours or fewer it raises [IndexError]
    instead of giving [None]. *)
Theorem slot_access (self : _MSO) (nm : string) :
  __getattr__ self nm = __getitem__ self (KStr nm)
  /\ (~ In nm slot_names -> __getattr__ self nm = Ok PyNone)
  /\ (forall k : nat, slot_names !! k = Some nm ->
        __getattr__ self nm
        = match values self !! k with
          | Some c => Ok (Color c)
          | None => Raise IndexError
          end).
Proof.
  split; [reflexivity|]. split.
  - intros Hnot. unfold __getattr__.
    destruct (_lookup !! nm) as [i|] eqn:E; [|reflexivity].
    exfalso. apply Hnot. apply lookup_slots in E as [_ E].
    apply list_elem_of_In. exact (list_elem_of_lookup_2 _ _ _ E).
  - intros k Hk. unfold __getattr__. rewrite (slots_lookup k nm Hk).
    destruct (values self !! k) as [c|] eqn:E.
    + rewrite (pyindex_lookup _ _ _ E). reflexivity.
    + apply lookup_ge_None in E. rewrite pyindex_out_of_range by lia. reflexivity.
Qed.

Lemma slot_access_witness :
  __getattr__ {| values := ["#111111"; "#222222"] |} "accent_3" = Raise IndexError.
Proof.
  apply (proj2 (proj2 (slot_access {| values := ["#111111"; "#222222"] |} "accent_3")) 2%nat).
  reflexivity.
Defined.

Lemma split_on_free (sep : ascii) (s : string) :
  free_of sep s = true -> split_on sep s = [s].
Proof.
  induction s as [|c s IH]; [reflexivity|]. unfold free_of. cbn [all_chars split_on].
  intros H. apply andb_true_iff in H as [Hc Hs].
  apply negb_true_iff in Hc. rewrite Hc, (IH Hs). reflexivity.
Qed.

Lemma split_on_app (sep : ascii) (s t : string) :
  free_of sep s = true ->
  split_on sep (s +:+ String sep t) = s :: split_on sep t.
Proof.
  induction s as [|c s IH]; unfold free_of; cbn [all_chars]; intros H.
  - change (EmptyString +:+ String sep t) with (String sep t).
    cbn [split_on]. rewrite Ascii.eqb_refl. reflexivity.
  - apply andb_true_iff in H as [Hc Hs]. apply negb_true_iff in Hc.
    change (String c s +:+ String sep t) with (String c (s +:+ String sep t)).
    cbn [split_on]. rewrite Hc, (IH Hs). reflexivity.
Qed.

Lemma split_join (sep : ascii) (l : list string) :
  l <> [] -> Forall (fun s => free_of sep s = true) l ->
  split_on sep (str_join (String sep EmptyString) l) = l.
Proof.
  induction l as [|s l IH]; [congruence|]. intros _ Hall.
  inversion Hall as [|? ? Hs Hl]; subst.
  destruct l as [|s' l]; [apply split_on_free, Hs|].
  change (str_join (String sep EmptyString) (s :: s' :: l))
    with (s +:+ String sep EmptyString +:+ str_join (String sep EmptyString) (s' :: l)).
  change (String sep EmptyString +:+ ?t) with (String sep t).
  rewrite split_on_app by exact Hs. f_equal. apply IH; [congruence|exact Hl].
Qed.

(** X19: the string of a theme gives its colours back: when the theme is
    not empty and no colour holds a blank, splitting [str(theme)] at the
    blanks returns the values, as many as [len(theme)]. *)
Theorem str_split_roundtrip (self : _MSO) :
  values self <> [] ->
  Forall (fun c => free_of " " c = true) (values self) ->
  split_on " " (__str__ self) = values self
  /\ Z.of_nat (length (split_on " " (__str__ self))) = __len__ self.
Proof.
  intros Hne Hall. unfold __str__, __len__.
  rewrite (split_join " " (values self) Hne Hall). split; reflexivity.
Qed.

Lemma str_split_roundtrip_witness :
  split_on " " (__str__ Adjacency) = values Adjacency
  /\ Z.of_nat (length (split_on " " (__str__ Adjacency))) = __len__ Adjacency.
Proof.
  apply (str_split_roundtrip Adjacency); [discriminate|].
  repeat constructor.
Defined.

Example str_of_empty_theme :
  split_on " " (__str__ {| values := [] |}) = [EmptyString].
Proof. reflexivity. Qed.

End ThemeSlots.

(** ** gradient: the order of the stops, the results and the errors *)

Section GradientAll.

#[local] Instance before_antisymm : AntiSymm eq stop_before.
Proof.
  intros a b Hab Hba. unfold stop_before in *.
  apply fltb_fleb_flip in Hab. apply fltb_fleb in Hba. congruence.
Qed.

Lemma stops_apart_sym (a b : float * string) : stops_apart a b -> stops_apart b a.
Proof. unfold stops_apart. rewrite orb_comm. auto. Qed.

Lemma distinct_positions_perm (l l' : list (float * string)) :
  l ≡ₚ l' -> distinct_positions l -> distinct_positions l'.
Proof.
  unfold distinct_positions.
  induction 1 as [|x l l' Hp IH|x y l|l l' l'' _ IH1 _ IH2]; intros H.
  - exact H.
  - inversion H as [|? ? Hx Hl]; subst. constructor; [|apply IH, Hl].
    rewrite <- Hp. exact Hx.
  - inversion H as [|? ? Hy Hl]; subst. inversion Hl as [|? ? Hx Hl']; subst.
    inversion Hy as [|? ? Hyx Hy']; subst.
    constructor; [constructor; [apply stops_apart_sym, Hyx|exact Hx]|].
    constructor; assumption.
  - apply IH2, IH1, H.
Qed.

Lemma distinct_positions_numbers (x y : float * string) (l : list (float * string)) :
  distinct_positions (x :: y :: l) -> positions_are_numbers (x :: y :: l).
Proof.
  intros H. inversion H as [|? ? Hx _]; subst.
  assert (Hall : Forall (fun e : float * string => is_nan x.1 = false /\ is_nan e.1 = false)
                   (y :: l)).
  { eapply Forall_impl; [exact Hx|]. intros e He. unfold stops_apart in He.
    apply orb_true_iff in He as [He|He]; apply fltb_not_nan in He; tauto. }
  constructor.
  - inversion Hall as [|? ? [Hnx _] _]; subst. exact Hnx.
  - eapply Forall_impl; [exact Hall|]. intros e [_ He]. exact He.
Qed.

Lemma ascending_apart_sorted (l : list (float * string)) :
  ascending l -> distinct_positions l -> StronglySorted stop_before l.
Proof.
  unfold ascending, distinct_positions.
  induction 1 as [|x l Hs IH Hx]; intros Hd; [constructor|].
  inversion Hd as [|? ? Hax Hl]; subst.
  constructor; [apply IH, Hl|].
  rewrite Forall_forall in Hx, Hax. apply Forall_forall. intros e He.
  pose proof (Hx e He) as Hle. pose proof (Hax e He) as Hap.
  unfold stops_apart in Hap. unfold stop_before.
  apply orb_true_iff in Hap as [Hap|Hap]; [exact Hap|].
  apply fltb_fleb_flip in Hap. congruence.
Qed.

Lemma sorted_sorted (ranges : list (float * string)) :
  distinct_positions ranges -> StronglySorted stop_before (sorted ranges).
Proof.
  intros H. destruct ranges as [|x [|y l]].
  - constructor.
  - repeat constructor.
  - apply ascending_apart_sorted.
    + apply sorted_ascending, distinct_positions_numbers, H.
    + eapply distinct_positions_perm; [|exact H]. symmetry. apply sorted_perm.
Qed.

Lemma sorted_order_independent (r1 r2 : list (float * string)) :
  distinct_positions r1 -> r1 ≡ₚ r2 -> sorted r1 = sorted r2.
Proof.
  intros Hd Hp.
  apply (StronglySorted_unique stop_before).
  - apply sorted_sorted, Hd.
  - apply sorted_sorted. exact (distinct_positions_perm _ _ Hp Hd).
  - rewrite !sorted_perm. exact Hp.
Qed.

Lemma xval_nested_ind (P : xval -> Prop) :
  (forall v, P (XNum v)) -> (forall xs, Forall P xs -> P (XSeq xs)) ->
  forall x, P x.
Proof.
  intros Hnum Hseq. fix IH 1. intros [v|xs]; [apply Hnum|].
  apply Hseq. induction xs as [|x xs IHxs]; constructor; [apply IH|apply IHxs].
Qed.

(** X20: the order in which the stops are written does not matter when
    their positions are numbers, all different: two lists of the same stops
    give the same colour for every [x], a number or a nested sequence. *)
Theorem gradient_order_independent (x : xval) (r1 r2 : list (float * string)) :
  distinct_positions r1 -> r1 ≡ₚ r2 -> gradient x r1 = gradient x r2.
Proof.
  intros Hd Hp. pose proof (sorted_order_independent r1 r2 Hd Hp) as Hs.
  induction x as [v|xs IH] using xval_nested_ind; cbn [gradient].
  - unfold gradient_scalar. rewrite Hs. reflexivity.
  - f_equal. induction IH as [|x xs Hx _ IHxs]; [reflexivity|].
    rewrite Hx, IHxs. reflexivity.
Qed.

Lemma gradient_order_independent_witness :
  gradient (XNum (of_ratio 4 10)) RWG_1 = gradient (XNum (of_ratio 4 10)) (rev RWG_1).
Proof.
  apply (gradient_order_independent (XNum (of_ratio 4 10)) RWG_1 (rev RWG_1)).
  - repeat constructor.
  - apply Permutation_rev.
Defined.

(** X21: the result of [gradient] has the shape of [x]: a string for a
    number, and for a sequence a list of as many results, nested as [x] is
    nested. *)
Theorem gradient_keeps_shape (x : xval) (ranges : list (float * string)) (g : gval) :
  gradient x ranges = Ok g -> same_shape x g = true.
Proof.
  revert g. induction x as [v|xs IH] using xval_nested_ind; intros g; cbn [gradient].
  - destruct (gradient_scalar v ranges); [|discriminate]. intros [= <-]. reflexivity.
  - match goal with |- context [GSeq <$> ?m] => destruct m as [gs|] eqn:E end;
      [|discriminate].
    intros [= <-]. cbn [same_shape]. revert gs E.
    induction IH as [|x xs Hx _ IHxs]; intros gs.
    + intros [= <-]. reflexivity.
    + destruct (gradient x ranges) as [g0|] eqn:Eg; cbn [mbind res_bind]; [|discriminate].
      match goal with |- context [mbind _ ?m] => destruct m as [gs'|] eqn:E' end;
        cbn [mbind res_bind]; [|discriminate].
      intros [= <-]. rewrite (Hx g0 eq_refl). cbn [andb]. apply IHxs. reflexivity.
Qed.

Lemma gradient_keeps_shape_witness :
  same_shape (XSeq [XNum (of_Z (-2)); XSeq [XNum f0; XNum S754_nan]])
    (GSeq [GStr "#ff0000"; GSeq [GStr "#fff"; GStr "#fff"]]) = true.
Proof.
  apply (gradient_keeps_shape (XSeq [XNum (of_Z (-2)); XSeq [XNum f0; XNum S754_nan]]) RWG_1).
  reflexivity.
Defined.

End GradientAll.

Section GradientResults.

(** What [blend] returns is the opaque form of three bytes. *)
Lemma blend_result (x : float) (l : list (float * string)) (i : Z) (s : string) :
  blend x l i = Ok s ->
  exists R G B : Z,
    (0 <= R <= 255 /\ 0 <= G <= 255 /\ 0 <= B <= 255) /\ s = hex_color R G B.
Proof.
  unfold blend.
  destruct (pyindex l (i - 1)) as [prev|]; cbn [mbind res_bind]; [|discriminate].
  destruct (pyindex l i) as [cur|]; cbn [mbind res_bind]; [|discriminate].
  destruct (pydiv (fsub x prev.1) (fsub cur.1 prev.1)) as [p|] eqn:Ep;
    cbn [mbind res_bind]; [|discriminate].
  assert (Hp : valid p = true).
  { unfold pydiv in Ep. destruct (is_zero _); [discriminate|].
    injection Ep as <-. apply fdiv_valid. }
  destruct (rgba prev.2) as [[[[a0 a1] a2] a3]|] eqn:Ea; cbn [mbind res_bind]; [|discriminate].
  destruct (rgba cur.2) as [[[[b0 b1] b2] b3]|] eqn:Eb; cbn [mbind res_bind]; [|discriminate].
  destruct (rgba_valid _ _ _ _ _ Ea) as (Ha0 & Ha1 & Ha2 & _).
  destruct (rgba_valid _ _ _ _ _ Eb) as (Hb0 & Hb1 & Hb2 & _).
  assert (Hq : valid (fsub f1 p) = true) by (apply fsub_valid; [reflexivity|exact Hp]).
  assert (Hmix : forall a b, valid a = true -> valid b = true ->
                 valid (fadd (fmul a (fsub f1 p)) (fmul b p)) = true).
  { intros a b Ha Hb. apply fadd_valid; apply fmul_valid; assumption. }
  pose proof (name_on_doubles _ _ _ f1 (Hmix _ _ Ha0 Hb0) (Hmix _ _ Ha1 Hb1)
                (Hmix _ _ Ha2 Hb2)) as Hname.
  destruct (_ || _); [congruence|].
  destruct Hname as (R & G & B & Hbytes & ->).
  change (fleb f1 (clamp01 f1)) with true. cbv iota.
  intros [= <-]. eauto.
Qed.

(** X22: [gradient] returns the colour of a stop as it is written in
    [ranges], or the opaque hexadecimal form of three bytes; never an
    [rgba(...)] form, whatever the colours of the stops. *)
Theorem gradient_result_form (x : float) (ranges : list (float * string)) (s : string) :
  gradient_scalar x ranges = Ok s ->
  (exists pos, (pos, s) ∈ ranges)
  \/ (exists R G B : Z,
        (0 <= R <= 255 /\ 0 <= G <= 255 /\ 0 <= B <= 255) /\ s = hex_color R G B).
Proof.
  unfold gradient_scalar.
  destruct (pyindex (sorted ranges) 0) as [first|] eqn:E0; cbn [mbind res_bind];
    [|discriminate].
  destruct (fleb _ first.1).
  { intros [= <-]. left. exists first.1.
    apply pyindex_elem_of in E0. rewrite sorted_perm in E0. destruct first; exact E0. }
  destruct (pyindex (sorted ranges) (-1)) as [lst|] eqn:E1; cbn [mbind res_bind];
    [|discriminate].
  destruct (fleb lst.1 _).
  { intros [= <-]. left. exists lst.1.
    apply pyindex_elem_of in E1. rewrite sorted_perm in E1. destruct lst; exact E1. }
  intros H. right. exact (blend_result _ _ _ _ H).
Qed.

Lemma gradient_result_form_witness :
  (exists pos, (pos, "#b5e0b5") ∈ Greens)
  \/ (exists R G B : Z,
        (0 <= R <= 255 /\ 0 <= G <= 255 /\ 0 <= B <= 255) /\ "#b5e0b5" = hex_color R G B).
Proof. apply (gradient_result_form (of_ratio 25 100) Greens "#b5e0b5"). reflexivity. Defined.

Lemma scan_stops_none (x : float) (l : list (float * string)) (i : Z) :
  Forall (fun e => fleb x e.1 = false) l ->
  scan_stops x i l = i + Z.of_nat (length l) - 1.
Proof.
  revert i. induction l as [|e t IH]; intros i H; cbn [scan_stops length].
  - lia.
  - inversion H as [|? ? He Ht]; subst. rewrite He, IH by exact Ht. lia.
Qed.

Lemma name_raises (r g b a : float) : raises_only (name r g b a) [TypeError].
Proof.
  assert (Hf : forall v, raises_only (fmt_arg v) [TypeError]).
  { intros v e. unfold fmt_arg. destruct (pyint v); [discriminate|].
    intros [= <-]. left. reflexivity. }
  unfold name. destruct (fleb _ _);
    repeat (apply raises_only_bind; [apply Hf|intros ? _]); apply raises_only_Ok.
Qed.

Ltac in_errors :=
  unfold incl, gradient_errors, rgba_errors; cbn [In]; intros ? ?; intuition congruence.

(** The divisor of the interpolation is not zero. *)
Lemma blend_divisor (x : float) (l : list (float * string)) (first lst prev cur : float * string) :
  Forall (fun e => valid e.1 = true) l ->
  is_nan x = false ->
  pyindex l 0 = Ok first -> fleb x first.1 = false ->
  pyindex l (-1) = Ok lst -> fleb lst.1 x = false ->
  pyindex l (scan_stops x 0 l - 1) = Ok prev ->
  pyindex l (scan_stops x 0 l) = Ok cur ->
  is_zero (fsub cur.1 prev.1) = false.
Proof.
  intros Hval Hx H0 Hf H1 Hl Hprev Hcur.
  assert (Hvp : valid prev.1 = true).
  { apply pyindex_elem_of in Hprev. rewrite Forall_forall in Hval. exact (Hval _ Hprev). }
  assert (Hvc : valid cur.1 = true).
  { apply pyindex_elem_of in Hcur. rewrite Forall_forall in Hval. exact (Hval _ Hcur). }
  destruct (is_zero (fsub cur.1 prev.1)) eqn:Ez; [exfalso|reflexivity].
  pose proof (fsub_zero _ _ Hvc Hvp Ez) as Heq.
  destruct (decide (Exists (fun e : float * string => fleb x e.1 = true) l)) as [Hex|Hnone].
  - destruct (scan_stops_first x l 0 Hex) as (k & c & Hk & Hc & Hbefore & Hscan).
    rewrite Hscan in Hprev, Hcur. rewrite Z.add_0_l in Hprev, Hcur.
    rewrite (pyindex_lookup _ _ _ Hk) in Hcur. injection Hcur as <-.
    destruct k as [|k'].
    + (* the first stop is not at or above x *)
      destruct l as [|e0 t]; [discriminate|].
      cbn in Hk. injection Hk as ->.
      unfold pyindex in H0. cbn in H0. injection H0 as <-. congruence.
    + assert (Hk' : exists p', l !! k' = Some p') by
        (apply lookup_lt_is_Some; apply lookup_lt_Some in Hk; lia).
      destruct Hk' as [p' Hp'].
      replace (Z.of_nat (S k') - 1) with (Z.of_nat k') in Hprev by lia.
      rewrite (pyindex_lookup _ _ _ Hp') in Hprev. injection Hprev as <-.
      pose proof (Hbefore k' p' ltac:(lia) Hp') as Hbp.
      rewrite (feqb_fleb x _ _ Heq) in Hbp. congruence.
  - (* no stop at or above x: the last position is a NaN *)
    assert (Hall : Forall (fun e : float * string => fleb x e.1 = false) l).
    { apply Forall_forall. intros e He.
      destruct (fleb x e.1) eqn:E; [|reflexivity].
      exfalso. apply Hnone. apply Exists_exists. exists e. split; assumption. }
    rewrite (scan_stops_none x l 0 Hall) in Hcur.
    assert (Hlen : (0 < length l)%nat).
    { destruct l; [discriminate H0|simpl; lia]. }
    assert (Hlast : exists c, l !! (length l - 1)%nat = Some c).
    { apply lookup_lt_is_Some. lia. }
    destruct Hlast as [c Hc].
    replace (0 + Z.of_nat (length l) - 1) with (Z.of_nat (length l - 1)) in Hcur by lia.
    rewrite (pyindex_lookup _ _ _ Hc) in Hcur. injection Hcur as <-.
    replace (-1) with (Z.of_nat (length l - 1) - Z.of_nat (length l)) in H1 by lia.
    rewrite (pyindex_lookup_neg _ _ _ Hc) in H1. injection H1 as <-.
    assert (Hcx : fleb x c.1 = false).
    { rewrite Forall_forall in Hall. apply Hall. exact (list_elem_of_lookup_2 _ _ _ Hc). }
    destruct (is_nan c.1) eqn:Hn.
    + destruct (c.1); try discriminate Hn. discriminate Ez.
    + pose proof (fleb_total _ _ Hx Hn Hcx). congruence.
Qed.

(** X23: when the positions of the stops are doubles, [gradient] raises a
    [TypeError] (a NaN reached [name]) or one of the errors of [rgba] (a
    colour of a stop is no colour; [IndexError] also for an empty list of
    stops), and never a [ZeroDivisionError]. *)
Theorem gradient_raises_only (x : float) (ranges : list (float * string)) :
  Forall (fun e => valid e.1 = true) ranges ->
  raises_only (gradient_scalar x ranges) gradient_errors.
Proof.
  intros Hval.
  assert (Hval' : Forall (fun e : float * string => valid e.1 = true) (sorted ranges)).
  { rewrite sorted_perm. exact Hval. }
  unfold gradient_scalar.
  set (x' := if is_nan x then f0 else x).
  assert (Hx : is_nan x' = false) by (unfold x'; destruct (is_nan x) eqn:E; [reflexivity|exact E]).
  clearbody x'. clear Hval. set (l := sorted ranges) in *. clearbody l.
  apply raises_only_bind; [eapply raises_only_weaken; [apply pyindex_raises|in_errors]|].
  intros first H0. destruct (fleb x' first.1) eqn:Hf; [apply raises_only_Ok|].
  apply raises_only_bind; [eapply raises_only_weaken; [apply pyindex_raises|in_errors]|].
  intros lst H1. destruct (fleb lst.1 x') eqn:Hl; [apply raises_only_Ok|].
  unfold blend.
  apply raises_only_bind; [eapply raises_only_weaken; [apply pyindex_raises|in_errors]|].
  intros prev Hprev.
  apply raises_only_bind; [eapply raises_only_weaken; [apply pyindex_raises|in_errors]|].
  intros cur Hcur.
  unfold pydiv.
  rewrite (blend_divisor x' l first lst prev cur Hval' Hx H0 Hf H1 Hl Hprev Hcur).
  cbn [mbind res_bind].
  apply raises_only_bind;
    [eapply raises_only_weaken; [apply rgba_raises|in_errors]|].
  intros [[[a0 a1] a2] a3] _.
  apply raises_only_bind;
    [eapply raises_only_weaken; [apply rgba_raises|in_errors]|].
  intros [[[b0 b1] b2] b3] _.
  eapply raises_only_weaken; [apply name_raises|in_errors].
Qed.

Lemma gradient_raises_only_witness : In IndexError gradient_errors.
Proof. apply (gradient_raises_only f0 []); [constructor|reflexivity]. Defined.

End GradientResults.

(** ** Magnitudes: no overflow, no NaN *)

Section Magnitude.

Lemma Zdigits2_le (N d : Z) : 0 <= d -> 0 <= N -> N < 2 ^ d -> Zdigits2 N <= d.
Proof.
  intros Hd HN Hlt. destruct (Z.eq_dec N 0) as [->|Hne]; [simpl; lia|].
  pose proof (Zdigits2_bounds N ltac:(lia)) as [Hlo _].
  assert (Zdigits2 N - 1 < d) by (apply pow2_lt_inv; [lia|]; lia). lia.
Qed.

Lemma below_pow2_mono (k k' : Z) (f : float) :
  k <= k' -> below_pow2 k f = true -> below_pow2 k' f = true.
Proof.
  intros Hk. destruct f as [s|s| |s m e]; cbn [below_pow2]; try (intros; assumption).
  intros H. apply Z.leb_le in H. apply Z.leb_le. lia.
Qed.

(** Rounding a mantissa below [2 ^ k] stays below [2 ^ (k + 1)], and finite. *)
Lemma binary_round_aux_below (s : bool) (m e : Z) (l : location) (k : Z) :
  0 <= m -> e <= fexp prec emax (Zdigits2 m + e) ->
  Zdigits2 m + e <= k -> -1074 <= k -> k < 1024 ->
  below_pow2 (k + 1) (binary_round_aux prec emax s m e l) = true.
Proof.
  intros Hm He Hk Hklo Hkhi. rewrite fexp_eq in He.
  unfold binary_round_aux, shr_fexp. rewrite fexp_eq.
  set (e1 := Z.max (Zdigits2 m + e - 53) (-1074)) in *.
  set (n := e1 - e) in *.
  destruct (shr_m_shift (shr_record_of_loc m l) e n) as [Hq He1];
    [rewrite shr_record_of_loc_m; exact Hm|unfold n; lia|].
  destruct (shr (shr_record_of_loc m l) e n) as [mrs' e'].
  cbn [fst snd] in Hq, He1. rewrite shr_record_of_loc_m in Hq.
  assert (He' : e' = e1) by (unfold n; lia). clear He1. subst e'.
  pose proof (rne_range (shr_m mrs') (loc_of_shr_record mrs')) as HN.
  set (N := round_nearest_even (shr_m mrs') (loc_of_shr_record mrs')) in *.
  rewrite Hq in HN. clear Hq.
  assert (Hn : 0 <= n) by (unfold n; lia).
  assert (Hp : 0 < 2 ^ n) by (apply Z.pow_pos_nonneg; lia).
  assert (Hq0 : 0 <= m / 2 ^ n) by (apply Z.div_pos; lia).
  assert (He1 : -1074 <= e1) by (unfold e1; lia).
  change (shr (shr_record_of_loc N loc_Exact) e1
            (fexp prec emax (Zdigits2 N + e1) - e1))
    with (shr_fexp prec emax N e1 loc_Exact).
  assert (Hcases : (N < 2 ^ 53 /\ Zdigits2 N + e1 <= k + 1 /\ e1 <= 971)
                   \/ (N = 2 ^ 53 /\ e1 + 54 <= k + 1)).
  { destruct (Z.eq_dec m 0) as [->|Hm0].
    - left. rewrite Z.div_0_l in HN by lia. simpl Zdigits2 in *.
      assert (HN01 : N = 0 \/ N = 1) by lia.
      destruct HN01 as [-> | ->]; simpl Zdigits2; lia.
    - pose proof (Zdigits2_bounds m ltac:(lia)) as [Hlo Hhi].
      pose proof (Zdigits2_pos m ltac:(lia)) as Hd.
      set (d := Zdigits2 m) in *.
      destruct (Z_lt_le_dec (d + e - 53) (-1074)) as [Hsub|Hnorm].
      + assert (He1' : e1 = -1074) by (unfold e1; lia).
        left.
        destruct (Z_lt_le_dec (d - n) 0) as [Hneg|Hpos].
        * (* everything is shifted out *)
          assert (Hq : m / 2 ^ n = 0).
          { apply Z.div_small. split; [lia|].
            eapply Z.lt_le_trans; [exact Hhi|]. apply Z.pow_le_mono_r; lia. }
          rewrite Hq in HN.
          assert (HN01 : N = 0 \/ N = 1) by lia.
          destruct HN01 as [-> | ->]; simpl Zdigits2; lia.
        * assert (Hlt : m / 2 ^ n < 2 ^ (d - n)).
          { apply Z.div_lt_upper_bound; [lia|].
            rewrite <- Z.pow_add_r by lia.
            replace (n + (d - n)) with d by lia. exact Hhi. }
          assert (Hpw : 2 ^ (d - n) <= 2 ^ 52) by (apply Z.pow_le_mono_r; unfold n; lia).
          assert (HdN : Zdigits2 N <= d - n + 1).
          { apply Zdigits2_le; [lia|lia|].
            rewrite Z.pow_add_r by lia. change (2 ^ 1) with 2. lia. }
          split; [lia|]. split; [unfold n in HdN; lia|lia].
      + assert (He1' : e1 = d + e - 53) by (unfold e1; lia).
        assert (Hnd : n = d - 53) by (unfold n; lia).
        assert (Hlt : m / 2 ^ n < 2 ^ 53).
        { apply Z.div_lt_upper_bound; [lia|].
          rewrite <- Z.pow_add_r by lia.
          replace (n + 53) with d by lia. exact Hhi. }
        assert (Hge : 2 ^ 52 <= m / 2 ^ n).
        { apply Z.div_le_lower_bound; [lia|].
          rewrite <- Z.pow_add_r by lia.
          replace (n + 52) with (d - 1) by lia. exact Hlo. }
        assert (HNc : N < 2 ^ 53 \/ N = 2 ^ 53) by lia.
        destruct HNc as [HNlt|HNeq]; [left|right; split; [exact HNeq|lia]].
        split; [exact HNlt|].
        rewrite (Zdigits2_unique N 53); [lia|lia|]. simpl (53 - 1). lia. }
  destruct Hcases as [(HNlt & HdN & Hle)|[HNeq Hle]].
  - rewrite shr_fexp_exact by lia. cbn [shr_m].
    destruct N as [|pn|pn] eqn:EN; [reflexivity| |lia].
    destruct (Z.leb_spec e1 (emax - prec)) as [_|Hgt];
      [|unfold emax, prec in Hgt; lia].
    cbn [below_pow2]. cbn [Zdigits2] in HdN. apply Z.leb_le. lia.
  - rewrite HNeq, shr_fexp_carry by lia. cbn [shr_m].
    change (2 ^ 52) with (Zpos 4503599627370496).
    destruct (Z.leb_spec (e1 + 1) (emax - prec)) as [_|Hgt];
      [|unfold emax, prec in Hgt; lia].
    cbn [below_pow2]. change (Zpos (digits2_pos 4503599627370496)) with 53.
    apply Z.leb_le. lia.
Qed.

Lemma below_pow2_finite (k : Z) (s : bool) (m : positive) (e : Z) :
  below_pow2 k (S754_finite s m e) = true -> Zpos (digits2_pos m) + e <= k.
Proof. cbn [below_pow2]. apply Z.leb_le. Qed.

Lemma fmul_below (ka kb : Z) (a b : float) :
  valid a = true -> valid b = true ->
  below_pow2 ka a = true -> below_pow2 kb b = true ->
  -1074 <= ka + kb -> ka + kb < 1024 ->
  below_pow2 (ka + kb + 1) (fmul a b) = true.
Proof.
  intros Ha Hb Hka Hkb Hlo Hhi. unfold fmul.
  destruct a as [sa|sa| |sa ma ea], b as [sb|sb| |sb mb eb]; try discriminate;
    try reflexivity.
  cbn [SFmul].
  apply below_pow2_finite in Hka, Hkb.
  apply bounded_canonical in Ha as [Ha _]. apply bounded_canonical in Hb as [Hb _].
  pose proof (digits2_bounds ma) as [Hla Hha]. pose proof (digits2_bounds mb) as [Hlb Hhb].
  pose proof (digits2_bounds (ma * mb)) as [Hl Hh].
  set (da := Zpos (digits2_pos ma)) in *. set (db := Zpos (digits2_pos mb)) in *.
  set (d := Zpos (digits2_pos (ma * mb))) in *.
  assert (Hd1 : da + db - 2 < d).
  { apply pow2_lt_inv; [unfold d; lia|].
    eapply Z.le_lt_trans; [|exact Hh].
    replace (da + db - 2) with ((da - 1) + (db - 1)) by lia.
    rewrite Z.pow_add_r by (unfold da, db; lia). rewrite Pos2Z.inj_mul.
    apply Z.mul_le_mono_nonneg; try lia; apply Z.pow_nonneg; lia. }
  assert (Hd2 : d - 1 < da + db).
  { apply pow2_lt_inv; [unfold da, db; lia|].
    eapply Z.le_lt_trans; [exact Hl|].
    rewrite Z.pow_add_r by (unfold da, db; lia). rewrite Pos2Z.inj_mul.
    apply Z.mul_lt_mono_nonneg; lia. }
  apply binary_round_aux_below; [lia| | |lia|lia];
    rewrite ?fexp_eq; cbn [Zdigits2]; fold d; lia.
Qed.

Lemma binary_round_below (s : bool) (m : positive) (e k : Z) :
  Zpos (digits2_pos m) + e <= k -> -1074 <= k -> k < 1024 ->
  below_pow2 (k + 1) (binary_round prec emax s m e) = true.
Proof.
  intros Hk Hlo Hhi. unfold binary_round, shl_align. rewrite fexp_eq.
  destruct (Z.max (Zpos (digits2_pos m) + e - 53) (-1074) - e) as [|d|d] eqn:Hd;
    apply binary_round_aux_below; try lia; rewrite ?fexp_eq; cbn [Zdigits2];
    rewrite ?iter_xO_digits; lia.
Qed.

Lemma binary_normalize_below (z e k : Z) (sz : bool) :
  Z.abs z < 2 ^ (k - e) -> e <= k -> -1074 <= k -> k < 1024 ->
  below_pow2 (k + 1) (binary_normalize prec emax z e sz) = true.
Proof.
  intros Hz He Hlo Hhi.
  assert (Hd : forall p : positive, Zpos p < 2 ^ (k - e) -> Zpos (digits2_pos p) + e <= k).
  { intros p Hp. pose proof (Zdigits2_le (Zpos p) (k - e) ltac:(lia) ltac:(lia) Hp) as H.
    cbn [Zdigits2] in H. lia. }
  destruct z as [|p|p]; [reflexivity| |]; cbn [binary_normalize];
    apply binary_round_below; try lia; apply Hd; lia.
Qed.

Lemma aligned_below (m : positive) (e ez k : Z) :
  ez <= e -> Zpos (digits2_pos m) + e <= k ->
  Zpos (fst (shl_align m e ez)) < 2 ^ (k - ez).
Proof.
  intros Hez Hk. rewrite shl_align_value by exact Hez.
  pose proof (digits2_bounds m) as [_ Hh].
  apply Z.lt_le_trans with (2 ^ Zpos (digits2_pos m) * 2 ^ (e - ez)).
  - apply Z.mul_lt_mono_pos_r; [apply Z.pow_pos_nonneg; lia|exact Hh].
  - rewrite <- Z.pow_add_r by lia. apply Z.pow_le_mono_r; lia.
Qed.

Lemma fadd_fsub_below (k : Z) (a b : float) :
  below_pow2 k a = true -> below_pow2 k b = true ->
  -1074 <= k -> k + 1 < 1024 ->
  below_pow2 (k + 2) (fadd a b) = true /\ below_pow2 (k + 2) (fsub a b) = true.
Proof.
  intros Ha Hb Hlo Hhi.
  assert (Hup : forall f, below_pow2 k f = true -> below_pow2 (k + 2) f = true)
    by (intros f; apply below_pow2_mono; lia).
  unfold fadd, fsub.
  destruct a as [sa|sa| |sa ma ea], b as [sb|sb| |sb mb eb]; try discriminate;
    try (split; try (destruct sa, sb; reflexivity); try exact (Hup _ Ha);
         try exact (Hup _ Hb); fail).
  cbn [SFadd SFsub].
  apply below_pow2_finite in Ha, Hb.
    set (ez := Z.min ea eb).
    pose proof (aligned_below ma ea ez k ltac:(unfold ez; lia) Ha) as HA.
    pose proof (aligned_below mb eb ez k ltac:(unfold ez; lia) Hb) as HB.
    set (za := Zpos (fst (shl_align ma ea ez))) in *.
    set (zb := Zpos (fst (shl_align mb eb ez))) in *.
    assert (Hez : ez <= k) by (unfold ez; lia).
    assert (Hpw : 2 ^ (k + 1 - ez) = 2 * 2 ^ (k - ez)).
    { replace (k + 1 - ez) with (Z.succ (k - ez)) by lia. apply Z.pow_succ_r. lia. }
    replace (k + 2) with (k + 1 + 1) by lia.
    split; apply binary_normalize_below; try lia; rewrite Hpw;
      destruct sa, sb; cbn [cond_Zopp]; lia.
Qed.

Lemma fdiv_below (ka kb : Z) (a b : float) :
  below_pow2 ka a = true ->
  match b with
  | S754_finite _ mb eb => kb <= Zpos (digits2_pos mb) + eb
  | _ => False
  end ->
  -1074 <= ka - kb + 1 -> ka - kb + 1 < 1024 ->
  below_pow2 (ka - kb + 2) (fdiv a b) = true.
Proof.
  intros Ha Hb Hlo Hhi. unfold fdiv.
  destruct a as [sa|sa| |sa ma ea], b as [sb|sb| |sb mb eb]; try discriminate;
    try contradiction; try reflexivity.
  cbn [SFdiv]. apply below_pow2_finite in Ha.
  pose proof (div_core_aligned ma mb ea eb) as Hal.
  assert (Hdig : let '(q, e', _) := SFdiv_core_binary prec emax (Zpos ma) ea (Zpos mb) eb in
                 Zdigits2 q + e' <= ka - kb + 1).
  { unfold SFdiv_core_binary. rewrite !fexp_eq. cbn [Zdigits2].
    set (d1 := Zpos (digits2_pos ma)) in *. set (d2 := Zpos (digits2_pos mb)) in *.
    set (e' := Z.min (Z.max (d1 + ea - (d2 + eb) - 53) (-1074)) (ea - eb)).
    set (sh := ea - eb - e').
    assert (Hsh : 0 <= sh) by (unfold sh, e'; lia).
    set (m' := match sh with Zpos _ => Z.shiftl (Zpos ma) sh | Z0 => Zpos ma | Zneg _ => 0 end).
    assert (Hm' : m' = Zpos ma * 2 ^ sh).
    { unfold m'. destruct sh as [|p|p]; [simpl; lia| |lia].
      apply Z.shiftl_mul_pow2. lia. }
    clearbody m'.
    pose proof (Z_div_mod m' (Zpos mb) ltac:(lia)) as Hdiv.
    destruct (Z.div_eucl m' (Zpos mb)) as [q r]. destruct Hdiv as [Hqr Hr].
    pose proof (digits2_bounds ma) as [Hl1 Hh1]. pose proof (digits2_bounds mb) as [Hl2 Hh2].
    fold d1 in Hl1, Hh1. fold d2 in Hl2, Hh2.
    assert (Hp : 0 < 2 ^ sh) by (apply Z.pow_pos_nonneg; lia).
    assert (Hq0 : 0 <= q).
    { assert (0 <= m') by (rewrite Hm'; lia). nia. }
    (* q * 2 ^ (d2 - 1) <= q * mb <= m' < 2 ^ (d1 + sh) *)
    assert (H1 : m' < 2 ^ (d1 + sh)).
    { rewrite Hm', Z.pow_add_r by (unfold d1; lia).
      apply Z.mul_lt_mono_pos_r; [exact Hp|exact Hh1]. }
    assert (H2 : q * 2 ^ (d2 - 1) <= m').
    { apply Z.le_trans with (q * Zpos mb); [apply Z.mul_le_mono_nonneg_l; lia|lia]. }
    assert (Hdq : Zdigits2 q <= Z.max 0 (d1 + sh - d2 + 1)).
    { destruct (Z_lt_le_dec (d1 + sh - d2 + 1) 0) as [Hneg|Hpos].
      - (* q = 0 *)
        assert (q = 0).
        { destruct (Z.eq_dec q 0) as [|Hq]; [assumption|exfalso].
          assert (Hpw : 2 ^ (d1 + sh) <= 2 ^ (d2 - 1)) by (apply Z.pow_le_mono_r; lia).
          assert (1 * 2 ^ (d2 - 1) <= q * 2 ^ (d2 - 1)).
          { apply Z.mul_le_mono_nonneg_r; [apply Z.pow_nonneg; lia|lia]. }
          lia. }
        subst q. simpl. lia.
      - rewrite Z.max_r by lia.
        apply Zdigits2_le; [lia|exact Hq0|].
        apply (Z.mul_lt_mono_pos_r (2 ^ (d2 - 1))); [apply Z.pow_pos_nonneg; unfold d2; lia|].
        rewrite <- Z.pow_add_r by (unfold d2; lia).
        replace (d1 + sh - d2 + 1 + (d2 - 1)) with (d1 + sh) by lia. lia. }
    unfold sh in Hdq. unfold e' in *. lia. }
  destruct (SFdiv_core_binary prec emax (Zpos ma) ea (Zpos mb) eb) as [[q e'] l].
  destruct Hal as [Hq He].
  replace (ka - kb + 2) with (ka - kb + 1 + 1) by lia.
  apply binary_round_aux_below; assumption || lia.
Qed.

Lemma below_pow2_not_nan (k : Z) (f : float) : below_pow2 k f = true -> is_nan f = false.
Proof. destruct f; try discriminate; reflexivity. Qed.

End Magnitude.

(** ** The pixel of the rainfall scripts *)

Section Pixel.

Ltac by_bytes :=
  match goal with
  | |- forall k : Z, 0 <= k <= 255 -> @?P k =>
      apply (forall_bytes P); vm_compute; reflexivity
  end.

Lemma color_bytes_hex (R G B : Z) :
  0 <= R <= 255 -> 0 <= G <= 255 -> 0 <= B <= 255 ->
  color_bytes (hex_color R G B) = Ok (R, G, B, 255).
Proof.
  intros HR HG HB. unfold color_bytes.
  rewrite rgba_hex_color by assumption. cbn [mbind res_bind].
  rewrite (fmt_arg_ok _ _ (fmt_arg_byte_channel R HR)),
    (fmt_arg_ok _ _ (fmt_arg_byte_channel G HG)),
    (fmt_arg_ok _ _ (fmt_arg_byte_channel B HB)).
  reflexivity.
Qed.

(** A double strictly between 0 and 1. *)
Lemma inside_unit (x : float) :
  valid x = true -> is_nan x = false ->
  fleb x f0 = false -> fleb f1 x = false ->
  below_pow2 1 x = true.
Proof.
  intros Hv Hn H0 H1. pose proof (fleb_total f1 x eq_refl Hn H1) as Hle.
  destruct x as [s|[]| |[] m e]; try discriminate.
  destruct (fleb_one m e Hle) as [He|[He Hm]];
    apply bounded_canonical in Hv as [Hc _]; cbn [below_pow2]; apply Z.leb_le; lia.
Qed.

(** The blend of two channels up to 1 with a fraction that is not large is
    a number. *)
Lemma mix_number (a b p : float) :
  valid a = true -> valid b = true -> valid p = true ->
  below_pow2 1 a = true -> below_pow2 1 b = true -> below_pow2 5 p = true ->
  valid (fadd (fmul a (fsub f1 p)) (fmul b p)) = true
  /\ is_nan (fadd (fmul a (fsub f1 p)) (fmul b p)) = false.
Proof.
  intros Ha Hb Hp Ba Bb Bp.
  assert (Hq : valid (fsub f1 p) = true) by (apply fsub_valid; [reflexivity|exact Hp]).
  assert (Bq : below_pow2 7 (fsub f1 p) = true).
  { apply (fadd_fsub_below 5 f1 p); [reflexivity|exact Bp|lia|lia]. }
  assert (B1 : below_pow2 9 (fmul a (fsub f1 p)) = true).
  { apply (fmul_below 1 7); assumption || lia. }
  assert (B2 : below_pow2 9 (fmul b p) = true).
  { apply (below_pow2_mono 7); [lia|]. apply (fmul_below 1 5); assumption || lia. }
  split; [apply fadd_valid; apply fmul_valid; assumption|].
  apply (below_pow2_not_nan 11). apply (fadd_fsub_below 9); assumption || lia.
Qed.

Lemma greens_channels (c : string) :
  In c ["#F7FCF5"; "#74C476"; "#00441B"] ->
  exists r g b,
    rgba c = Ok (r, g, b, f1)
    /\ (valid r = true /\ valid g = true /\ valid b = true)
    /\ (below_pow2 1 r = true /\ below_pow2 1 g = true /\ below_pow2 1 b = true).
Proof.
  intros [<-|[<-|[<-|[]]]]; eexists _, _, _; (split; [vm_compute; reflexivity|]);
    repeat split.
Qed.

Lemma greens_blend (x p : float) (prev cur : float * string) :
  valid p = true -> below_pow2 5 p = true ->
  In prev.2 ["#F7FCF5"; "#74C476"; "#00441B"] ->
  In cur.2 ["#F7FCF5"; "#74C476"; "#00441B"] ->
  exists R G B : Z,
    (0 <= R <= 255 /\ 0 <= G <= 255 /\ 0 <= B <= 255)
    /\ ('(a0, a1, a2, _) ← rgba prev.2;
        '(b0, b1, b2, _) ← rgba cur.2;
        name (fadd (fmul a0 (fsub f1 p)) (fmul b0 p))
             (fadd (fmul a1 (fsub f1 p)) (fmul b1 p))
             (fadd (fmul a2 (fsub f1 p)) (fmul b2 p)) f1)
       = Ok (hex_color R G B).
Proof.
  intros Hp Bp Hprev Hcur.
  destruct (greens_channels _ Hprev) as (a0 & a1 & a2 & -> & (Va0 & Va1 & Va2) & (Ba0 & Ba1 & Ba2)).
  destruct (greens_channels _ Hcur) as (b0 & b1 & b2 & -> & (Vb0 & Vb1 & Vb2) & (Bb0 & Bb1 & Bb2)).
  cbn [mbind res_bind].
  destruct (mix_number a0 b0 p Va0 Vb0 Hp Ba0 Bb0 Bp) as [V0 N0].
  destruct (mix_number a1 b1 p Va1 Vb1 Hp Ba1 Bb1 Bp) as [V1 N1].
  destruct (mix_number a2 b2 p Va2 Vb2 Hp Ba2 Bb2 Bp) as [V2 N2].
  pose proof (name_on_doubles _ _ _ f1 V0 V1 V2) as Hname.
  rewrite N0, N1, N2 in Hname. cbn [orb] in Hname.
  destruct Hname as (R & G & B & Hbytes & Hname).
  exists R, G, B. split; [exact Hbytes|]. rewrite Hname. reflexivity.
Qed.

(** [gradient] on [Greens] returns for every double. *)
Lemma gradient_greens (x : float) :
  valid x = true ->
  gradient_scalar x Greens = Ok "#F7FCF5"
  \/ gradient_scalar x Greens = Ok "#00441B"
  \/ exists R G B : Z,
       (0 <= R <= 255 /\ 0 <= G <= 255 /\ 0 <= B <= 255)
       /\ gradient_scalar x Greens = Ok (hex_color R G B).
Proof.
  intros Hv. unfold gradient_scalar.
  set (x' := if is_nan x then f0 else x).
  assert (Hx : is_nan x' = false) by (unfold x'; destruct (is_nan x) eqn:E; [reflexivity|exact E]).
  assert (Hv' : valid x' = true) by (unfold x'; destruct (is_nan x); [reflexivity|exact Hv]).
  clearbody x'.
  change (sorted Greens) with Greens.
  change (pyindex Greens 0) with (Ok (f0, "#F7FCF5") : res (float * string)).
  change (pyindex Greens (-1)) with (Ok (f1, "#00441B") : res (float * string)).
  cbn [mbind res_bind fst snd].
  destruct (fleb x' f0) eqn:H0; [left; reflexivity|].
  destruct (fleb f1 x') eqn:H1; [right; left; reflexivity|].
  right. right.
  pose proof (inside_unit x' Hv' Hx H0 H1) as Bx.
  assert (Hx0 : fsub x' f0 = x').
  { destruct x' as [s|[]| |[] m e]; try discriminate; reflexivity. }
  unfold Greens. cbn [scan_stops fst]. rewrite H0.
  destruct (fleb x' (of_ratio 5 10)) eqn:Hh.
  - (* between the first stop and the second *)
    unfold blend.
    change (pyindex _ (0 + 1 - 1)) with (Ok (f0, "#F7FCF5") : res (float * string)).
    change (pyindex _ (0 + 1)) with (Ok (of_ratio 5 10, "#74C476") : res (float * string)).
    cbn [mbind res_bind fst].
    change (fsub (of_ratio 5 10) f0) with (of_ratio 5 10).
    unfold pydiv. change (is_zero (of_ratio 5 10)) with false. cbv iota.
    cbn [mbind res_bind]. rewrite Hx0.
    destruct (greens_blend x' (fdiv x' (of_ratio 5 10))
                (f0, "#F7FCF5") (of_ratio 5 10, "#74C476")) as (R & G & B & Hb & Hname).
    + apply fdiv_valid.
    + apply (below_pow2_mono 3); [lia|].
      apply (fdiv_below 1 0 x' (of_ratio 5 10) Bx); [vm_compute; discriminate|lia|lia].
    + cbn; auto.
    + cbn; auto.
    + exists R, G, B. split; [exact Hb|exact Hname].
  - (* between the second stop and the last *)
    assert (Hi : (if fleb x' f1 then 0 + 1 + 1 else 0 + 1 + 1 + 1 - 1) = 2)
      by (destruct (fleb x' f1); reflexivity).
    rewrite Hi. unfold blend.
    change (pyindex _ (2 - 1)) with (Ok (of_ratio 5 10, "#74C476") : res (float * string)).
    change (pyindex _ 2) with (Ok (f1, "#00441B") : res (float * string)).
    cbn [mbind res_bind fst].
    change (fsub f1 (of_ratio 5 10)) with (of_ratio 5 10).
    unfold pydiv. change (is_zero (of_ratio 5 10)) with false. cbv iota.
    cbn [mbind res_bind].
    destruct (greens_blend x' (fdiv (fsub x' (of_ratio 5 10)) (of_ratio 5 10))
                (of_ratio 5 10, "#74C476") (f1, "#00441B")) as (R & G & B & Hb & Hname).
    + apply fdiv_valid.
    + apply (fdiv_below 3 0 _ (of_ratio 5 10)); [|vm_compute; discriminate|lia|lia].
      apply (fadd_fsub_below 1 x' (of_ratio 5 10)); [exact Bx|reflexivity|lia|lia].
    + cbn; auto.
    + cbn; auto.
    + exists R, G, B. split; [exact Hb|exact Hname].
Qed.

(** X24: the scripts always get a pixel: for every double [cell] the
    colouring of a cell returns four bytes and raises nothing.  A negative
    cell is transparent black; every other cell, a NaN or an infinity
    included, is opaque. *)
Theorem pixel_total (cell : float) :
  exists R G B A : Z,
    pixel cell = Ok (R, G, B, A)
    /\ (0 <= R <= 255 /\ 0 <= G <= 255 /\ 0 <= B <= 255)
    /\ A = (if fltb cell f0 then 0 else 255)
    /\ (fltb cell f0 = true -> R = 0 /\ G = 0 /\ B = 0).
Proof.
  unfold pixel. destruct (fltb cell f0).
  { exists 0, 0, 0, 0. repeat split; lia. }
  destruct (gradient_greens (fdiv cell HI) (fdiv_valid _ _))
    as [-> | [-> | (R & G & B & Hb & ->)]]; cbn [mbind res_bind].
  - exists 247, 252, 245, 255. split; [vm_compute; reflexivity|].
    repeat split; try lia; discriminate.
  - exists 0, 68, 27, 255. split; [vm_compute; reflexivity|].
    repeat split; try lia; discriminate.
  - exists R, G, B, 255. destruct Hb as (HR & HG & HB).
    rewrite color_bytes_hex by assumption.
    repeat split; try lia; discriminate.
Qed.

Lemma pixel_total_witness :
  exists R G B A : Z,
    pixel (of_ratio 285 100) = Ok (R, G, B, A)
    /\ (0 <= R <= 255 /\ 0 <= G <= 255 /\ 0 <= B <= 255)
    /\ A = (if fltb (of_ratio 285 100) f0 then 0 else 255)
    /\ (fltb (of_ratio 285 100) f0 = true -> R = 0 /\ G = 0 /\ B = 0).
Proof. apply (pixel_total (of_ratio 285 100)). Defined.

Example pixel_missing : pixel (of_Z (-999)) = Ok (0, 0, 0, 0).
Proof. reflexivity. Qed.

Example pixel_half_scale : pixel (of_ratio 285 100) = Ok (116, 196, 118, 255).
Proof. vm_compute. reflexivity. Qed.

End Pixel.

(** ** The functional notation: writing and reading back *)

Section Translucent.

Ltac by_bytes :=
  match goal with
  | |- forall k : Z, 0 <= k <= 255 -> @?P k =>
      apply (forall_bytes P); vm_compute; reflexivity
  end.

Lemma free_of_app (sep : ascii) (s t : string) :
  free_of sep (s +:+ t) = free_of sep s && free_of sep t.
Proof.
  unfold free_of. induction s as [|c s IH]; [reflexivity|].
  change (String c s +:+ t) with (String c (s +:+ t)). cbn [all_chars].
  rewrite IH, andb_assoc. reflexivity.
Qed.

Lemma append_assoc (s t u : string) : (s +:+ t) +:+ u = s +:+ (t +:+ u).
Proof.
  induction s as [|c s IH]; [reflexivity|].
  change (String c s +:+ t) with (String c (s +:+ t)).
  change (String c (s +:+ t) +:+ u) with (String c ((s +:+ t) +:+ u)).
  rewrite IH. reflexivity.
Qed.

(** A byte in decimal: one token, free of parentheses, read back by [float]
    as the byte. *)
Lemma fmt_d_byte (k : Z) :
  0 <= k <= 255 ->
  findall_tokens (fmt_d k) = [fmt_d k]
  /\ free_of "(" (fmt_d k) = true
  /\ rgb_component 0 (fmt_d k) = Ok (byte_channel k)
  /\ rgb_component 1 (fmt_d k) = Ok (byte_channel k)
  /\ rgb_component 2 (fmt_d k) = Ok (byte_channel k).
Proof. revert k. by_bytes. Qed.

Lemma forall_hundredths (P : Z -> Prop) `{forall n, Decision (P n)} :
  forallb (fun n => bool_decide (P n)) (range0 101) = true ->
  forall n, 0 <= n <= 100 -> P n.
Proof.
  intros Hall n Hn. rewrite forallb_forall in Hall.
  apply (proj1 (bool_decide_eq_true (P n))), Hall. unfold range0. apply in_map_iff.
  exists (Z.to_nat n). split; [lia|]. apply in_seq. lia.
Qed.

(** Hundredths with two decimals: one token before the closing parenthesis,
    read back by [float] as [n / 100]. *)
Lemma two_decimals_token (n : Z) :
  0 <= n <= 100 ->
  findall_tokens (two_decimals n +:+ ")") = [two_decimals n]
  /\ findall_tokens ("-" +:+ two_decimals n +:+ ")") = [two_decimals n]
  /\ free_of "(" (two_decimals n +:+ ")") = true
  /\ rgb_component 3 (two_decimals n) = Ok (of_ratio n 100)
  /\ clamp01 (of_ratio n 100) = of_ratio n 100.
Proof.
  revert n.
  match goal with
  | |- forall n : Z, 0 <= n <= 100 -> @?P n =>
      apply (forall_hundredths P); vm_compute; reflexivity
  end.
Qed.

(** ['%0.2f'] on a double from 0 up to, but not, 1. *)
Lemma fmt_0_2f_below_one (a : float) :
  valid a = true -> is_nan a = false ->
  fltb a f0 = false -> fleb f1 a = false ->
  exists n : Z,
    0 <= n <= 100
    /\ (fmt_0_2f a = two_decimals n \/ fmt_0_2f a = "-" +:+ two_decimals n)
    /\ (Qabs (100 * toQ a - inject_Z n) <= 1 # 2)%Q.
Proof.
  intros Hv Hn H0 H1. pose proof (fleb_total f1 a eq_refl Hn H1) as Hle.
  destruct a as [[]|[]| |[] m e]; try discriminate.
  - exists 0. split; [lia|]. split; [right; reflexivity|]. vm_compute. discriminate.
  - exists 0. split; [lia|]. split; [left; reflexivity|]. vm_compute. discriminate.
  - pose proof (bounded_canonical _ _ Hv) as [Hc _].
    pose proof (digits2_bounds m) as [_ Hhi].
    assert (He : e < 0 /\ Zpos m < 2 ^ (- e)).
    { destruct (fleb_one m e Hle) as [He|[He Hm]].
      - split; [lia|]. eapply Z.lt_le_trans; [exact Hhi|]. apply Z.pow_le_mono_r; lia.
      - subst e. split; [lia|].
        assert (Zpos m <> 2 ^ 52).
        { intros Heq. change (2 ^ 52) with (Zpos 4503599627370496) in Heq.
          injection Heq as ->. discriminate H1. }
        change (- -52) with 52. lia. }
    destruct He as [He Hm]. destruct e as [|p|p]; try lia.
    change (- Zneg p) with (Zpos p) in Hm.
    cbn [fmt_0_2f]. change (Z.pow_pos 2 p) with (2 ^ Zpos p).
    set (den := 2 ^ Zpos p) in *.
    assert (Hden : 0 < den) by (apply Z.pow_pos_nonneg; lia).
    pose proof (Z.div_mod (100 * Zpos m) den ltac:(lia)) as Hdm.
    pose proof (Z.mod_pos_bound (100 * Zpos m) den Hden) as Hr.
    set (q := 100 * Zpos m / den) in *. set (r := (100 * Zpos m) mod den) in *.
    assert (Hq : 0 <= q <= 99).
    { split; [apply Z.div_pos; lia|].
      assert (q < 100); [|lia]. apply Z.div_lt_upper_bound; lia. }
    set (n := if (den <? 2 * r) || ((2 * r =? den) && Z.odd q) then q + 1 else q).
    assert (Hnq : n = q \/ n = q + 1) by (unfold n; destruct (_ || _); auto).
    assert (Herr : - den <= 2 * (100 * Zpos m - n * den) <= den).
    { unfold n. destruct (Z.ltb_spec den (2 * r)); cbn [orb].
      - lia.
      - destruct (Z.eqb_spec (2 * r) den); cbn [andb]; [destruct (Z.odd q)|]; lia. }
    exists n. split; [lia|]. split; [left; reflexivity|].
    apply Qabs_Qle_condition.
    cbn [toQ]. unfold Qle, Qminus, Qplus, Qmult, Qopp, inject_Z. cbn [Qnum Qden].
    rewrite !Pos2Z.inj_mul, !Pos2Z.inj_pow.
    change (Zpos 2 ^ Zpos p) with den. change (Z.pos 1) with 1.
    split; nia.
Qed.

Lemma args_tokens (R G B : Z) (tA pre : string) :
  0 <= R <= 255 -> 0 <= G <= 255 -> 0 <= B <= 255 ->
  findall_tokens (pre +:+ tA +:+ ")") = [tA] ->
  findall_tokens (fmt_d R +:+ "," +:+ fmt_d G +:+ "," +:+ fmt_d B +:+ "," +:+ pre +:+ tA +:+ ")")
  = [fmt_d R; fmt_d G; fmt_d B; tA].
Proof.
  intros HR HG HB HA.
  destruct (fmt_d_byte R HR) as (HtR & _). destruct (fmt_d_byte G HG) as (HtG & _).
  destruct (fmt_d_byte B HB) as (HtB & _).
  repeat match goal with
    | |- context ["," +:+ ?t] => change ("," +:+ t) with (String "," t)
    end.
  rewrite !findall_tokens_separator by reflexivity.
  rewrite HtR, HtG, HtB, HA. reflexivity.
Qed.

Lemma args_free (R G B : Z) (t : string) :
  0 <= R <= 255 -> 0 <= G <= 255 -> 0 <= B <= 255 ->
  free_of "(" t = true ->
  free_of "(" (fmt_d R +:+ "," +:+ fmt_d G +:+ "," +:+ fmt_d B +:+ "," +:+ t) = true.
Proof.
  intros HR HG HB Ht.
  destruct (fmt_d_byte R HR) as (_ & HfR & _). destruct (fmt_d_byte G HG) as (_ & HfG & _).
  destruct (fmt_d_byte B HB) as (_ & HfB & _).
  rewrite !free_of_app, HfR, HfG, HfB, Ht. reflexivity.
Qed.

Lemma startswith_append (p t : string) : startswith p (p +:+ t) = true.
Proof.
  unfold startswith. induction p as [|c p IH]; [destruct t; reflexivity|].
  change (String c p +:+ t) with (String c (p +:+ t)). cbn [String.prefix].
  destruct (ascii_dec c c) as [_|Hne]; [exact IH|congruence].
Qed.

(** [rgba] on what [name] writes for three bytes and hundredths of alpha. *)
Lemma rgba_of_functional (R G B n : Z) (pre : string) :
  0 <= R <= 255 -> 0 <= G <= 255 -> 0 <= B <= 255 -> 0 <= n <= 100 ->
  pre = EmptyString \/ pre = "-" ->
  rgba ("rgba(" +:+ fmt_d R +:+ "," +:+ fmt_d G +:+ "," +:+ fmt_d B +:+ ","
          +:+ pre +:+ two_decimals n +:+ ")")
  = Ok (byte_channel R, byte_channel G, byte_channel B, of_ratio n 100).
Proof.
  intros HR HG HB Hn Hpre.
  destruct (two_decimals_token n Hn) as (Ht1 & Ht2 & Hfree & Hcomp & Hclamp).
  assert (Htok : findall_tokens (pre +:+ two_decimals n +:+ ")") = [two_decimals n])
    by (destruct Hpre as [-> | ->]; assumption).
  assert (Hfr : free_of "(" (pre +:+ two_decimals n +:+ ")") = true)
    by (destruct Hpre as [-> | ->]; [exact Hfree|rewrite free_of_app, Hfree; reflexivity]).
  set (args := fmt_d R +:+ "," +:+ fmt_d G +:+ "," +:+ fmt_d B +:+ ","
                 +:+ pre +:+ two_decimals n +:+ ")").
  assert (Hsplit : split_on "(" ("rgba(" +:+ args) = ["rgba"; args]).
  { change ("rgba(" +:+ args) with ("rgba" +:+ String "(" args).
    rewrite split_on_app by reflexivity.
    rewrite split_on_free; [reflexivity|]. apply args_free; assumption. }
  unfold rgba.
  change (startswith "#" ("rgba(" +:+ args)) with false.
  change (startswith "rgb(" ("rgba(" +:+ args)) with false.
  rewrite (startswith_append "rgba(" args).
  cbn [orb]. cbv iota. rewrite Hsplit.
  change (pyindex ["rgba"; args] 1) with (Ok args : res string).
  cbn [mbind res_bind]. unfold args.
  rewrite (args_tokens R G B (two_decimals n) pre HR HG HB Htok).
  destruct (fmt_d_byte R HR) as (_ & _ & HcR & _).
  destruct (fmt_d_byte G HG) as (_ & _ & _ & HcG & _).
  destruct (fmt_d_byte B HB) as (_ & _ & _ & _ & HcB).
  cbn [convert_tokens]. rewrite HcR, HcG, HcB, Hcomp. cbn [mbind res_bind length Nat.eqb].
  rewrite !byte_channel_clamped, Hclamp by assumption. reflexivity.
Qed.

(** The bytes that [name] writes are the integers [int(255 * channel)] of the
    clamped channels. *)
Lemma name_bytes (r g b a : float) :
  valid r = true -> valid g = true -> valid b = true ->
  is_nan r || is_nan g || is_nan b = false ->
  exists R G B : Z,
    (0 <= R <= 255 /\ 0 <= G <= 255 /\ 0 <= B <= 255)
    /\ (pyint (fmul f255 (clamp01 r)) = Ok R /\ pyint (fmul f255 (clamp01 g)) = Ok G
        /\ pyint (fmul f255 (clamp01 b)) = Ok B)
    /\ name r g b a
       = Ok (if fleb f1 (clamp01 a) then hex_color R G B
             else "rgba(" +:+ fmt_d R +:+ "," +:+ fmt_d G +:+ "," +:+ fmt_d B +:+ ","
                    +:+ fmt_0_2f (clamp01 a) +:+ ")").
Proof.
  intros Hr Hg Hb Hnan.
  apply orb_false_iff in Hnan as [Hnan Hnb]. apply orb_false_iff in Hnan as [Hnr Hng].
  pose proof (fmt_arg_channel r Hr) as HR. rewrite Hnr in HR.
  pose proof (fmt_arg_channel g Hg) as HG. rewrite Hng in HG.
  pose proof (fmt_arg_channel b Hb) as HB. rewrite Hnb in HB.
  destruct HR as (R & HRr & HR), HG as (G & HGr & HG), HB as (B & HBr & HB).
  exists R, G, B. split; [auto|]. split; [auto using fmt_arg_ok|].
  unfold name. rewrite HR, HG, HB.
  destruct (fleb f1 (clamp01 a)); cbn [mbind res_bind]; [|reflexivity].
  rewrite re_sub_short_bytes by assumption. reflexivity.
Qed.

(** X25: a translucent colour survives writing and reading back to the byte
    and to the hundredth: for channels that are numbers and an alpha that is
    a number below 1, [name] returns a string that [rgba] reads as the bytes
    [int(255 * channel)] of the clamped channels, each divided by 255, with
    the alpha [n / 100] where [n] is the clamped alpha in hundredths, rounded
    to the nearest. *)
Theorem name_translucent_roundtrip (r g b a : float) :
  valid r = true -> valid g = true -> valid b = true -> valid a = true ->
  is_nan r || is_nan g || is_nan b = false ->
  fltb a f1 = true ->
  exists (s : string) (R G B n : Z),
    name r g b a = Ok s
    /\ (pyint (fmul f255 (clamp01 r)) = Ok R /\ pyint (fmul f255 (clamp01 g)) = Ok G
        /\ pyint (fmul f255 (clamp01 b)) = Ok B)
    /\ (0 <= R <= 255 /\ 0 <= G <= 255 /\ 0 <= B <= 255 /\ 0 <= n <= 100)
    /\ rgba s = Ok (byte_channel R, byte_channel G, byte_channel B, of_ratio n 100)
    /\ (Qabs (100 * toQ (clamp01 a) - inject_Z n) <= 1 # 2)%Q.
Proof.
  intros Hr Hg Hb Ha Hnan Hlt.
  destruct (name_bytes r g b a Hr Hg Hb Hnan) as (R & G & B & (HR & HG & HB) & Hint & Hname).
  destruct (fltb_not_nan _ _ Hlt) as [Hna _].
  assert (Hca : clamp01 a = (if fltb a f0 then f0 else a)).
  { unfold clamp01. destruct (fltb a f0); [reflexivity|].
    rewrite (fleb_fltb_flip _ _ (fltb_fleb _ _ Hlt)). reflexivity. }
  assert (Hc1 : fleb f1 (clamp01 a) = false).
  { rewrite Hca. destruct (fltb a f0); [reflexivity|apply fltb_fleb_flip, Hlt]. }
  destruct (fmt_0_2f_below_one (clamp01 a)) as (n & Hn & Hfmt & Hclose).
  { apply clamp01_valid, Ha. }
  { rewrite clamp01_is_nan. exact Hna. }
  { rewrite Hca. destruct (fltb a f0) eqn:E; [reflexivity|exact E]. }
  { exact Hc1. }
  rewrite Hc1 in Hname.
  eexists _, R, G, B, n. split; [exact Hname|]. split; [exact Hint|].
  split; [lia|]. split; [|exact Hclose].
  destruct Hfmt as [-> | ->].
  - apply (rgba_of_functional R G B n EmptyString); auto.
  - rewrite append_assoc. apply (rgba_of_functional R G B n "-"); auto.
Qed.

Lemma name_translucent_roundtrip_witness :
  exists (s : string) (R G B n : Z),
    name f1 f0 f0 (of_ratio 1 3) = Ok s
    /\ (pyint (fmul f255 (clamp01 f1)) = Ok R /\ pyint (fmul f255 (clamp01 f0)) = Ok G
        /\ pyint (fmul f255 (clamp01 f0)) = Ok B)
    /\ (0 <= R <= 255 /\ 0 <= G <= 255 /\ 0 <= B <= 255 /\ 0 <= n <= 100)
    /\ rgba s = Ok (byte_channel R, byte_channel G, byte_channel B, of_ratio n 100)
    /\ (Qabs (100 * toQ (clamp01 (of_ratio 1 3)) - inject_Z n) <= 1 # 2)%Q.
Proof. apply (name_translucent_roundtrip f1 f0 f0 (of_ratio 1 3)); reflexivity. Defined.

Example rgba_of_translucent_name :
  rgba "rgba(255,0,0,0.33)" = Ok (f1, f0, f0, of_ratio 33 100).
Proof. vm_compute. reflexivity. Qed.

(** X26: the two notations of an opaque colour agree: for all bytes,
    [rgba('rgb(R,G,B)')] with the bytes in decimal is
    [rgba('#rrggbb')] with the bytes in hexadecimal. *)
Theorem rgb_notation_agrees (R G B : Z) :
  0 <= R <= 255 -> 0 <= G <= 255 -> 0 <= B <= 255 ->
  rgba ("rgb(" +:+ fmt_d R +:+ "," +:+ fmt_d G +:+ "," +:+ fmt_d B +:+ ")")
  = rgba ("#" +:+ hex2 R +:+ hex2 G +:+ hex2 B).
Proof.
  intros HR HG HB. rewrite rgba_six_digits by assumption.
  destruct (fmt_d_byte R HR) as (HtR & HfR & HcR & _).
  destruct (fmt_d_byte G HG) as (HtG & HfG & _ & HcG & _).
  destruct (fmt_d_byte B HB) as (HtB & HfB & _ & _ & HcB).
  set (args := fmt_d R +:+ "," +:+ fmt_d G +:+ "," +:+ fmt_d B +:+ ")").
  assert (Hsplit : split_on "(" ("rgb(" +:+ args) = ["rgb"; args]).
  { change ("rgb(" +:+ args) with ("rgb" +:+ String "(" args).
    rewrite split_on_app by reflexivity.
    rewrite split_on_free; [reflexivity|].
    unfold args. rewrite !free_of_app, HfR, HfG, HfB. reflexivity. }
  assert (Htok : findall_tokens args = [fmt_d R; fmt_d G; fmt_d B]).
  { unfold args.
    repeat match goal with
      | |- context ["," +:+ ?t] => change ("," +:+ t) with (String "," t)
      end.
    rewrite !findall_tokens_separator by reflexivity.
    rewrite HtR, HtG, HtB. reflexivity. }
  unfold rgba.
  change (startswith "#" ("rgb(" +:+ args)) with false.
  rewrite (startswith_append "rgb(" args).
  cbn [orb]. cbv iota. rewrite Hsplit.
  change (pyindex ["rgb"; args] 1) with (Ok args : res string).
  cbn [mbind res_bind]. rewrite Htok.
  cbn [convert_tokens]. rewrite HcR, HcG, HcB. cbn [mbind res_bind length Nat.eqb app].
  rewrite !byte_channel_clamped by assumption. reflexivity.
Qed.

Lemma rgb_notation_agrees_witness : rgba "rgb(79,129,189)" = rgba "#4f81bd".
Proof. apply (rgb_notation_agrees 79 129 189); lia. Defined.

End Translucent.

(** ** gradient returns *)

Section GradientTotal.

Lemma Zdigits2_opp (z : Z) : Zdigits2 (- z) = Zdigits2 z.
Proof. destruct z; reflexivity. Qed.

Lemma Zdigits2_abs (z : Z) : Zdigits2 (Z.abs z) = Zdigits2 z.
Proof. destruct z; reflexivity. Qed.

Lemma Zdigits2_mono (a b : Z) : 0 < a -> a <= b -> Zdigits2 a <= Zdigits2 b.
Proof.
  intros Ha Hab.
  pose proof (Zdigits2_bounds a Ha) as [Hlo _].
  pose proof (Zdigits2_bounds b ltac:(lia)) as [_ Hhi].
  assert (Zdigits2 a - 1 < Zdigits2 b).
  { apply pow2_lt_inv; [pose proof (Zdigits2_pos b); lia|lia]. }
  lia.
Qed.

Lemma Zdigits2_shift (z k : Z) : 0 < z -> 0 <= k -> Zdigits2 (z * 2 ^ k) = Zdigits2 z + k.
Proof.
  intros Hz Hk. pose proof (Zdigits2_bounds z Hz) as [Hlo Hhi].
  pose proof (Zdigits2_pos z Hz) as Hd.
  assert (Hp : 0 < 2 ^ k) by (apply Z.pow_pos_nonneg; lia).
  apply Zdigits2_unique; [lia|]. split.
  - replace (Zdigits2 z + k - 1) with ((Zdigits2 z - 1) + k) by lia.
    rewrite Z.pow_add_r by lia. apply Z.mul_le_mono_nonneg_r; lia.
  - rewrite Z.pow_add_r by lia. apply Z.mul_lt_mono_pos_r; lia.
Qed.

(** Among doubles the larger exponent is the larger value. *)
Lemma exponent_order (ma mb : positive) (ea eb : Z) :
  bounded prec emax ma ea = true -> bounded prec emax mb eb = true ->
  ea < eb -> Zpos ma * 2 ^ (ea + 1074) < Zpos mb * 2 ^ (eb + 1074).
Proof.
  intros Ha Hb Hlt.
  apply bounded_canonical in Ha as [Ha _]. apply bounded_canonical in Hb as [Hb _].
  pose proof (digits2_bounds ma) as [_ Hha]. pose proof (digits2_bounds mb) as [Hlb _].
  set (da := Zpos (digits2_pos ma)) in *. set (db := Zpos (digits2_pos mb)) in *.
  assert (Hdb : db = 53) by lia. rewrite Hdb in Hlb. simpl (53 - 1) in Hlb.
  assert (Hda : da <= 53) by lia.
  assert (Hpa : 0 < 2 ^ (ea + 1074)) by (apply Z.pow_pos_nonneg; lia).
  apply Z.lt_le_trans with (2 ^ 53 * 2 ^ (ea + 1074)).
  - apply Z.mul_lt_mono_pos_r; [exact Hpa|].
    eapply Z.lt_le_trans; [exact Hha|]. apply Z.pow_le_mono_r; lia.
  - apply Z.le_trans with (2 ^ 52 * 2 ^ (eb + 1074)).
    + rewrite <- !Z.pow_add_r by lia. apply Z.pow_le_mono_r; lia.
    + apply Z.mul_le_mono_nonneg_r; [apply Z.pow_nonneg; lia|exact Hlb].
Qed.

(** The order of the doubles is the order of their values. *)
Lemma compare_sval (a b : float) :
  valid a = true -> valid b = true ->
  below_pow2 1024 a = true -> below_pow2 1024 b = true ->
  SFcompare a b = Some (sval a ?= sval b).
Proof.
  intros Ha Hb Ba Bb.
  assert (Hpos : forall m e, bounded prec emax m e = true -> 0 < Zpos m * 2 ^ (e + 1074)).
  { intros m e H. apply bounded_canonical in H as [H _].
    apply Z.mul_pos_pos; [lia|apply Z.pow_pos_nonneg; lia]. }
  destruct a as [sa|sa| |sa ma ea], b as [sb|sb| |sb mb eb]; try discriminate;
    cbn [SFcompare sval]; try reflexivity; f_equal; symmetry.
  - pose proof (Hpos _ _ Hb).
    destruct sb; cbn [cond_Zopp]; [apply Z.compare_gt_iff|apply Z.compare_lt_iff]; lia.
  - pose proof (Hpos _ _ Ha).
    destruct sa; cbn [cond_Zopp]; [apply Z.compare_lt_iff|apply Z.compare_gt_iff]; lia.
  - pose proof (Hpos _ _ Ha) as Pa. pose proof (Hpos _ _ Hb) as Pb.
    unfold valid in Ha, Hb. cbn [valid_binary] in Ha, Hb.
    assert (Hsame : forall m m' : positive, forall e,
               bounded prec emax m e = true ->
               (Zpos m * 2 ^ (e + 1074) ?= Zpos m' * 2 ^ (e + 1074)) = (m ?= m')%positive).
    { intros m m' e H. apply bounded_canonical in H as [H _].
      assert (0 < 2 ^ (e + 1074)) by (apply Z.pow_pos_nonneg; lia).
      rewrite Pos2Z.inj_compare.
      destruct (Z.compare_spec (Zpos m) (Zpos m')) as [E|E|E].
      - rewrite E. apply Z.compare_refl.
      - apply Z.compare_lt_iff. apply Z.mul_lt_mono_pos_r; assumption.
      - apply Z.compare_gt_iff. apply Z.mul_lt_mono_pos_r; assumption. }
    change (Pos.compare_cont Eq ma mb) with (ma ?= mb)%positive.
    destruct sa, sb; cbn [cond_Zopp].
    + (* both negative *)
      rewrite Z.compare_opp.
      destruct (Z.compare_spec ea eb) as [He|He|He].
      * subst eb. rewrite (Hsame mb ma ea Hb). apply Pos.compare_antisym.
      * pose proof (exponent_order _ _ _ _ Ha Hb He). apply Z.compare_gt_iff. lia.
      * pose proof (exponent_order _ _ _ _ Hb Ha He). apply Z.compare_lt_iff. lia.
    + apply Z.compare_lt_iff. lia.
    + apply Z.compare_gt_iff. lia.
    + destruct (Z.compare_spec ea eb) as [He|He|He].
      * subst eb. apply (Hsame ma mb ea Ha).
      * pose proof (exponent_order _ _ _ _ Ha Hb He). apply Z.compare_lt_iff. lia.
      * pose proof (exponent_order _ _ _ _ Hb Ha He). apply Z.compare_gt_iff. lia.
Qed.

Lemma fleb_sval (a b : float) :
  valid a = true -> valid b = true ->
  below_pow2 1024 a = true -> below_pow2 1024 b = true ->
  fleb a b = true -> sval a <= sval b.
Proof.
  intros Ha Hb Ba Bb. unfold fleb, SFleb. rewrite (compare_sval a b Ha Hb Ba Bb).
  destruct (Z.compare_spec (sval a) (sval b)); intros; try discriminate; lia.
Qed.

Lemma fltb_sval (a b : float) :
  valid a = true -> valid b = true ->
  below_pow2 1024 a = true -> below_pow2 1024 b = true ->
  fltb a b = true -> sval a < sval b.
Proof.
  intros Ha Hb Ba Bb. unfold fltb, SFltb. rewrite (compare_sval a b Ha Hb Ba Bb).
  destruct (Z.compare_spec (sval a) (sval b)); intros; try discriminate; lia.
Qed.


(** Rounding does not lower the binary order of magnitude. *)
Lemma binary_round_aux_above (s : bool) (m e : Z) (l : location) :
  0 < m -> -1074 <= e -> e <= fexp prec emax (Zdigits2 m + e) ->
  Zdigits2 m + e < 1024 ->
  above_pow2 (Zdigits2 m + e) (binary_round_aux prec emax s m e l) = true.
Proof.
  intros Hm Hlo He Hhi. rewrite fexp_eq in He.
  unfold binary_round_aux, shr_fexp. rewrite fexp_eq.
  pose proof (Zdigits2_bounds m Hm) as [Hdlo Hdhi].
  pose proof (Zdigits2_pos m Hm) as Hd.
  set (d := Zdigits2 m) in *.
  set (e1 := Z.max (d + e - 53) (-1074)) in *.
  set (n := e1 - e) in *.
  destruct (shr_m_shift (shr_record_of_loc m l) e n) as [Hq He1];
    [rewrite shr_record_of_loc_m; lia|unfold n; lia|].
  destruct (shr (shr_record_of_loc m l) e n) as [mrs' e'].
  cbn [fst snd] in Hq, He1. rewrite shr_record_of_loc_m in Hq.
  assert (He' : e' = e1) by (unfold n; lia). clear He1. subst e'.
  pose proof (rne_range (shr_m mrs') (loc_of_shr_record mrs')) as HN.
  set (N := round_nearest_even (shr_m mrs') (loc_of_shr_record mrs')) in *.
  rewrite Hq in HN. clear Hq.
  assert (Hn : 0 <= n <= d - 1) by (unfold n, e1; lia).
  assert (Hp : 0 < 2 ^ n) by (apply Z.pow_pos_nonneg; lia).
  assert (Hqlo : 2 ^ (d - 1 - n) <= m / 2 ^ n).
  { apply Z.div_le_lower_bound; [lia|].
    rewrite <- Z.pow_add_r by lia. replace (n + (d - 1 - n)) with (d - 1) by lia. exact Hdlo. }
  assert (Hqhi : m / 2 ^ n < 2 ^ 53).
  { apply Z.div_lt_upper_bound; [lia|].
    rewrite <- Z.pow_add_r by lia.
    eapply Z.lt_le_trans; [exact Hdhi|]. apply Z.pow_le_mono_r; unfold n, e1; lia. }
  assert (HNpos : 0 < N).
  { assert (0 < 2 ^ (d - 1 - n)) by (apply Z.pow_pos_nonneg; lia). lia. }
  assert (HdN : d - n <= Zdigits2 N).
  { pose proof (Zdigits2_bounds N HNpos) as [_ HNhi].
    assert (d - 1 - n < Zdigits2 N).
    { apply pow2_lt_inv; [pose proof (Zdigits2_pos N HNpos); lia|lia]. }
    lia. }
  assert (He1 : -1074 <= e1 <= 970) by (unfold e1; lia).
  change (shr (shr_record_of_loc N loc_Exact) e1
            (fexp prec emax (Zdigits2 N + e1) - e1))
    with (shr_fexp prec emax N e1 loc_Exact).
  destruct (Z_lt_le_dec N (2 ^ 53)) as [HNlt|HNge].
  - rewrite shr_fexp_exact by lia. cbn [shr_m].
    destruct N as [|pn|pn] eqn:EN; [lia| |lia].
    destruct (Z.leb_spec e1 (emax - prec)) as [_|Hgt];
      [|unfold emax, prec in Hgt; lia].
    cbn [above_pow2]. cbn [Zdigits2] in HdN. apply Z.leb_le. unfold n in HdN. lia.
  - assert (HNeq : N = 2 ^ 53) by lia.
    rewrite HNeq, shr_fexp_carry by lia. cbn [shr_m].
    change (2 ^ 52) with (Zpos 4503599627370496).
    destruct (Z.leb_spec (e1 + 1) (emax - prec)) as [_|Hgt];
      [|unfold emax, prec in Hgt; lia].
    cbn [above_pow2]. change (Zpos (digits2_pos 4503599627370496)) with 53.
    apply Z.leb_le. unfold e1. lia.
Qed.

Lemma binary_round_above (s : bool) (m : positive) (e : Z) :
  -1074 <= e -> Zpos (digits2_pos m) + e < 1024 ->
  above_pow2 (Zpos (digits2_pos m) + e) (binary_round prec emax s m e) = true.
Proof.
  intros Hlo Hhi. unfold binary_round, shl_align. rewrite fexp_eq.
  destruct (Z.max (Zpos (digits2_pos m) + e - 53) (-1074) - e) as [|k|k] eqn:Hk.
  - apply (binary_round_aux_above s (Zpos m) e); rewrite ?fexp_eq; cbn [Zdigits2]; lia.
  - apply (binary_round_aux_above s (Zpos m) e); rewrite ?fexp_eq; cbn [Zdigits2]; lia.
  - set (e' := Z.max (Zpos (digits2_pos m) + e - 53) (-1074)) in *.
    replace (Zpos (digits2_pos m) + e)
      with (Zdigits2 (Zpos (Pos.iter xO m k)) + e')
      by (cbn [Zdigits2]; rewrite iter_xO_digits; lia).
    apply binary_round_aux_above; try lia;
      rewrite ?fexp_eq; cbn [Zdigits2]; rewrite ?iter_xO_digits; lia.
Qed.

Lemma binary_normalize_above (z e : Z) (sz : bool) :
  z <> 0 -> -1074 <= e -> Zdigits2 z + e < 1024 ->
  above_pow2 (Zdigits2 z + e) (binary_normalize prec emax z e sz) = true.
Proof.
  intros Hz Hlo Hhi. destruct z as [|p|p]; [congruence| |];
    cbn [binary_normalize Zdigits2] in *; apply binary_round_above; assumption.
Qed.

Lemma sval_finite_digits (s : bool) (m : positive) (e : Z) :
  bounded prec emax m e = true ->
  sval (S754_finite s m e) <> 0
  /\ Zdigits2 (sval (S754_finite s m e)) = Zpos (digits2_pos m) + e + 1074.
Proof.
  intros H. apply bounded_canonical in H as [H _].
  assert (Hp : 0 < 2 ^ (e + 1074)) by (apply Z.pow_pos_nonneg; lia).
  cbn [sval].
  assert (Hd : Zdigits2 (Zpos m * 2 ^ (e + 1074)) = Zpos (digits2_pos m) + e + 1074).
  { rewrite Zdigits2_shift by lia. cbn [Zdigits2]. lia. }
  destruct s; cbn [cond_Zopp]; [rewrite Zdigits2_opp|]; split; try exact Hd; lia.
Qed.

(** The order of magnitude of a difference, from the values. *)
Lemma fsub_magnitude (a b : float) :
  valid a = true -> valid b = true ->
  below_pow2 1022 a = true -> below_pow2 1022 b = true ->
  below_pow2 (Zdigits2 (sval a - sval b) - 1074 + 1) (fsub a b) = true
  /\ (sval a - sval b <> 0 ->
      above_pow2 (Zdigits2 (sval a - sval b) - 1074) (fsub a b) = true).
Proof.
  intros Ha Hb Ba Bb. unfold fsub.
  destruct a as [sa|sa| |sa ma ea], b as [sb|sb| |sb mb eb]; try discriminate.
  - split; [destruct sa, sb; reflexivity|]. cbn [sval]. lia.
  - destruct (sval_finite_digits sb mb eb Hb) as [Hne Hd].
    replace (sval (S754_zero sa) - sval (S754_finite sb mb eb))
      with (- sval (S754_finite sb mb eb)) by (cbn [sval]; lia).
    rewrite Zdigits2_opp, Hd. cbn [SFsub below_pow2 above_pow2].
    split; [|intros _]; apply Z.leb_le; lia.
  - destruct (sval_finite_digits sa ma ea Ha) as [Hne Hd].
    replace (sval (S754_finite sa ma ea) - sval (S754_zero sb))
      with (sval (S754_finite sa ma ea)) by (cbn [sval]; lia).
    rewrite Hd. cbn [SFsub below_pow2 above_pow2].
    split; [|intros _]; apply Z.leb_le; lia.
  - cbn [SFsub].
    pose proof (bounded_canonical _ _ Ha) as [Hca _].
    pose proof (bounded_canonical _ _ Hb) as [Hcb _].
    apply below_pow2_finite in Ba, Bb.
    set (ez := Z.min ea eb).
    assert (Hez : -1074 <= ez) by (unfold ez; lia).
    pose proof (shl_align_value ma ea ez ltac:(unfold ez; lia)) as Hva.
    pose proof (shl_align_value mb eb ez ltac:(unfold ez; lia)) as Hvb.
    pose proof (aligned_below ma ea ez 1022 ltac:(unfold ez; lia) Ba) as HA.
    pose proof (aligned_below mb eb ez 1022 ltac:(unfold ez; lia) Bb) as HB.
    set (za := Zpos (fst (shl_align ma ea ez))) in *.
    set (zb := Zpos (fst (shl_align mb eb ez))) in *.
    set (z := cond_Zopp sa za - cond_Zopp sb zb).
    assert (Hpz : 0 < 2 ^ (ez + 1074)) by (apply Z.pow_pos_nonneg; lia).
    assert (HD : sval (S754_finite sa ma ea) - sval (S754_finite sb mb eb)
                 = z * 2 ^ (ez + 1074)).
    { cbn [sval]. unfold z. rewrite Hva, Hvb.
      replace (2 ^ (ea + 1074)) with (2 ^ (ea - ez) * 2 ^ (ez + 1074))
        by (rewrite <- Z.pow_add_r by (unfold ez; lia); f_equal; lia).
      replace (2 ^ (eb + 1074)) with (2 ^ (eb - ez) * 2 ^ (ez + 1074))
        by (rewrite <- Z.pow_add_r by (unfold ez; lia); f_equal; lia).
      destruct sa, sb; cbn [cond_Zopp]; ring. }
    rewrite HD.
    assert (Hzb : Z.abs z < 2 ^ (1023 - ez)).
    { replace (1023 - ez) with (Z.succ (1022 - ez)) by lia.
      rewrite Z.pow_succ_r by (unfold ez; lia).
      unfold z. destruct sa, sb; cbn [cond_Zopp]; lia. }
    assert (Hdz : Zdigits2 z + ez <= 1023).
    { rewrite <- Zdigits2_abs.
      pose proof (Zdigits2_le (Z.abs z) (1023 - ez) ltac:(unfold ez; lia) ltac:(lia) Hzb).
      lia. }
    destruct (Z.eq_dec z 0) as [Hz0|Hz0].
    + rewrite Hz0. cbn [binary_normalize]. split; [reflexivity|]. simpl. lia.
    + assert (Hdig : Zdigits2 (z * 2 ^ (ez + 1074)) = Zdigits2 z + (ez + 1074)).
      { rewrite <- (Zdigits2_abs (z * _)), Z.abs_mul, (Z.abs_eq (2 ^ _)) by lia.
        rewrite Zdigits2_shift by lia. rewrite Zdigits2_abs. reflexivity. }
      rewrite Hdig.
      replace (Zdigits2 z + (ez + 1074) - 1074) with (Zdigits2 z + ez) by lia.
      assert (Hzd : 0 < Zdigits2 z).
      { rewrite <- Zdigits2_abs. apply Zdigits2_pos. lia. }
      split; [|intros _; apply binary_normalize_above; assumption || lia].
      apply binary_normalize_below; try lia.
      replace (Zdigits2 z + ez - ez) with (Zdigits2 z) by lia.
      rewrite <- Zdigits2_abs. apply Zdigits2_bounds. lia.
Qed.


Lemma valid_below (f : float) :
  valid f = true -> below_pow2 1024 f = true \/ is_nan f = true \/ exists s, f = S754_infinity s.
Proof.
  destruct f as [s|s| |s m e]; intros H; eauto.
  left. apply bounded_canonical in H as [H1 H2]. cbn [below_pow2]. apply Z.leb_le. lia.
Qed.

Lemma below_sval (k : Z) (f : float) :
  valid f = true -> below_pow2 1024 f = true -> -1074 <= k ->
  below_pow2 k f = true <-> Z.abs (sval f) < 2 ^ (k + 1074).
Proof.
  intros Hv Hb Hk. destruct f as [s|s| |s m e]; try discriminate.
  - cbn [below_pow2 sval]. split; [intros _; apply Z.pow_pos_nonneg; lia|reflexivity].
  - destruct (sval_finite_digits s m e Hv) as [Hne Hd].
    pose proof (Zdigits2_bounds (Z.abs (sval (S754_finite s m e))) ltac:(lia)) as [Hlo Hhi].
    rewrite Zdigits2_abs, Hd in Hlo, Hhi.
    pose proof (bounded_canonical _ _ Hv) as [Hc _].
    cbn [below_pow2]. rewrite Z.leb_le. split; intros H.
    + eapply Z.lt_le_trans; [exact Hhi|]. apply Z.pow_le_mono_r; lia.
    + assert (Zpos (digits2_pos m) + e + 1074 - 1 < k + 1074).
      { apply pow2_lt_inv; [lia|]. lia. }
      lia.
Qed.

Lemma fleb_strict (a b : float) : fleb a b = true -> fleb b a = false -> fltb a b = true.
Proof.
  unfold fleb, fltb, SFleb, SFltb. rewrite (SFcompare_antisym a b).
  destruct (SFcompare a b) as [[]|]; simpl; congruence.
Qed.

Lemma unit_below (c : float) : unit_interval c -> below_pow2 1 c = true.
Proof.
  intros (Hv & H0 & H1).
  destruct c as [s|[]| |[] m e]; try discriminate; try reflexivity.
  destruct (fleb_one m e H1) as [He|[He Hm]];
    apply bounded_canonical in Hv as [Hc _]; cbn [below_pow2]; apply Z.leb_le; lia.
Qed.

Lemma blendable_channels (stop : float * string) :
  blendable stop ->
  exists r g b a,
    rgba stop.2 = Ok (r, g, b, a)
    /\ (valid r = true /\ valid g = true /\ valid b = true)
    /\ (below_pow2 1 r = true /\ below_pow2 1 g = true /\ below_pow2 1 b = true).
Proof.
  intros (_ & _ & r & g & b & a & Hrgba & Hnan).
  pose proof (rgba_channels _ _ _ _ _ Hrgba) as Hall.
  inversion Hall as [|? ? Hr Hall1]; subst. inversion Hall1 as [|? ? Hg Hall2]; subst.
  inversion Hall2 as [|? ? Hb _]; subst.
  apply orb_false_iff in Hnan as [Hnan Hnb]. apply orb_false_iff in Hnan as [Hnr Hng].
  destruct Hr as [Hr|Hr]; [congruence|]. destruct Hg as [Hg|Hg]; [congruence|].
  destruct Hb as [Hb|Hb]; [congruence|].
  exists r, g, b, a. split; [exact Hrgba|].
  split; [split; [apply Hr|split; [apply Hg|apply Hb]]|].
  split; [|split]; apply unit_below; assumption.
Qed.

(** The fraction of the interpolation is a number that is not large. *)
Lemma fraction_small (x prev cur : float) :
  valid x = true -> valid prev = true -> valid cur = true ->
  below_pow2 1022 prev = true -> below_pow2 1022 cur = true ->
  fltb prev x = true -> fleb x cur = true ->
  exists p, pydiv (fsub x prev) (fsub cur prev) = Ok p
            /\ valid p = true /\ below_pow2 5 p = true.
Proof.
  intros Hx Hp Hc Bp Bc Hlt Hle.
  assert (Bx24 : below_pow2 1024 x = true).
  { destruct (valid_below x Hx) as [H|[H|[s ->]]]; [exact H| |].
    - apply fltb_not_nan in Hlt as [_ Hn]. congruence.
    - destruct s; [|destruct cur as [?|[]| |]; discriminate].
      destruct prev as [?|[]| |]; discriminate. }
  assert (Bp24 : below_pow2 1024 prev = true) by (apply (below_pow2_mono 1022); [lia|exact Bp]).
  assert (Bc24 : below_pow2 1024 cur = true) by (apply (below_pow2_mono 1022); [lia|exact Bc]).
  pose proof (fltb_sval _ _ Hp Hx Bp24 Bx24 Hlt) as Hs1.
  pose proof (fleb_sval _ _ Hx Hc Bx24 Bc24 Hle) as Hs2.
  pose proof (proj1 (below_sval 1022 prev Hp Bp24 ltac:(lia)) Bp) as Ap.
  pose proof (proj1 (below_sval 1022 cur Hc Bc24 ltac:(lia)) Bc) as Ac.
  assert (Bx : below_pow2 1022 x = true).
  { apply (below_sval 1022 x Hx Bx24); lia. }
  destruct (fsub_magnitude x prev Hx Hp Bx Bp) as [Hup _].
  destruct (fsub_magnitude cur prev Hc Hp Bc Bp) as [_ Hlow].
  specialize (Hlow ltac:(lia)).
  set (D1 := sval x - sval prev) in *. set (D2 := sval cur - sval prev) in *.
  pose proof (Zdigits2_mono D1 D2 ltac:(unfold D1; lia) ltac:(unfold D1, D2; lia)) as Hmono.
  pose proof (Zdigits2_pos D1 ltac:(unfold D1; lia)) as Hd1.
  unfold pydiv.
  destruct (fsub cur prev) as [s|s| |s m e] eqn:Ed2; try discriminate Hlow.
  cbn [is_zero]. eexists. split; [reflexivity|]. split; [apply fdiv_valid|].
  apply (below_pow2_mono 3); [lia|].
  replace 3 with ((Zdigits2 D1 - 1074 + 1) - (Zdigits2 D1 - 1074) + 2) by lia.
  apply fdiv_below; [exact Hup| |lia|lia].
  cbn [above_pow2] in Hlow. apply Z.leb_le in Hlow. lia.
Qed.

(** X27: [gradient] returns: when there is a stop, every position is a
    finite double below [2 ^ 1022] in absolute value and every colour is one
    that [rgba] reads with numbers for its channels, [gradient] raises
    nothing, for any double [x], a NaN or an infinity included. *)
Theorem gradient_returns (x : float) (ranges : list (float * string)) :
  ranges <> [] -> Forall blendable ranges -> valid x = true ->
  exists s, gradient_scalar x ranges = Ok s.
Proof.
  intros Hne Hall Hv.
  assert (Hall' : Forall blendable (sorted ranges)) by (rewrite sorted_perm; exact Hall).
  assert (Hne' : sorted ranges <> []).
  { intros E. apply Hne. apply Permutation_nil. rewrite <- E. apply sorted_perm. }
  unfold gradient_scalar.
  set (x' := if is_nan x then f0 else x).
  assert (Hx : is_nan x' = false) by (unfold x'; destruct (is_nan x) eqn:E; [reflexivity|exact E]).
  assert (Hv' : valid x' = true) by (unfold x'; destruct (is_nan x); [reflexivity|exact Hv]).
  clearbody x'. clear Hall Hne. set (l := sorted ranges) in *. clearbody l.
  rewrite Forall_forall in Hall'.
  destruct (head l) as [first|] eqn:Hhead; [|destruct l; [congruence|discriminate]].
  destruct (last l) as [lst|] eqn:Hlast; [|apply last_None in Hlast; congruence].
  rewrite (pyindex_first _ _ Hhead), (pyindex_last _ _ Hlast). cbn [mbind res_bind].
  destruct (fleb x' first.1) eqn:Hf; [eauto|].
  destruct (fleb lst.1 x') eqn:Hl; [eauto|].
  assert (Hlin : lst ∈ l).
  { rewrite last_lookup in Hlast. exact (list_elem_of_lookup_2 _ _ _ Hlast). }
  destruct (Hall' _ Hlin) as (Hvl & Bl & _).
  assert (Hxl : fleb x' lst.1 = true).
  { apply fleb_total; [|exact Hx|exact Hl]. exact (below_pow2_not_nan _ _ Bl). }
  assert (Hex : Exists (fun e : float * string => fleb x' e.1 = true) l).
  { apply Exists_exists. exists lst. split; assumption. }
  destruct (scan_stops_first x' l 0 Hex) as (k & cur & Hk & Hc & Hbefore & Hscan).
  rewrite Hscan, Z.add_0_l.
  destruct k as [|k'].
  { destruct l as [|e0 t]; [discriminate|]. cbn in Hk, Hhead. congruence. }
  assert (Hk' : exists prev, l !! k' = Some prev).
  { apply lookup_lt_is_Some. apply lookup_lt_Some in Hk. lia. }
  destruct Hk' as [prev Hprev].
  rewrite (blend_between x' l k' prev cur Hprev Hk). unfold interpolate_between.
  pose proof (Hbefore k' prev ltac:(lia) Hprev) as Hbp.
  pose proof (list_elem_of_lookup_2 _ _ _ Hprev) as Hpin.
  pose proof (list_elem_of_lookup_2 _ _ _ Hk) as Hcin.
  destruct (Hall' _ Hpin) as (Hvp & Bp & _). destruct (Hall' _ Hcin) as (Hvc & Bc & _).
  assert (Hlt : fltb prev.1 x' = true).
  { apply fleb_strict; [|exact Hbp].
    apply fleb_total; [exact Hx|exact (below_pow2_not_nan _ _ Bp)|exact Hbp]. }
  destruct (fraction_small x' prev.1 cur.1 Hv' Hvp Hvc Bp Bc Hlt Hc) as (p & -> & Vp & Bfrac).
  cbn [mbind res_bind].
  destruct (blendable_channels _ (Hall' _ Hpin))
    as (a0 & a1 & a2 & a3 & -> & (Va0 & Va1 & Va2) & (Ba0 & Ba1 & Ba2)).
  destruct (blendable_channels _ (Hall' _ Hcin))
    as (b0 & b1 & b2 & b3 & -> & (Vb0 & Vb1 & Vb2) & (Bb0 & Bb1 & Bb2)).
  cbn [mbind res_bind].
  destruct (mix_number a0 b0 p Va0 Vb0 Vp Ba0 Bb0 Bfrac) as [V0 N0].
  destruct (mix_number a1 b1 p Va1 Vb1 Vp Ba1 Bb1 Bfrac) as [V1 N1].
  destruct (mix_number a2 b2 p Va2 Vb2 Vp Ba2 Bb2 Bfrac) as [V2 N2].
  pose proof (name_on_doubles _ _ _ f1 V0 V1 V2) as Hname.
  rewrite N0, N1, N2 in Hname. cbn [orb] in Hname.
  destruct Hname as (R & G & B & _ & ->). eauto.
Qed.

Lemma gradient_returns_witness : exists s, gradient_scalar (of_ratio 4 10) RWG_1 = Ok s.
Proof.
  apply (gradient_returns (of_ratio 4 10) RWG_1); [discriminate| |reflexivity].
  repeat constructor; cbn [fst snd]; eexists _, _, _, _; split; vm_compute; reflexivity.
Defined.

(** The bound on the positions is needed: with stops at -1.7e308 and
    1.7e308 both differences overflow, their quotient is a NaN, and [name]
    raises. *)
Example gradient_large_positions :
  gradient_scalar (of_Z (16 * 10 ^ 307))
    [(of_Z (-17 * 10 ^ 307), "#000"); (of_Z (17 * 10 ^ 307), "#fff")]
  = Raise TypeError.
Proof. vm_compute. reflexivity. Qed.

End GradientTotal.
